(** * RestaurantFinder popup: credential vault, JSON extraction, suggestion pipeline

    A shallow embedding of [popup.js].  JavaScript strings are sequences of
    UTF-16 code units, byte arrays are lists of [Byte.byte], asynchronous
    functions that talk to the network thread the request log and may throw.
    Platform services the script calls (JSON.parse, btoa/atob, TextEncoder,
    TextDecoder) are written out after their standards; the cryptographic
    primitives of [crypto.subtle] are an interface. *)

From Stdlib Require Import List Bool Arith ZArith NArith Lia.
From Stdlib.Strings Require Import String Ascii Byte.
From Stdlib Require Import DecimalString.
Import ListNotations.

Set Implicit Arguments.
Set Warnings "-register-all".

Local Open Scope N_scope.

(** ** JavaScript strings *)

Module JS.

(** A UTF-16 code unit. *)
Definition code_unit := N.

(** A JavaScript string value. *)
Definition jsstring := list code_unit.

(** An ASCII literal of the script, as a JavaScript string. *)
Definition lit (s : string) : jsstring :=
  List.map N_of_ascii (list_ascii_of_string s).

Definition c_quote : code_unit := 34.      (* the double quote *)
Definition c_backslash : code_unit := 92.
Definition c_lbrace : code_unit := 123.
Definition c_rbrace : code_unit := 125.
Definition c_lbracket : code_unit := 91.
Definition c_rbracket : code_unit := 93.
Definition c_comma : code_unit := 44.
Definition c_colon : code_unit := 58.
Definition c_minus : code_unit := 45.
Definition c_plus : code_unit := 43.
Definition c_dot : code_unit := 46.
Definition c_slash : code_unit := 47.
Definition c_zero : code_unit := 48.

(** A template of the script: as [lit], with a grave accent standing for
    the double quote. *)
Definition tpl (s : string) : jsstring :=
  List.map (fun a => let c := N_of_ascii a in if c =? 96 then c_quote else c)
           (list_ascii_of_string s).

(** A string literal between double quotes, quotes included. *)
Definition quoted (s : jsstring) : jsstring := c_quote :: s ++ [c_quote].

(** [===] on two strings. *)
Fixpoint str_eqb (a b : jsstring) : bool :=
  match a, b with
  | [], [] => true
  | x :: a', y :: b' => (x =? y) && str_eqb a' b'
  | _, _ => false
  end.

(** [s.indexOf(c)] for a one-unit needle: [None] stands for [-1]. *)
Fixpoint indexOf (c : code_unit) (s : jsstring) : option nat :=
  match s with
  | [] => None
  | x :: s' => if x =? c then Some O
               else match indexOf c s' with
                    | Some i => Some (S i)
                    | None => None
                    end
  end.

(** [s.slice(a, b)] for [0 <= a] and [0 <= b]. *)
Definition slice (a b : nat) (s : jsstring) : jsstring :=
  firstn (b - a) (skipn a s).

(** Decimal digits of a natural number, as [String(n)] prints an integer. *)
Definition decimal (n : N) : jsstring :=
  lit (NilEmpty.string_of_uint (N.to_uint n)).

End JS.
Import JS.

(** ** Exceptions *)

(** What a [throw] or a rejected promise carries. *)
Inductive exn : Type :=
| Error (message : jsstring)     (* [new Error(message)] *)
| TypeError                      (* a read on [null]/[undefined], a call of a
                                    non-function, a failed [fetch] *)
| SyntaxError                    (* [JSON.parse], [res.json()] *)
| URIError                       (* [encodeURIComponent] *)
| InvalidCharacterError          (* [btoa], [atob] *)
| OperationError.                (* [crypto.subtle.decrypt]: the AES-GCM tag
                                    check failed *)

(** A synchronous computation: a value, or an exception. *)
Inductive Outcome (A : Type) : Type :=
| Ok (a : A)
| Thrown (e : exn).
Arguments Ok {A} a.
Arguments Thrown {A} e.

Definition obind {A B} (m : Outcome A) (k : A -> Outcome B) : Outcome B :=
  match m with
  | Ok a => k a
  | Thrown e => Thrown e
  end.

Declare Scope outcome_scope.
Delimit Scope outcome_scope with outcome.
Notation "x <- m ;; k" := (obind m (fun x => k))
  (at level 61, m at next level, right associativity) : outcome_scope.

(** ** Byte arrays and base64 *)

Definition bytes := list byte.

(** The element a [Uint8Array] keeps when the number [n] is stored in it. *)
Definition byte_of_N (n : N) : byte :=
  match Byte.of_N (n mod 256) with
  | Some b => b
  | None => x00
  end.

(** [String.fromCharCode.apply(null, u8)]: one code unit per byte. *)
Definition fromCharCode (u8 : bytes) : jsstring := List.map Byte.to_N u8.

Module Base64.

Definition c_pad : code_unit := 61.

(** The base64 alphabet: A-Z, a-z, 0-9, plus and slash. *)
Definition alphabet_char (n : N) : code_unit :=
  if n <? 26 then 65 + n
  else if n <? 52 then 71 + n
  else if n <? 62 then n - 4
  else if n =? 62 then 43
  else 47.

Definition alphabet_value (c : code_unit) : option N :=
  if (65 <=? c) && (c <=? 90) then Some (c - 65)
  else if (97 <=? c) && (c <=? 122) then Some (c - 71)
  else if (48 <=? c) && (c <=? 57) then Some (c + 4)
  else if c =? 43 then Some 62
  else if c =? 47 then Some 63
  else None.

(** Three octets give four alphabet characters; a last group of one or two
    octets is padded. *)
Fixpoint encode_octets (s : list N) : jsstring :=
  match s with
  | a :: b :: c :: r =>
      alphabet_char (a / 4)
        :: alphabet_char (a mod 4 * 16 + b / 16)
        :: alphabet_char (b mod 16 * 4 + c / 64)
        :: alphabet_char (c mod 64)
        :: encode_octets r
  | [a; b] =>
      [alphabet_char (a / 4); alphabet_char (a mod 4 * 16 + b / 16);
       alphabet_char (b mod 16 * 4); c_pad]
  | [a] => [alphabet_char (a / 4); alphabet_char (a mod 4 * 16); c_pad; c_pad]
  | [] => []
  end.

(** [btoa(s)]: throws when a code unit is above 255. *)
Definition btoa (s : jsstring) : Outcome jsstring :=
  if forallb (fun c => c <=? 255) s then Ok (encode_octets s)
  else Thrown InvalidCharacterError.

Definition is_ascii_ws (c : code_unit) : bool :=
  (c =? 9) || (c =? 10) || (c =? 12) || (c =? 13) || (c =? 32).

(** When the length is a multiple of four, one or two final pads go. *)
Definition strip_padding (s : jsstring) : jsstring :=
  if (List.length s mod 4 =? 0)%nat then
    match rev s with
    | p :: r =>
        if p =? c_pad then
          match r with
          | q :: r' => if q =? c_pad then rev r' else rev r
          | [] => rev r
          end
        else s
    | [] => s
    end
  else s.

Fixpoint alphabet_values (s : jsstring) : option (list N) :=
  match s with
  | [] => Some []
  | c :: r =>
      match alphabet_value c, alphabet_values r with
      | Some v, Some vs => Some (v :: vs)
      | _, _ => None
      end
  end.

(** Four sextets give three octets; of a last group of two or three sextets
    the spare low bits are dropped. *)
Fixpoint decode_sextets (v : list N) : list N :=
  match v with
  | a :: b :: c :: d :: r =>
      (a * 4 + b / 16) :: (b mod 16 * 16 + c / 4) :: (c mod 4 * 64 + d)
        :: decode_sextets r
  | [a; b; c] => [a * 4 + b / 16; b mod 16 * 16 + c / 4]
  | [a; b] => [a * 4 + b / 16]
  | _ => []
  end.

(** [atob(s)], the forgiving base64 decoding of the HTML standard. *)
Definition atob (s : jsstring) : Outcome jsstring :=
  let data := strip_padding (filter (fun c => negb (is_ascii_ws c)) s) in
  if (List.length data mod 4 =? 1)%nat then Thrown InvalidCharacterError
  else match alphabet_values data with
       | Some v => Ok (decode_sextets v)
       | None => Thrown InvalidCharacterError
       end.

End Base64.

#[warnings="-abstract-large-number"]
Definition CHUNK : nat := 32768.   (* 0x8000 *)

(** [u8.subarray(a, b)]. *)
Definition subarray (a b : nat) (u8 : bytes) : bytes :=
  firstn (b - a) (skipn a u8).

(** The [while] loop of [base64Encode]; every turn advances [idx] by
    [CHUNK], so [fuel] above the length of [u8] is never used up. *)
Fixpoint base64Encode_loop (fuel : nat) (u8 : bytes) (idx : nat)
    (result : jsstring) : jsstring :=
  match fuel with
  | O => result
  | S fuel' =>
      if (idx <? List.length u8)%nat then
        let slice := subarray idx (Nat.min (idx + CHUNK) (List.length u8)) u8 in
        base64Encode_loop fuel' u8 (idx + CHUNK) (result ++ fromCharCode slice)
      else result
  end.

Definition base64Encode (u8 : bytes) : Outcome jsstring :=
  Base64.btoa (base64Encode_loop (S (List.length u8)) u8 0 []).

Definition base64Decode (b64 : jsstring) : Outcome bytes :=
  (binary <- Base64.atob b64 ;;
   Ok (List.map byte_of_N binary))%outcome.

(** ** Text encoding *)

Module Encoding.

Definition is_high (c : code_unit) : bool := (55296 <=? c) && (c <=? 56319).
Definition is_low (c : code_unit) : bool := (56320 <=? c) && (c <=? 57343).

Definition replacement : N := 65533.           (* U+FFFD *)
Definition byte_order_mark : N := 65279.       (* U+FEFF *)

(** The scalar value a surrogate pair stands for. *)
Definition pair_value (hi lo : code_unit) : N :=
  65536 + (hi - 55296) * 1024 + (lo - 56320).

(** The scalar values of a string, an unpaired surrogate becoming U+FFFD:
    the conversion [TextEncoder.encode] applies to its argument. *)
Fixpoint scalar_values (s : jsstring) : list N :=
  match s with
  | [] => []
  | c :: t =>
      if is_high c then
        match t with
        | d :: r => if is_low d then pair_value c d :: scalar_values r
                    else replacement :: scalar_values t
        | [] => [replacement]
        end
      else if is_low c then replacement :: scalar_values t
      else c :: scalar_values t
  end.

(** The same, [None] when a surrogate is unpaired. *)
Fixpoint strict_scalar_values (s : jsstring) : option (list N) :=
  match s with
  | [] => Some []
  | c :: t =>
      if is_high c then
        match t with
        | d :: r => if is_low d
                    then option_map (cons (pair_value c d)) (strict_scalar_values r)
                    else None
        | [] => None
        end
      else if is_low c then None
      else option_map (cons c) (strict_scalar_values t)
  end.

(** UTF-8 of one scalar value. *)
Definition utf8_octets (cp : N) : list N :=
  if cp <? 128 then [cp]
  else if cp <? 2048 then [192 + cp / 64; 128 + cp mod 64]
  else if cp <? 65536 then
    [224 + cp / 4096; 128 + cp / 64 mod 64; 128 + cp mod 64]
  else
    [240 + cp / 262144; 128 + cp / 4096 mod 64; 128 + cp / 64 mod 64;
     128 + cp mod 64].

(** [new TextEncoder().encode(s)]. *)
Definition TextEncoder_encode (s : jsstring) : bytes :=
  List.map byte_of_N (flat_map utf8_octets (scalar_values s)).

(** The state of the UTF-8 decoder of the Encoding standard. *)
Record DecoderState : Type := {
  code_point : N;
  bytes_seen : N;
  bytes_needed : N;
  lower_boundary : N;
  upper_boundary : N
}.

Definition initial : DecoderState :=
  {| code_point := 0; bytes_seen := 0; bytes_needed := 0;
     lower_boundary := 128; upper_boundary := 191 |}.

(** A byte met when no continuation byte is awaited. *)
Definition lead (b : N) : list N * DecoderState :=
  if b <=? 127 then ([b], initial)
  else if (194 <=? b) && (b <=? 223) then
    ([], {| code_point := b mod 32; bytes_seen := 0; bytes_needed := 1;
            lower_boundary := 128; upper_boundary := 191 |})
  else if (224 <=? b) && (b <=? 239) then
    ([], {| code_point := b mod 16; bytes_seen := 0; bytes_needed := 2;
            lower_boundary := if b =? 224 then 160 else 128;
            upper_boundary := if b =? 237 then 159 else 191 |})
  else if (240 <=? b) && (b <=? 244) then
    ([], {| code_point := b mod 8; bytes_seen := 0; bytes_needed := 3;
            lower_boundary := if b =? 240 then 144 else 128;
            upper_boundary := if b =? 244 then 143 else 191 |})
  else ([replacement], initial).

(** One byte: the scalar values it completes, and the next state.  A byte
    outside the awaited range is an error, after which that byte is read
    again from the initial state. *)
Definition step (st : DecoderState) (b : N) : list N * DecoderState :=
  if bytes_needed st =? 0 then lead b
  else if negb ((lower_boundary st <=? b) && (b <=? upper_boundary st)) then
    let (out, st') := lead b in (replacement :: out, st')
  else
    let cp := code_point st * 64 + b mod 64 in
    if bytes_seen st + 1 =? bytes_needed st then ([cp], initial)
    else ([], {| code_point := cp; bytes_seen := bytes_seen st + 1;
                 bytes_needed := bytes_needed st;
                 lower_boundary := 128; upper_boundary := 191 |}).

Fixpoint run (st : DecoderState) (bs : list N) : list N :=
  match bs with
  | [] => if bytes_needed st =? 0 then [] else [replacement]
  | b :: r => let (out, st') := step st b in out ++ run st' r
  end.

(** UTF-16 of one scalar value. *)
Definition utf16_units (cp : N) : jsstring :=
  if cp <? 65536 then [cp]
  else [55296 + (cp - 65536) / 1024; 56320 + (cp - 65536) mod 1024].

(** A byte order mark that opens the output is dropped ([ignoreBOM] is
    false in a decoder built without options). *)
Definition drop_bom (cps : list N) : list N :=
  match cps with
  | c :: r => if c =? byte_order_mark then r else cps
  | [] => []
  end.

(** [new TextDecoder().decode(buffer)]: UTF-8, not fatal. *)
Definition TextDecoder_decode (buffer : bytes) : jsstring :=
  flat_map utf16_units (drop_bom (run initial (List.map Byte.to_N buffer))).

Definition is_unreserved (c : N) : bool :=
  ((65 <=? c) && (c <=? 90)) || ((97 <=? c) && (c <=? 122))
  || ((48 <=? c) && (c <=? 57))
  || (c =? 45) || (c =? 95) || (c =? 46) || (c =? 33) || (c =? 126)
  || (c =? 42) || (c =? 39) || (c =? 40) || (c =? 41).

Definition hex_digit (n : N) : code_unit :=
  if n <? 10 then 48 + n else 55 + n.

Definition percent (octet : N) : jsstring :=
  [37; hex_digit (octet / 16); hex_digit (octet mod 16)].

(** [encodeURIComponent(s)]. *)
Definition encodeURIComponent (s : jsstring) : Outcome jsstring :=
  match strict_scalar_values s with
  | None => Thrown URIError
  | Some cps =>
      Ok (flat_map (fun cp => if is_unreserved cp then [cp]
                              else flat_map percent (utf8_octets cp)) cps)
  end.

End Encoding.

(** ** Key derivation and encrypt/decrypt *)

(** Algorithm descriptors handed to [crypto.subtle]. *)
Module Alg.

Inductive HashName : Type := SHA_1 | SHA_256 | SHA_384 | SHA_512.

Inductive CipherName : Type := AES_CBC | AES_CTR | AES_GCM.

(** [{ name: 'PBKDF2', salt, iterations, hash }] *)
Record Pbkdf2Params : Type := {
  salt : bytes;
  iterations : N;
  hash : HashName
}.

(** [{ name, length }], the key to derive. *)
Record AesKeyGenParams : Type := {
  name : CipherName;
  length : N
}.

(** [{ name: 'AES-GCM', iv }] *)
Record AesGcmParams : Type := { iv : bytes }.

End Alg.

(** The part of [crypto.subtle] the script uses.  Importing, deriving and
    encrypting are taken to succeed; decrypting rejects when the
    authentication tag does not verify. *)
Record SubtleCrypto : Type := {
  CryptoKey : Type;
  (** [importKey('raw', material, 'PBKDF2', false, ['deriveKey'])] *)
  importKey : bytes -> CryptoKey;
  (** [deriveKey(params, baseKey, derived, false, ['encrypt','decrypt'])] *)
  deriveKey : Alg.Pbkdf2Params -> CryptoKey -> Alg.AesKeyGenParams -> CryptoKey;
  (** [encrypt(params, key, data)] *)
  encrypt : Alg.AesGcmParams -> CryptoKey -> bytes -> bytes;
  (** [decrypt(params, key, data)] *)
  decrypt : Alg.AesGcmParams -> CryptoKey -> bytes -> option bytes
}.

(** Decrypting under the key and nonce of the encryption returns the
    plaintext. *)
Definition decrypts_own (subtle : SubtleCrypto) : Prop :=
  forall p k m, decrypt subtle p k (encrypt subtle p k m) = Some m.

(** The tag check rejects a ciphertext under any other key. *)
Definition rejects_other_keys (subtle : SubtleCrypto) : Prop :=
  forall p k k' m, k' <> k -> decrypt subtle p k' (encrypt subtle p k m) = None.

(** The random source behind [crypto.getRandomValues]: a stream of bytes
    and how many of them have been handed out. *)
Record Entropy : Type := {
  pool : nat -> byte;
  drawn : nat
}.

(** [crypto.getRandomValues(new Uint8Array(n))] *)
Definition getRandomValues (n : nat) (e : Entropy) : bytes * Entropy :=
  (List.map (fun i => pool e (drawn e + i)%nat) (seq 0 n),
   {| pool := pool e; drawn := (drawn e + n)%nat |}).

(** The object [encryptApiKey] returns and the store keeps. *)
Record EncryptedObj : Type := {
  ciphertext : jsstring;
  iv : jsstring;
  salt : jsstring
}.

Section Vault.

Variable subtle : SubtleCrypto.

Definition deriveKeyFromPassphrase (passphrase : jsstring) (saltUint8 : bytes)
  : CryptoKey subtle :=
  let passKey := importKey subtle (Encoding.TextEncoder_encode passphrase) in
  deriveKey subtle
    {| Alg.salt := saltUint8; Alg.iterations := 200000; Alg.hash := Alg.SHA_256 |}
    passKey
    {| Alg.name := Alg.AES_GCM; Alg.length := 256 |}.

Definition encryptApiKey (apiKeyPlain passphrase : jsstring) (e : Entropy)
  : Outcome EncryptedObj * Entropy :=
  let (salt, e1) := getRandomValues 16 e in
  let (iv, e2) := getRandomValues 12 e1 in
  let key := deriveKeyFromPassphrase passphrase salt in
  let cipherBuffer :=
    encrypt subtle {| Alg.iv := iv |} key (Encoding.TextEncoder_encode apiKeyPlain) in
  ((c <- base64Encode cipherBuffer ;;
    i <- base64Encode iv ;;
    s <- base64Encode salt ;;
    Ok {| ciphertext := c; iv := i; salt := s |})%outcome,
   e2).

Definition decryptApiKey (encryptedObj : EncryptedObj) (passphrase : jsstring)
  : Outcome jsstring :=
  (salt <- base64Decode (salt encryptedObj) ;;
   iv <- base64Decode (iv encryptedObj) ;;
   cipher <- base64Decode (ciphertext encryptedObj) ;;
   let key := deriveKeyFromPassphrase passphrase salt in
   match decrypt subtle {| Alg.iv := iv |} key cipher with
   | Some plainBuffer => Ok (Encoding.TextDecoder_decode plainBuffer)
   | None => Thrown OperationError
   end)%outcome.

End Vault.

(** A test double for [crypto.subtle]: a key is the checksum of what it was
    derived from, and a ciphertext is the plaintext sealed with the key. *)
Module Mock.

Definition checksum (bs : bytes) : N :=
  fold_right (fun b acc => Byte.to_N b + acc) 0 bs.

Definition subtle : SubtleCrypto :=
  {| CryptoKey := byte;
     importKey := fun material => byte_of_N (checksum material);
     deriveKey := fun params base derived =>
       byte_of_N (Byte.to_N base + checksum (Alg.salt params));
     encrypt := fun params key data => key :: data;
     decrypt := fun params key data =>
       match data with
       | tag :: plain => if Byte.eqb tag key then Some plain else None
       | [] => None
       end |}.

(** A deterministic byte stream standing for the random source. *)
Definition entropy : Entropy :=
  {| pool := fun i => byte_of_N (N.of_nat i * 37 + 11); drawn := 0 |}.

End Mock.

(** ** JSON values and [JSON.parse] *)

(** The values [JSON.parse] builds, and [undefined].  A number is kept as the
    literal that denotes it; an object as its members in source order. *)
Inductive jsval : Type :=
| Undefined
| Null
| Bool (b : bool)
| Number (literal : jsstring)
| Str (s : jsstring)
| Arr (elements : list jsval)
| Obj (members : list (jsstring * jsval)).

Module Json.

Definition is_ws (c : code_unit) : bool :=
  (c =? 32) || (c =? 9) || (c =? 10) || (c =? 13).

Fixpoint skip_ws (s : jsstring) : jsstring :=
  match s with
  | c :: s' => if is_ws c then skip_ws s' else s
  | [] => []
  end.

Definition is_digit (c : code_unit) : bool := (48 <=? c) && (c <=? 57).

Definition hex_value (c : code_unit) : option N :=
  if (48 <=? c) && (c <=? 57) then Some (c - 48)
  else if (65 <=? c) && (c <=? 70) then Some (c - 55)
  else if (97 <=? c) && (c <=? 102) then Some (c - 87)
  else None.

Definition hex4 (a b c d : code_unit) : option code_unit :=
  match hex_value a, hex_value b, hex_value c, hex_value d with
  | Some x, Some y, Some z, Some w => Some (((x * 16 + y) * 16 + z) * 16 + w)
  | _, _, _, _ => None
  end.

(** The characters of a string literal after its opening quote: the decoded
    string and what follows the closing quote. *)
Fixpoint parse_string_body (s : jsstring) (acc : jsstring)
  : option (jsstring * jsstring) :=
  match s with
  | [] => None
  | c :: r =>
      if c =? c_quote then Some (rev acc, r)
      else if c =? c_backslash then
        match r with
        | e :: r' =>
            if e =? c_quote then parse_string_body r' (c_quote :: acc)
            else if e =? c_backslash then parse_string_body r' (c_backslash :: acc)
            else if e =? c_slash then parse_string_body r' (c_slash :: acc)
            else if e =? 98 then parse_string_body r' (8 :: acc)
            else if e =? 102 then parse_string_body r' (12 :: acc)
            else if e =? 110 then parse_string_body r' (10 :: acc)
            else if e =? 114 then parse_string_body r' (13 :: acc)
            else if e =? 116 then parse_string_body r' (9 :: acc)
            else if e =? 117 then
              match r' with
              | h1 :: h2 :: h3 :: h4 :: r'' =>
                  match hex4 h1 h2 h3 h4 with
                  | Some u => parse_string_body r'' (u :: acc)
                  | None => None
                  end
              | _ => None
              end
            else None
        | [] => None
        end
      else if c <? 32 then None
      else parse_string_body r (c :: acc)
  end.

Fixpoint span_digits (s : jsstring) : jsstring * jsstring :=
  match s with
  | c :: r => if is_digit c
              then let (d, r') := span_digits r in (c :: d, r')
              else ([], s)
  | [] => ([], [])
  end.

(** Integer part: a single 0, or a nonzero digit followed by digits. *)
Definition parse_int (s : jsstring) : option (jsstring * jsstring) :=
  match s with
  | c :: r =>
      if c =? c_zero then Some ([c], r)
      else if is_digit c then let (d, r') := span_digits r in Some (c :: d, r')
      else None
  | [] => None
  end.

Definition parse_frac (s : jsstring) : option (jsstring * jsstring) :=
  match s with
  | c :: r =>
      if c =? c_dot then
        match span_digits r with
        | ([], _) => None
        | (d, r') => Some (c :: d, r')
        end
      else Some ([], s)
  | [] => Some ([], [])
  end.

Definition parse_exp (s : jsstring) : option (jsstring * jsstring) :=
  match s with
  | c :: r =>
      if (c =? 101) || (c =? 69) then
        let (sign, r1) :=
          match r with
          | g :: r0 => if (g =? c_plus) || (g =? c_minus) then ([g], r0) else ([], r)
          | [] => ([], r)
          end in
        match span_digits r1 with
        | ([], _) => None
        | (d, r') => Some (c :: sign ++ d, r')
        end
      else Some ([], s)
  | [] => Some ([], [])
  end.

Definition parse_number (s : jsstring) : option (jsstring * jsstring) :=
  let (sign, s1) :=
    match s with
    | c :: r => if c =? c_minus then ([c], r) else ([], s)
    | [] => ([], s)
    end in
  match parse_int s1 with
  | None => None
  | Some (i, s2) =>
      match parse_frac s2 with
      | None => None
      | Some (f, s3) =>
          match parse_exp s3 with
          | None => None
          | Some (e, s4) => Some (sign ++ i ++ f ++ e, s4)
          end
      end
  end.

(** [s] starts with the keyword [k]: what follows it. *)
Fixpoint strip_prefix (k s : jsstring) : option jsstring :=
  match k, s with
  | [], _ => Some s
  | x :: k', y :: s' => if x =? y then strip_prefix k' s' else None
  | _ :: _, [] => None
  end.

(** One JSON value at the head of [s] (after white space), and the rest.
    The recursion through arrays and objects goes down on [fuel]; twice the
    length of the text is always enough of it ([parse_fuel_independent]
    below). *)
Fixpoint parse_value (fuel : nat) (s : jsstring) : option (jsval * jsstring) :=
  match fuel with
  | O => None
  | S fuel' =>
      match skip_ws s with
      | [] => None
      | c :: r =>
          if c =? c_lbrace then
            match skip_ws r with
            | d :: r' =>
                if d =? c_rbrace then Some (Obj [], r')
                else match parse_members fuel' (d :: r') with
                     | Some (ms, r'') => Some (Obj ms, r'')
                     | None => None
                     end
            | [] => None
            end
          else if c =? c_lbracket then
            match skip_ws r with
            | d :: r' =>
                if d =? c_rbracket then Some (Arr [], r')
                else match parse_elements fuel' (d :: r') with
                     | Some (vs, r'') => Some (Arr vs, r'')
                     | None => None
                     end
            | [] => None
            end
          else if c =? c_quote then
            match parse_string_body r [] with
            | Some (str, r') => Some (Str str, r')
            | None => None
            end
          else if (c =? c_minus) || is_digit c then
            match parse_number (c :: r) with
            | Some (n, r') => Some (Number n, r')
            | None => None
            end
          else
            match strip_prefix (lit "true") (c :: r) with
            | Some r' => Some (Bool true, r')
            | None =>
                match strip_prefix (lit "false") (c :: r) with
                | Some r' => Some (Bool false, r')
                | None =>
                    match strip_prefix (lit "null") (c :: r) with
                    | Some r' => Some (Null, r')
                    | None => None
                    end
                end
            end
      end
  end

(** The elements of an array after its bracket, up to the closing bracket. *)
with parse_elements (fuel : nat) (s : jsstring)
  : option (list jsval * jsstring) :=
  match fuel with
  | O => None
  | S fuel' =>
      match parse_value fuel' s with
      | None => None
      | Some (v, r) =>
          match skip_ws r with
          | c :: r' =>
              if c =? c_comma then
                match parse_elements fuel' r' with
                | Some (vs, r'') => Some (v :: vs, r'')
                | None => None
                end
              else if c =? c_rbracket then Some ([v], r')
              else None
          | [] => None
          end
      end
  end

(** The members of an object after its brace, up to the closing brace. *)
with parse_members (fuel : nat) (s : jsstring)
  : option (list (jsstring * jsval) * jsstring) :=
  match fuel with
  | O => None
  | S fuel' =>
      match skip_ws s with
      | q :: r0 =>
          if q =? c_quote then
            match parse_string_body r0 [] with
            | None => None
            | Some (k, r1) =>
                match skip_ws r1 with
                | c :: r2 =>
                    if c =? c_colon then
                      match parse_value fuel' r2 with
                      | None => None
                      | Some (v, r3) =>
                          match skip_ws r3 with
                          | d :: r4 =>
                              if d =? c_comma then
                                match parse_members fuel' r4 with
                                | Some (ms, r5) => Some ((k, v) :: ms, r5)
                                | None => None
                                end
                              else if d =? c_rbrace then Some ([(k, v)], r4)
                              else None
                          | [] => None
                          end
                      end
                    else None
                | [] => None
                end
            end
          else None
      | [] => None
      end
  end.

(** [JSON.parse(text)]: one value, white space around it and nothing
    else; a SyntaxError otherwise. *)
Definition parse (text : jsstring) : Outcome jsval :=
  match parse_value (2 * List.length text + 2) text with
  | Some (v, r) =>
      match skip_ws r with
      | [] => Ok v
      | _ :: _ => Thrown SyntaxError
      end
  | None => Thrown SyntaxError
  end.

End Json.

(** ** [extractFirstJson] *)

(** What [extractFirstJson] returns when it is not [null]. *)
Record Extracted : Type := { text : jsstring; parsed : jsval }.

(** The literal the scanner compares each character with to detect an
    escape: the script writes it with four backslashes, a string of two. *)
Definition escape_literal : jsstring := [c_backslash; c_backslash].

(** The [for] loop of [extractFirstJson] from index [i] on, [rest] being
    [text.slice(i)]. *)
Fixpoint scan (whole : jsstring) (start : nat) (rest : jsstring) (i : nat)
    (depth : Z) (inString escape : bool) : option Extracted :=
  match rest with
  | [] => None
  | ch :: rest' =>
      if escape then scan whole start rest' (S i) depth inString false
      else if str_eqb [ch] escape_literal
      then scan whole start rest' (S i) depth inString true
      else if ch =? c_quote
      then scan whole start rest' (S i) depth (negb inString) escape
      else if inString then scan whole start rest' (S i) depth inString escape
      else
        let depth1 := if ch =? c_lbrace then (depth + 1)%Z else depth in
        if ch =? c_rbrace then
          let depth2 := (depth1 - 1)%Z in
          if (depth2 =? 0)%Z then
            let candidate := slice start (i + 1) whole in
            match Json.parse candidate with          (* try *)
            | Ok v => Some {| text := candidate; parsed := v |}
            | Thrown _ =>                               (* catch (e) *)
                scan whole start rest' (S i) depth2 inString escape
            end
          else scan whole start rest' (S i) depth2 inString escape
        else scan whole start rest' (S i) depth1 inString escape
  end.

(** [extractFirstJson(text)], [None] standing for [null]. *)
Definition extractFirstJson (v : jsval) : option Extracted :=
  match v with
  | Str [] => None
  | Str s =>
      match indexOf c_lbrace s with
      | None => None
      | Some start => scan s start (skipn start s) start 0%Z false false
      end
  | _ => None
  end.


(** The slices the loop hands to [JSON.parse] when every parse fails: the
    same loop with the [try] block replaced by recording the candidate. *)
Fixpoint candidates (whole : jsstring) (start : nat) (rest : jsstring) (i : nat)
    (depth : Z) (inString escape : bool) : list jsstring :=
  match rest with
  | [] => []
  | ch :: rest' =>
      if escape then candidates whole start rest' (S i) depth inString false
      else if str_eqb [ch] escape_literal
      then candidates whole start rest' (S i) depth inString true
      else if ch =? c_quote
      then candidates whole start rest' (S i) depth (negb inString) escape
      else if inString then candidates whole start rest' (S i) depth inString escape
      else
        let depth1 := if ch =? c_lbrace then (depth + 1)%Z else depth in
        if ch =? c_rbrace then
          let depth2 := (depth1 - 1)%Z in
          if (depth2 =? 0)%Z then
            slice start (i + 1) whole
              :: candidates whole start rest' (S i) depth2 inString escape
          else candidates whole start rest' (S i) depth2 inString escape
        else candidates whole start rest' (S i) depth1 inString escape
  end.

(** The candidate slices of a text, in the order the scanner meets them. *)
Definition candidate_slices (s : jsstring) : list jsstring :=
  match indexOf c_lbrace s with
  | None => []
  | Some start => candidates s start (skipn start s) start 0%Z false false
  end.

(** The first candidate of a list that parses. *)
Fixpoint first_parsed (cs : list jsstring) : option Extracted :=
  match cs with
  | [] => None
  | c :: cs' =>
      match Json.parse c with
      | Ok v => Some {| text := c; parsed := v |}
      | Thrown _ => first_parsed cs'
      end
  end.

(** ** Reading the envelope of a reply *)

(** What [callGemini] resolves to. *)
Module Reply.
Record t : Type := { text : jsval; rawJson : jsval }.
End Reply.

Section Pipeline.

(** ECMAScript coercions of values that are not strings, left to the
    platform: [JSON.stringify], [ToString], whether the number a literal
    denotes is truthy, and the comparison [v > n].  [ToString v] is what
    [String(v)] returns: on an object that has a member [toString], which
    is never callable in a value parsed from JSON, and on an array that
    holds such an object, [String] throws a TypeError, and that throw is
    not modelled. *)
Variable JSON_stringify : jsval -> jsstring.
Variable ToString : jsval -> jsstring.
Variable number_truthy : jsstring -> bool.
Variable exceeds : jsval -> N -> bool.

Definition nullish (v : jsval) : bool :=
  match v with
  | Undefined | Null => true
  | _ => false
  end.

(** [ToBoolean]. *)
Definition truthy (v : jsval) : bool :=
  match v with
  | Undefined | Null => false
  | Bool b => b
  | Number n => number_truthy n
  | Str s => match s with [] => false | _ :: _ => true end
  | Arr _ | Obj _ => true
  end.

(** The own property [k] of an object built by [JSON.parse]: of two
    members with one key the later stays. *)
Fixpoint own (k : jsstring) (members : list (jsstring * jsval)) : jsval :=
  match members with
  | [] => Undefined
  | (k', v) :: r =>
      if existsb (fun m => str_eqb k (fst m)) r then own k r
      else if str_eqb k k' then v
      else Undefined
  end.

(** [v.k] for one of the names [candidates], [content], [parts], [text],
    [output] and [v] neither [null] nor [undefined]: only objects have
    such a property. *)
Definition member (k : string) (v : jsval) : jsval :=
  match v with
  | Obj m => own (lit k) m
  | _ => Undefined
  end.

(** [v[0]] for [v] neither [null] nor [undefined]. *)
Definition item0 (v : jsval) : jsval :=
  match v with
  | Arr l => hd Undefined l
  | Str (c :: _) => Str [c]
  | Obj m => own (lit "0") m
  | _ => Undefined
  end.

(** [ToBoolean(v.length)] for [v] neither [null] nor [undefined]. *)
Definition length_truthy (v : jsval) : bool :=
  match v with
  | Arr l => match l with [] => false | _ :: _ => true end
  | Str s => match s with [] => false | _ :: _ => true end
  | Obj m => truthy (own (lit "length") m)
  | _ => false
  end.

(** [v.p]: a TypeError on [null] and [undefined]. *)
Definition dot (p : jsval -> jsval) (v : jsval) : Outcome jsval :=
  if nullish v then Thrown TypeError else Ok (p v).

(** [v?.p]. *)
Definition opt (p : jsval -> jsval) (v : jsval) : jsval :=
  if nullish v then Undefined else p v.

(** [v?.length], as a condition. *)
Definition opt_length (v : jsval) : bool :=
  if nullish v then false else length_truthy v.

Definition typeof_string (v : jsval) : bool :=
  match v with
  | Str _ => true
  | _ => false
  end.

Local Open Scope outcome_scope.

(** A statement [if (...) return e;]: [Some] what it returns, [None] when
    control goes on. *)
Definition returning := Outcome (option jsval).

Definition and_then (s1 s2 : returning) : returning :=
  match s1 with
  | Ok None => s2
  | _ => s1
  end.

(** [if (typeof e === 'string') return e;] *)
Definition return_if_string (e : Outcome jsval) : returning :=
  v <- e ;; Ok (if typeof_string v then Some v else None).

(** [cand.content.parts[0].text] *)
Definition cand_content_parts_0_text (cand : jsval) : Outcome jsval :=
  content <- dot (member "content") cand ;;
  parts <- dot (member "parts") content ;;
  part <- dot item0 parts ;;
  dot (member "text") part.

(** [cand.content[0].parts] *)
Definition cand_content_0_parts (cand : jsval) : Outcome jsval :=
  content <- dot (member "content") cand ;;
  first <- dot item0 content ;;
  dot (member "parts") first.

(** [v?.output?.[0]?.content?.[0]?.text] *)
Definition opt_output_0_content_0_text (v : jsval) : jsval :=
  opt (member "text") (opt item0 (opt (member "content")
    (opt item0 (opt (member "output") v)))).

(** [v.output[0].content[0].text] *)
Definition output_0_content_0_text (v : jsval) : Outcome jsval :=
  output <- dot (member "output") v ;;
  first <- dot item0 output ;;
  content <- dot (member "content") first ;;
  item <- dot item0 content ;;
  dot (member "text") item.

(** The body of the [try] block of [extractTextFromApiResponse]. *)
Definition extractText_try (json : jsval) : returning :=
  and_then
    (if opt_length (opt (member "candidates") json) then
       candidates <- dot (member "candidates") json ;;
       cand <- dot item0 candidates ;;
       and_then
         (if opt_length (opt (member "parts") (opt (member "content") cand))
          then return_if_string (cand_content_parts_0_text cand)
          else Ok None)
      (and_then
         (if opt_length (opt (member "content") cand) then
            parts <- cand_content_0_parts cand ;;
            if opt_length parts then
              return_if_string (part <- dot item0 parts ;; dot (member "text") part)
            else Ok None
          else Ok None)
      (and_then
         (if truthy (opt_output_0_content_0_text cand)
          then v <- output_0_content_0_text cand ;; Ok (Some v)
          else Ok None)
         (if typeof_string (opt (member "text") cand)
          then v <- dot (member "text") cand ;; Ok (Some v)
          else Ok None)))
     else Ok None)
    (if truthy (opt_output_0_content_0_text json)
     then v <- output_0_content_0_text json ;; Ok (Some v)
     else Ok None).

Definition extractTextFromApiResponse (json : jsval) : jsval :=
  match extractText_try json with
  | Ok (Some v) => v
  | Ok None => Null
  | Thrown _ => Null            (* [catch(e){}] *)
  end.

(** ** The generation endpoint *)

Record Request : Type := {
  url : jsstring;
  method : jsstring;
  headers : list (jsstring * jsstring);
  body : jsstring
}.

(** A response: its status line and its body as text, [None] when the body
    cannot be read. *)
Record Response : Type := {
  status : N;
  statusText : jsstring;
  payload : option jsstring
}.

(** [res.ok]: the status is in the range 200 to 299. *)
Definition ok (res : Response) : bool :=
  (200 <=? status res) && (status res <=? 299).

Inductive Fetched : Type :=
| NetworkFailure
| Responded (res : Response).

(** What the network answers to a request, given the requests sent before
    it. *)
Variable endpoint : list Request -> Request -> Fetched.

(** An asynchronous function that may call the endpoint: it extends the
    list of requests sent and completes with a value or an exception. *)
Definition Async (A : Type) : Type := list Request -> Outcome A * list Request.

Definition ret {A} (a : A) : Async A := fun sent => (Ok a, sent).

Definition throw {A} (e : exn) : Async A := fun sent => (Thrown e, sent).

Definition bind {A B} (m : Async A) (k : A -> Async B) : Async B :=
  fun sent =>
    match m sent with
    | (Ok a, sent') => k a sent'
    | (Thrown e, sent') => (Thrown e, sent')
    end.

Definition lift {A} (o : Outcome A) : Async A := fun sent => (o, sent).

(** [fetch(url, init)]: rejects with a TypeError when the network fails. *)
Definition fetch (req : Request) : Async Response :=
  fun sent =>
    (match endpoint sent req with
     | NetworkFailure => Thrown TypeError
     | Responded res => Ok res
     end,
     sent ++ [req]).

(** [res.text().catch(()=>null)], [None] for [null]. *)
Definition text_or_null (res : Response) : option jsstring := payload res.

(** [res.json()] *)
Definition json (res : Response) : Outcome jsval :=
  match payload res with
  | None => Thrown TypeError
  | Some b => Json.parse b
  end.

Declare Scope async_scope.
Delimit Scope async_scope with async.
Notation "x <- m ;; k" := (bind m (fun x => k))
  (at level 61, m at next level, right associativity) : async_scope.

(** ** [callGemini] *)

Definition API_BASE : jsstring :=
  lit "https://generativelanguage.googleapis.com/v1beta/models".

Definition DEFAULT_MODEL : jsstring := lit "gemini-2.0-flash".

(** The separator the error message puts before the body: space, em dash,
    space. *)
Definition dash_separator : jsstring := [32; 8212; 32].

(** The message of the error thrown on a response that is not ok. *)
Definition http_error_message (res : Response) : jsstring :=
  lit "Gemini HTTP " ++ decimal (status res) ++ lit " " ++ statusText res
    ++ match text_or_null res with
       | Some (c :: t) => dash_separator ++ slice 0 400 (c :: t)
       | Some [] | None => []
       end.

Definition callGemini (promptText model apiKey : jsstring) : Async Reply.t :=
  (m <- lift (Encoding.encodeURIComponent model) ;;
   k <- lift (Encoding.encodeURIComponent apiKey) ;;
   let url := API_BASE ++ lit "/" ++ m ++ lit ":generateContent?key=" ++ k in
   let body :=
     Obj [(lit "contents",
           Arr [Obj [(lit "parts", Arr [Obj [(lit "text", Str promptText)]])]])] in
   res <- fetch {| url := url;
                   method := lit "POST";
                   headers := [(lit "Content-Type", lit "application/json")];
                   body := JSON_stringify body |} ;;
   if negb (ok res) then throw (Error (http_error_message res))
   else
     json <- lift (json res) ;;
     let text := extractTextFromApiResponse json in
     ret {| Reply.text := if nullish text then Str (JSON_stringify json) else text;
            Reply.rawJson := json |})%async.

(** ** [fetchRestaurantSuggestions] *)

(** A value interpolated in a template literal, where the interpolation
    returns (see [ToString]). *)
Definition interpolate (v : jsval) : jsstring :=
  match v with
  | Str s => s
  | _ => ToString v
  end.

Definition basePrompt (city food : jsstring) : jsstring :=
  lit "Return STRICT JSON ONLY " ++ [8212] ++ tpl " nothing else. Structure must match EXACTLY:

{
  `foodDescription`: `short description (1-2 sentences)`,
  `restaurants`: [
    {
      `name`: `restaurant name`,
      `address`: `address string`,
      `googleMap`: `https://maps.google.com/....`,
      `reasons`: [`reason1`,`reason2`,`reason3`,`reason4`]
    },
    {
      `name`: `restaurant name`,
      `address`: `address string`,
      `googleMap`: `https://maps.google.com/....`,
      `reasons`: [`reason1`,`reason2`,`reason3`,`reason4`]
    }
  ]
}

Now: Provide the best two restaurants in " ++ city ++ tpl " for the food item `"
    ++ food ++ tpl "`. Keep each reason <= 12 words. Keep addresses concise. Do NOT include any explanatory text or extra fields.".

(** The cap on the raw text quoted in the second prompt. *)
Definition SNIPPET_LIMIT : nat := N.to_nat 8000.

(** [text.length > 8000 ? text.slice(0,8000) + '...[truncated]' : text].
    An array is sliced as a string is; an object whose [length] exceeds the
    cap has no [slice] to call; a number or a boolean has no [length]. *)
Definition rawSnippet (text : jsval) : Outcome jsval :=
  match text with
  | Str s =>
      Ok (if (SNIPPET_LIMIT <? List.length s)%nat
          then Str (slice 0 SNIPPET_LIMIT s ++ lit "...[truncated]")
          else text)
  | Arr l =>
      Ok (if (SNIPPET_LIMIT <? List.length l)%nat
          then Str (ToString (Arr (firstn SNIPPET_LIMIT l)) ++ lit "...[truncated]")
          else text)
  | Obj m =>
      if exceeds (own (lit "length") m) 8000 then Thrown TypeError else Ok text
  | Number _ | Bool _ => Ok text
  | Undefined | Null => Thrown TypeError
  end.

Definition reformatPrompt (rawSnippet : jsval) : jsstring :=
  lit "The previous response (not valid JSON) is below. Reformat it into VALID JSON matching the exact schema and nothing else (no commentary):

-----BEGIN PREVIOUS RESPONSE-----
" ++ interpolate rawSnippet ++ lit "
-----END PREVIOUS RESPONSE-----".

Definition strictPrompt (city food : jsstring) : jsstring :=
  tpl "Produce ONLY valid JSON with schema:
{`foodDescription`:`string`,`restaurants`:[{`name`:`string`,`address`:`string`,`googleMap`:`string`,`reasons`:[`s`,`s`,`s`,`s`]},{`name`:`string`,`address`:`string`,`googleMap`:`string`,`reasons`:[`s`,`s`,`s`,`s`]}]}
Now provide values for city: " ++ city ++ lit " and food: " ++ food ++ lit ".".

(** The object returned when no attempt gave JSON: [{ __raw: text }]. *)
Definition RawFallback (text : jsval) : jsval := Obj [(lit "__raw", text)].

Definition fetchRestaurantSuggestions (city food model apiKey : jsstring)
  : Async jsval :=
  ((* 1) First attempt *)
   attempt1 <- callGemini (basePrompt city food) model apiKey ;;
   let text := Reply.text attempt1 in
   match extractFirstJson text with
   | Some extracted => ret (parsed extracted)
   | None =>
       (* 2) a re-format prompt using the raw text *)
       rawSnippet <- lift (rawSnippet text) ;;
       attempt2 <- callGemini (reformatPrompt rawSnippet) model apiKey ;;
       match extractFirstJson (Reply.text attempt2) with
       | Some extracted => ret (parsed extracted)
       | None =>
           (* 3) a very short strictly constrained prompt *)
           attempt3 <- callGemini (strictPrompt city food) model apiKey ;;
           match extractFirstJson (Reply.text attempt3) with
           | Some extracted => ret (parsed extracted)
           | None => ret (RawFallback (Reply.text attempt1))
           end
       end
   end)%async.

End Pipeline.

(** ** A scripted endpoint *)

(** A test double for the generation endpoint and for the coercions the
    pipeline leaves to the platform. *)
Module Scripted.

(** A JSON string literal for a text without control characters. *)
Definition json_string (t : jsstring) : jsstring :=
  quoted (flat_map (fun c => if (c =? c_quote) || (c =? c_backslash)
                             then [c_backslash; c] else [c]) t).

(** The reply of the endpoint whose generated text is [t]: a status 200
    and the envelope with one candidate. *)
Definition reply (t : jsstring) : Response :=
  {| status := 200;
     statusText := lit "OK";
     payload := Some (tpl "{`candidates`:[{`content`:{`parts`:[{`text`:"
                        ++ json_string t ++ tpl "}],`role`:`model`}}]}") |}.

(** A refusal with status 429. *)
Definition too_many_requests : Response :=
  {| status := 429;
     statusText := lit "Too Many Requests";
     payload := Some (lit "quota exceeded") |}.

(** The endpoint that answers the [n]-th request with the [n]-th response
    of a script, and is unreachable afterwards. *)
Definition endpoint (script : list Response) (sent : list Request)
    (req : Request) : Fetched :=
  match nth_error script (List.length sent) with
  | Some res => Responded res
  | None => NetworkFailure
  end.

Definition JSON_stringify (v : jsval) : jsstring := lit "[json]".
Definition ToString (v : jsval) : jsstring := lit "[value]".
Definition number_truthy (n : jsstring) : bool :=
  existsb (fun c => (49 <=? c) && (c <=? 57)) n.
Definition exceeds (v : jsval) (n : N) : bool := false.

(** A search for Qubani ka Meetha in Hyderabad against a script. *)
Definition search (script : list Response) : Outcome jsval * list Request :=
  fetchRestaurantSuggestions JSON_stringify ToString number_truthy exceeds
    (endpoint script)
    (lit "Hyderabad, Telangana, India") (lit "Qubani ka Meetha")
    DEFAULT_MODEL (lit "secret-key") [].

End Scripted.

(** ** Auxiliary definitions for the proofs *)

(** The loop of [scan] without its two tests on [escape]. *)
Fixpoint scan_no_escape (whole : jsstring) (start : nat) (rest : jsstring)
    (i : nat) (depth : Z) (inString : bool) : option Extracted :=
  match rest with
  | [] => None
  | ch :: rest' =>
      if ch =? c_quote
      then scan_no_escape whole start rest' (S i) depth (negb inString)
      else if inString then scan_no_escape whole start rest' (S i) depth inString
      else
        let depth1 := if ch =? c_lbrace then (depth + 1)%Z else depth in
        if ch =? c_rbrace then
          let depth2 := (depth1 - 1)%Z in
          if (depth2 =? 0)%Z then
            let candidate := slice start (i + 1) whole in
            match Json.parse candidate with
            | Ok v => Some {| text := candidate; parsed := v |}
            | Thrown _ => scan_no_escape whole start rest' (S i) depth2 inString
            end
          else scan_no_escape whole start rest' (S i) depth2 inString
        else scan_no_escape whole start rest' (S i) depth1 inString
  end.


Module Base64Aux.
Import Base64.

(** The characters [encode_octets] gives before the padding. *)
Fixpoint encode_unpadded (s : list N) : jsstring :=
  match s with
  | a :: b :: c :: r =>
      alphabet_char (a / 4)
        :: alphabet_char (a mod 4 * 16 + b / 16)
        :: alphabet_char (b mod 16 * 4 + c / 64)
        :: alphabet_char (c mod 64)
        :: encode_unpadded r
  | [a; b] =>
      [alphabet_char (a / 4); alphabet_char (a mod 4 * 16 + b / 16);
       alphabet_char (b mod 16 * 4)]
  | [a] => [alphabet_char (a / 4); alphabet_char (a mod 4 * 16)]
  | [] => []
  end.

(** The padding [encode_octets] ends with. *)
Fixpoint padding (s : list N) : jsstring :=
  match s with
  | _ :: _ :: _ :: r => padding r
  | [_; _] => [c_pad]
  | [_] => [c_pad; c_pad]
  | [] => []
  end.

End Base64Aux.

(** A Unicode scalar value: a code point that is not a surrogate. *)
Definition scalar (cp : N) : Prop := cp < 1114112 /\ ~ (55296 <= cp <= 57343).

(** A string is well formed when its code units are 16-bit and every
    surrogate is half of a pair. *)
Fixpoint well_formed (s : jsstring) : bool :=
  match s with
  | [] => true
  | c :: t =>
      if Encoding.is_high c then
        match t with
        | d :: r => Encoding.is_low d && well_formed r
        | [] => false
        end
      else if Encoding.is_low c then false
      else (c <? 65536) && well_formed t
  end.

(** A string opens with a byte order mark. *)
Definition starts_with_bom (s : jsstring) : bool :=
  match s with
  | c :: _ => c =? Encoding.byte_order_mark
  | [] => false
  end.

Section VaultAux.

Variable subtle : SubtleCrypto.

(** The salt and the nonce an encryption draws from the random source. *)
Definition drawn_salt (e : Entropy) : bytes := fst (getRandomValues 16 e).
Definition drawn_iv (e : Entropy) : bytes :=
  fst (getRandomValues 12 (snd (getRandomValues 16 e))).

(** The AES-GCM output of an encryption. *)
Definition sealed (apiKeyPlain passphrase : jsstring) (e : Entropy) : bytes :=
  encrypt subtle {| Alg.iv := drawn_iv e |}
    (deriveKeyFromPassphrase subtle passphrase (drawn_salt e))
    (Encoding.TextEncoder_encode apiKeyPlain).

End VaultAux.

(** ** Texts and keys of the examples *)

(** The object of the brace-in-string test: an object whose member [a] is
    the string [b{c}d]. *)
Definition brace_in_string_object : jsstring :=
  lit "{" ++ quoted (lit "a") ++ lit ": " ++ quoted (lit "b{c}d") ++ lit "}".

(** A valid object whose string value holds an escaped quote and a closing
    brace: the member [a] is the two-character string quote, brace. *)
Definition escaped_quote_object : jsstring :=
  lit "{" ++ quoted (lit "a") ++ lit ":"
    ++ quoted (lit "\" ++ [c_quote] ++ lit "}") ++ lit "}".

(** An unparseable braced span followed by a standalone valid object. *)
Definition noise_then_object : jsstring :=
  lit "{bad} {" ++ quoted (lit "x") ++ lit ":1}".

(** An API key and two passphrases for the examples. *)
Definition example_key : jsstring := lit "AIzaSyExample-Key_0123456789".
Definition example_passphrase : jsstring := lit "correct horse".
Definition other_passphrase : jsstring := lit "battery staple".


(** ** Transport errors *)

Section TransportAux.

Variable endpoint : list Request -> Request -> Fetched.

(** A computation aborts on transport errors within [n] requests when every
    run sends at most [n] requests, and a request answered with a status
    that is not ok is the last request of the run, which ends in the error
    built from that response. *)
Definition aborts_on_transport_error {A} (n : nat) (m : Async A) : Prop :=
  forall sent out sent',
    m sent = (out, sent') ->
    exists reqs,
      sent' = sent ++ reqs
      /\ (List.length reqs <= n)%nat
      /\ forall j req res,
           nth_error reqs j = Some req ->
           endpoint (sent ++ firstn j reqs) req = Responded res ->
           ok res = false ->
           out = Thrown (Error (http_error_message res))
           /\ List.length reqs = S j.

End TransportAux.

(** ** Escaping HTML *)

(** [s.replaceAll(c, by)] for a pattern of one code unit and a replacement
    without dollar sign. *)
Definition replaceAll (c : code_unit) (by_ : jsstring) (s : jsstring) : jsstring :=
  flat_map (fun x => if x =? c then by_ else [x]) s.

Section Html.

Variable ToString : jsval -> jsstring.

(** The text [escapeHtml] returns.  [String(str)] throws a TypeError on
    an object that has a member [toString] and on an array that holds one;
    that throw is not modelled, so what is proved of [escapeHtml] is
    proved of the calls that return. *)
Definition escapeHtml (str : jsval) : jsstring :=
  if nullish str then []
  else
    replaceAll 39 (lit "&#39;")
      (replaceAll 34 (lit "&quot;")
         (replaceAll 62 (lit "&gt;")
            (replaceAll 60 (lit "&lt;")
               (replaceAll 38 (lit "&amp;") (interpolate ToString str))))).

End Html.

(** What [escapeHtml] makes of one code unit. *)
Definition escaped_unit (c : code_unit) : jsstring :=
  if c =? 38 then lit "&amp;"
  else if c =? 60 then lit "&lt;"
  else if c =? 62 then lit "&gt;"
  else if c =? 34 then lit "&quot;"
  else if c =? 39 then lit "&#39;"
  else [c].


(** The entities, without their ampersand. *)
Definition entity_tails : list jsstring :=
  [lit "amp;"; lit "lt;"; lit "gt;"; lit "quot;"; lit "#39;"].

(** ** The request and the reply of [callGemini] *)

Section CallAux.

Variable JSON_stringify : jsval -> jsstring.
Variable number_truthy : jsstring -> bool.

(** The request [callGemini] builds, when the model and the key can be
    put in a URL. *)
Definition request_for (promptText model apiKey : jsstring) : Outcome Request :=
  (m <- Encoding.encodeURIComponent model ;;
   k <- Encoding.encodeURIComponent apiKey ;;
   Ok {| url := API_BASE ++ lit "/" ++ m ++ lit ":generateContent?key=" ++ k;
         method := lit "POST";
         headers := [(lit "Content-Type", lit "application/json")];
         body := JSON_stringify
                   (Obj [(lit "contents",
                          Arr [Obj [(lit "parts",
                                     Arr [Obj [(lit "text", Str promptText)]])]])]) |})%outcome.

(** The [text] of the reply made from an envelope: what
    [extractTextFromApiResponse] finds, or the envelope as JSON. *)
Definition reply_text (json : jsval) : jsval :=
  let text := extractTextFromApiResponse number_truthy json in
  if nullish text then Str (JSON_stringify json) else text.

(** A statement returns only strings and truthy values. *)
Definition returns_text (s : returning) : Prop :=
  forall v, s = Ok (Some v) ->
    typeof_string v = true \/ truthy number_truthy v = true.

End CallAux.

Section RunAux.

Variable JSON_stringify : jsval -> jsstring.
Variable ToString : jsval -> jsstring.
Variable number_truthy : jsstring -> bool.
Variable exceeds : jsval -> N -> bool.
Variable endpoint : list Request -> Request -> Fetched.

(** The endpoint answered [req], sent after [sent], with a status from 200
    to 299 and a JSON body in whose text no object was found. *)
Definition answered_unparseable (sent : list Request) (req : Request) (v : jsval)
  : Prop :=
  exists res,
    endpoint sent req = Responded res
    /\ ok res = true
    /\ json res = Ok v
    /\ extractFirstJson (reply_text JSON_stringify number_truthy v) = None.

(** The requests a run of the pipeline for [city] and [food] can have
    sent: none, the first, the first two, or all three. *)
Definition run_requests (city food model apiKey : jsstring)
    (sent : list Request) (reqs : list Request) : Prop :=
  reqs = []
  \/ (exists r1,
        request_for JSON_stringify (basePrompt city food) model apiKey = Ok r1
        /\ (reqs = [r1]
            \/ exists v1 snippet r2,
                 answered_unparseable sent r1 v1
                 /\ rawSnippet ToString exceeds
                      (reply_text JSON_stringify number_truthy v1) = Ok snippet
                 /\ request_for JSON_stringify (reformatPrompt ToString snippet)
                      model apiKey = Ok r2
                 /\ (reqs = [r1; r2]
                     \/ exists v2 r3,
                          answered_unparseable (sent ++ [r1]) r2 v2
                          /\ request_for JSON_stringify (strictPrompt city food)
                               model apiKey = Ok r3
                          /\ reqs = [r1; r2; r3]))).

End RunAux.

(** ** The states of the UTF-8 decoder *)

(** Every code point from [lo] to [hi] is a scalar value. *)
Definition scalar_range (lo hi : N) : Prop :=
  (hi < 55296 \/ 57344 <= lo) /\ hi < 1114112.

(** The decoder awaits nothing, or the continuation bytes it accepts can
    only complete a scalar value. *)
Definition sound (st : Encoding.DecoderState) : Prop :=
  Encoding.bytes_needed st = 0
  \/ (128 <= Encoding.lower_boundary st
      /\ Encoding.upper_boundary st <= 191
      /\ let lo := Encoding.code_point st * 64 + (Encoding.lower_boundary st - 128) in
         let hi := Encoding.code_point st * 64 + (Encoding.upper_boundary st - 128) in
         (Encoding.bytes_needed st = Encoding.bytes_seen st + 1
          /\ scalar_range lo hi)
         \/ (Encoding.bytes_needed st = Encoding.bytes_seen st + 2
             /\ scalar_range (lo * 64) (hi * 64 + 63))
         \/ (Encoding.bytes_needed st = Encoding.bytes_seen st + 3
             /\ scalar_range (lo * 4096) (hi * 4096 + 4095))).

(** A character [base64Decode] cannot read: not of the alphabet, not the
    pad sign, not ASCII white space. *)
Definition foreign (c : code_unit) : Prop :=
  Base64.alphabet_value c = None /\ c <> Base64.c_pad /\ Base64.is_ascii_ws c = false.

(** ** The popup page *)

(** White space and line terminators, as [String.prototype.trim] removes
    them. *)
Definition is_white_space (c : code_unit) : bool :=
  (c =? 9) || (c =? 10) || (c =? 11) || (c =? 12) || (c =? 13) || (c =? 32)
  || (c =? 160) || (c =? 5760) || ((8192 <=? c) && (c <=? 8202))
  || (c =? 8232) || (c =? 8233) || (c =? 8239) || (c =? 8287)
  || (c =? 12288) || (c =? 65279).

Fixpoint trimStart (s : jsstring) : jsstring :=
  match s with
  | c :: t => if is_white_space c then trimStart t else s
  | [] => []
  end.

(** [s.trim()] *)
Definition trim (s : jsstring) : jsstring := rev (trimStart (rev (trimStart s))).

(** The horizontal ellipsis of the loading messages. *)
Definition c_ellipsis : code_unit := 8230.

(** What the user saw of [alert] and [prompt]; a cancelled prompt answers
    [null], here [None]. *)
Inductive Dialog : Type :=
| Alert (message : jsstring)
| Prompt (message : jsstring) (answer : option jsstring).

(** The page and what the script reaches from it: the three inputs, the
    markup last assigned to [resultsDiv.innerHTML], the raw text the
    buttons of the raw view were wired to when that view is the one shown,
    the variable [sessionApiKey], the entry [gemini_encrypted] of
    [chrome.storage.local], the random source, the requests sent, the
    dialogs shown, the console and the clipboard. *)
Record Page : Type := {
  apiKeyInput : jsstring;
  cityInput : jsstring;
  foodInput : jsstring;
  resultsDiv : jsstring;
  raw_shown : option jsval;
  sessionApiKey : option jsstring;
  gemini_encrypted : option EncryptedObj;
  random : Entropy;
  requests : list Request;
  dialogs : list Dialog;
  console : list exn;
  clipboard : option jsstring
}.

Definition set_apiKeyInput (v : jsstring) (w : Page) : Page :=
  {| apiKeyInput := v; cityInput := cityInput w; foodInput := foodInput w;
     resultsDiv := resultsDiv w; raw_shown := raw_shown w;
     sessionApiKey := sessionApiKey w; gemini_encrypted := gemini_encrypted w;
     random := random w; requests := requests w; dialogs := dialogs w;
     console := console w; clipboard := clipboard w |}.

Definition set_cityInput (v : jsstring) (w : Page) : Page :=
  {| apiKeyInput := apiKeyInput w; cityInput := v; foodInput := foodInput w;
     resultsDiv := resultsDiv w; raw_shown := raw_shown w;
     sessionApiKey := sessionApiKey w; gemini_encrypted := gemini_encrypted w;
     random := random w; requests := requests w; dialogs := dialogs w;
     console := console w; clipboard := clipboard w |}.

Definition set_foodInput (v : jsstring) (w : Page) : Page :=
  {| apiKeyInput := apiKeyInput w; cityInput := cityInput w; foodInput := v;
     resultsDiv := resultsDiv w; raw_shown := raw_shown w;
     sessionApiKey := sessionApiKey w; gemini_encrypted := gemini_encrypted w;
     random := random w; requests := requests w; dialogs := dialogs w;
     console := console w; clipboard := clipboard w |}.

(** [resultsDiv.innerHTML = html]: the elements shown before, and the
    listeners on them, are gone. *)
Definition set_innerHTML (html : jsstring) (w : Page) : Page :=
  {| apiKeyInput := apiKeyInput w; cityInput := cityInput w; foodInput := foodInput w;
     resultsDiv := html; raw_shown := None;
     sessionApiKey := sessionApiKey w; gemini_encrypted := gemini_encrypted w;
     random := random w; requests := requests w; dialogs := dialogs w;
     console := console w; clipboard := clipboard w |}.

(** The buttons of the raw view get their listeners. *)
Definition wire_raw_buttons (rawText : jsval) (w : Page) : Page :=
  {| apiKeyInput := apiKeyInput w; cityInput := cityInput w; foodInput := foodInput w;
     resultsDiv := resultsDiv w; raw_shown := Some rawText;
     sessionApiKey := sessionApiKey w; gemini_encrypted := gemini_encrypted w;
     random := random w; requests := requests w; dialogs := dialogs w;
     console := console w; clipboard := clipboard w |}.

Definition set_sessionApiKey (k : option jsstring) (w : Page) : Page :=
  {| apiKeyInput := apiKeyInput w; cityInput := cityInput w; foodInput := foodInput w;
     resultsDiv := resultsDiv w; raw_shown := raw_shown w;
     sessionApiKey := k; gemini_encrypted := gemini_encrypted w;
     random := random w; requests := requests w; dialogs := dialogs w;
     console := console w; clipboard := clipboard w |}.

Definition set_gemini_encrypted (o : option EncryptedObj) (w : Page) : Page :=
  {| apiKeyInput := apiKeyInput w; cityInput := cityInput w; foodInput := foodInput w;
     resultsDiv := resultsDiv w; raw_shown := raw_shown w;
     sessionApiKey := sessionApiKey w; gemini_encrypted := o;
     random := random w; requests := requests w; dialogs := dialogs w;
     console := console w; clipboard := clipboard w |}.

Definition set_random (e : Entropy) (w : Page) : Page :=
  {| apiKeyInput := apiKeyInput w; cityInput := cityInput w; foodInput := foodInput w;
     resultsDiv := resultsDiv w; raw_shown := raw_shown w;
     sessionApiKey := sessionApiKey w; gemini_encrypted := gemini_encrypted w;
     random := e; requests := requests w; dialogs := dialogs w;
     console := console w; clipboard := clipboard w |}.

Definition set_requests (l : list Request) (w : Page) : Page :=
  {| apiKeyInput := apiKeyInput w; cityInput := cityInput w; foodInput := foodInput w;
     resultsDiv := resultsDiv w; raw_shown := raw_shown w;
     sessionApiKey := sessionApiKey w; gemini_encrypted := gemini_encrypted w;
     random := random w; requests := l; dialogs := dialogs w;
     console := console w; clipboard := clipboard w |}.

Definition show_dialog (d : Dialog) (w : Page) : Page :=
  {| apiKeyInput := apiKeyInput w; cityInput := cityInput w; foodInput := foodInput w;
     resultsDiv := resultsDiv w; raw_shown := raw_shown w;
     sessionApiKey := sessionApiKey w; gemini_encrypted := gemini_encrypted w;
     random := random w; requests := requests w; dialogs := dialogs w ++ [d];
     console := console w; clipboard := clipboard w |}.

(** [console.error(err)] *)
Definition console_error (err : exn) (w : Page) : Page :=
  {| apiKeyInput := apiKeyInput w; cityInput := cityInput w; foodInput := foodInput w;
     resultsDiv := resultsDiv w; raw_shown := raw_shown w;
     sessionApiKey := sessionApiKey w; gemini_encrypted := gemini_encrypted w;
     random := random w; requests := requests w; dialogs := dialogs w;
     console := console w ++ [err]; clipboard := clipboard w |}.

Definition set_clipboard (s : jsstring) (w : Page) : Page :=
  {| apiKeyInput := apiKeyInput w; cityInput := cityInput w; foodInput := foodInput w;
     resultsDiv := resultsDiv w; raw_shown := raw_shown w;
     sessionApiKey := sessionApiKey w; gemini_encrypted := gemini_encrypted w;
     random := random w; requests := requests w; dialogs := dialogs w;
     console := console w; clipboard := Some s |}.

(** [alert(message)] *)
Definition alert (message : jsstring) (w : Page) : Page :=
  show_dialog (Alert message) w.

(** [prompt(message)], the user answering [answer]. *)
Definition prompt (message : jsstring) (answer : option jsstring) (w : Page) : Page :=
  show_dialog (Prompt message answer) w.

(** ** Storage helpers *)

Definition storeEncryptedKey (obj : EncryptedObj) (w : Page) : Page :=
  set_gemini_encrypted (Some obj) w.

Definition getEncryptedKey (w : Page) : option EncryptedObj := gemini_encrypted w.

Definition clearStoredKey (w : Page) : Page := set_gemini_encrypted None w.

(** What can happen to the page: the user edits an input or presses a
    button and answers the dialogs that follow. *)
Inductive Event : Type :=
| TypeApiKey (value : jsstring)
| TypeCity (value : jsstring)
| TypeFood (value : jsstring)
| PressSave (answer1 answer2 : option jsstring)
| PressClearKey
| PressSearch (answer : option jsstring)
| PressRetry (answer : option jsstring)
| PressCopyRaw (granted : bool)
| PressClear.

Section Popup.

Variable subtle : SubtleCrypto.
Variable JSON_stringify : jsval -> jsstring.
Variable ToString : jsval -> jsstring.
Variable number_truthy : jsstring -> bool.
Variable exceeds : jsval -> N -> bool.
Variable endpoint : list Request -> Request -> Fetched.

(** The [message] of the errors the platform throws. *)
Variable platform_message : exn -> jsstring.

(** [err.message] *)
Definition message_of (err : exn) : jsstring :=
  match err with
  | Error m => m
  | _ => platform_message err
  end.

(** ** UI actions: Save / Clear Key *)

Definition saveKeyBtn_click (answer1 answer2 : option jsstring) (w : Page) : Page :=
  match trim (apiKeyInput w) with
  | [] => alert (lit "Please enter your Gemini API key before saving.") w
  | key =>
      let w1 := prompt (lit "Create a passphrase to encrypt your API key (you will need this passphrase to decrypt later):") answer1 w in
      match answer1 with
      | None | Some [] => alert (lit "Passphrase is required to encrypt the API key.") w1
      | Some pass1 =>
          let w2 := prompt (lit "Confirm passphrase:") answer2 w1 in
          if match answer2 with
             | Some pass2 => negb (str_eqb pass1 pass2)
             | None => true
             end
          then alert (lit "Passphrases do not match. Aborting save.") w2
          else
            let (encrypted, e) := encryptApiKey subtle key pass1 (random w2) in
            let w3 := set_random e w2 in
            match encrypted with
            | Ok encObj =>
                alert (lit "API key encrypted and saved locally. Remember your passphrase!")
                  (set_apiKeyInput []
                     (set_sessionApiKey (Some key) (storeEncryptedKey encObj w3)))
            | Thrown err =>
                alert (lit "Failed to encrypt/save the key: " ++ message_of err)
                  (console_error err w3)
            end
      end
  end.

Definition clearKeyBtn_click (w : Page) : Page :=
  alert (lit "Stored API key cleared.")
    (set_sessionApiKey None (clearStoredKey w)).

(** ** Helper: show loading spinner text *)

Definition setLoading (message : option jsstring) (w : Page) : Page :=
  let message :=
    match message with
    | Some m => m
    | None => lit "Loading" ++ [c_ellipsis]
    end in
  set_innerHTML
    (tpl "<div class=`about`><span class=`spinner`></span> "
       ++ escapeHtml ToString (Str message) ++ lit "</div>")
    w.

(** ** Render helpers *)

(** [v || d] *)
Definition or_else (v d : jsval) : jsval :=
  if truthy number_truthy v then v else d.

(** The markup of one of the restaurants. *)
Definition restaurant_html (r : jsval) : Outcome jsstring :=
  (r_name <- dot (member "name") r ;;
   let name := escapeHtml ToString (or_else r_name (Str (lit "Unnamed"))) in
   r_address <- dot (member "address") r ;;
   let addr := escapeHtml ToString (or_else r_address (Str [])) in
   r_googleMap <- dot (member "googleMap") r ;;
   let maps := escapeHtml ToString (or_else r_googleMap (Str [])) in
   r_reasons <- dot (member "reasons") r ;;
   let reasons := match r_reasons with Arr l => l | _ => [] end in
   Ok (tpl "<div class=`restaurant`><h3>" ++ name
         ++ tpl "</h3><div class=`address`>" ++ addr ++ lit "</div>"
         ++ match maps with
            | _ :: _ =>
                tpl "<div><a class=`maplink` href=`" ++ maps
                  ++ tpl "` target=`_blank` rel=`noreferrer`>View on Google Maps</a></div>"
            | [] => []
            end
         ++ lit "<ul>"
         ++ flat_map (fun x => lit "<li>" ++ escapeHtml ToString x ++ lit "</li>")
              (firstn 4 reasons)
         ++ lit "</ul></div>"))%outcome.

(** The [forEach] over the restaurants shown. *)
Fixpoint restaurants_html (rs : list jsval) (html : jsstring) : Outcome jsstring :=
  match rs with
  | [] => Ok html
  | r :: rest =>
      (h <- restaurant_html r ;; restaurants_html rest (html ++ h))%outcome
  end.

(** The markup [renderStructured] builds. *)
Definition structured_html (data : jsval) (city food : jsstring) : Outcome jsstring :=
  (foodDescription <- dot (member "foodDescription") data ;;
   let fd := escapeHtml ToString (or_else foodDescription (Str [])) in
   let html :=
     tpl "<div class=`about`><strong>About " ++ escapeHtml ToString (Str food)
       ++ tpl "</strong><div style=`margin-top:6px`>" ++ fd ++ lit "</div></div>" in
   restaurants <- dot (member "restaurants") data ;;
   match restaurants with
   | Arr l => restaurants_html (firstn 2 l) html
   | _ =>
       Ok (html ++ tpl "<div class=`about small`>No restaurants array found in response.</div>")
   end)%outcome.

Definition renderStructured (data : jsval) (city food : jsstring) (w : Page)
  : Outcome Page :=
  (html <- structured_html data city food ;; Ok (set_innerHTML html w))%outcome.

(** The markup of the raw view. *)
Definition raw_html (rawText : jsval) : jsstring :=
  let safe := escapeHtml ToString rawText in
  tpl "<div class=`about`><strong>Raw output (could not parse as JSON)</strong></div><pre class=`raw`>"
    ++ safe ++ tpl "</pre>
    <div style=`margin-top:10px`>
      <button id=`retryBtn`>Retry (ask Gemini to return strict JSON)</button>
      <button id=`copyRawBtn` class=`secondary`>Copy raw</button>
    </div>".

Definition renderRaw (rawText : jsval) (w : Page) : Page :=
  wire_raw_buttons rawText (set_innerHTML (raw_html rawText) w).

(** The markup of a failure. *)
Definition failure_html (label : jsstring) (err : exn) : jsstring :=
  tpl "<div class=`about` style=`color:#b00020`>" ++ label
    ++ escapeHtml ToString (Str (message_of err)) ++ lit "</div>".

(** The suggestions are fetched and shown: the raw view when the result
    has a truthy [__raw], the structured view otherwise.  The page when
    this ends, and the exception thrown if one is. *)
Definition fetch_and_render (city food apiKey : jsstring) (w : Page)
  : Page * option exn :=
  let (result, sent) :=
    fetchRestaurantSuggestions JSON_stringify ToString number_truthy exceeds
      endpoint city food DEFAULT_MODEL apiKey (requests w) in
  let w1 := set_requests sent w in
  match (parsed <- result ;;
         raw <- dot (member "__raw") parsed ;;
         if truthy number_truthy raw then Ok (renderRaw raw w1)
         else renderStructured parsed city food w1)%outcome with
  | Ok w2 => (w2, None)
  | Thrown err => (w1, Some err)
  end.

(** The [try] block of the retry button. *)
Definition retry_try (answer : option jsstring) (w : Page) : Page * option exn :=
  match getEncryptedKey w with
  | None => (w, Some (Error (lit "No stored encrypted API key found.")))
  | Some encryptedObj =>
      let w1 := prompt (lit "Enter passphrase to decrypt your Gemini API key (for retry):")
                  answer w in
      match answer with
      | None | Some [] => (w1, Some (Error (lit "Passphrase required.")))
      | Some pass =>
          match decryptApiKey subtle encryptedObj pass with
          | Thrown err => (w1, Some err)
          | Ok apiKey =>
              let w2 := set_sessionApiKey (Some apiKey) w1 in
              fetch_and_render (trim (cityInput w2)) (trim (foodInput w2)) apiKey w2
          end
      end
  end.

(** The retry button of the raw view; it is on the page only while that
    view is shown. *)
Definition retryBtn_click (answer : option jsstring) (w : Page) : Page :=
  match raw_shown w with
  | None => w
  | Some _ =>
      match retry_try answer
              (setLoading (Some (lit "Retrying with strict JSON prompt" ++ [c_ellipsis])) w)
      with
      | (w', None) => w'
      | (w', Some err) => set_innerHTML (failure_html (lit "Retry failed: ") err) w'
      end
  end.

(** The copy button of the raw view; the alert follows when the clipboard
    accepts the text. *)
Definition copyRawBtn_click (granted : bool) (w : Page) : Page :=
  match raw_shown w with
  | None => w
  | Some rawText =>
      if granted
      then alert (lit "Raw response copied to clipboard.")
             (set_clipboard (interpolate ToString rawText) w)
      else w
  end.

(** ** Main Search button handler *)

Definition searchBtn_click (answer : option jsstring) (w : Page) : Page :=
  let city := trim (cityInput w) in
  let food := trim (foodInput w) in
  match city, food with
  | [], _ | _, [] => alert (lit "Please enter both city and food item.") w
  | _, _ =>
      let run (apiKey : jsstring) (w : Page) : Page :=
        match fetch_and_render city food apiKey
                (setLoading (Some (lit "Querying Gemini for suggestions" ++ [c_ellipsis])) w)
        with
        | (w', None) => w'
        | (w', Some err) => set_innerHTML (failure_html (lit "Error: ") err) w'
        end in
      match sessionApiKey w with
      | Some (c :: k) => run (c :: k) w
      | Some [] | None =>
          match getEncryptedKey w with
          | None => alert (lit "No saved API key found. Please save your key first.") w
          | Some enc =>
              let w1 := prompt (lit "Enter passphrase to decrypt your Gemini API key:")
                          answer w in
              match answer with
              | None | Some [] =>
                  alert (lit "Passphrase required to decrypt API key.") w1
              | Some pass =>
                  match decryptApiKey subtle enc pass with
                  | Ok apiKey => run apiKey (set_sessionApiKey (Some apiKey) w1)
                  | Thrown err =>
                      alert (lit "Failed to decrypt API key: " ++ message_of err) w1
                  end
              end
          end
      end
  end.

(** Clear results *)
Definition clearBtn_click (w : Page) : Page := set_innerHTML [] w.

(** The listener of an event, run from the page it finds to its end with
    no other listener in flight. *)
Definition handle (ev : Event) (w : Page) : Page :=
  match ev with
  | TypeApiKey value => set_apiKeyInput value w
  | TypeCity value => set_cityInput value w
  | TypeFood value => set_foodInput value w
  | PressSave answer1 answer2 => saveKeyBtn_click answer1 answer2 w
  | PressClearKey => clearKeyBtn_click w
  | PressSearch answer => searchBtn_click answer w
  | PressRetry answer => retryBtn_click answer w
  | PressCopyRaw granted => copyRawBtn_click granted w
  | PressClear => clearBtn_click w
  end.

(** The page after a sequence of events, the listener of each run to its
    end before the next event arrives.  A click that arrives while a
    Search, a Retry, a Save or a Clear key is suspended at an [await] is
    not a sequence of this kind. *)
Definition after (evs : list Event) (w : Page) : Page :=
  fold_left (fun w ev => handle ev w) evs w.

End Popup.

(** The popup as it opens: empty inputs, no results, [sessionApiKey] null;
    what was stored, the random source and the logs are given. *)
Definition opened (stored : option EncryptedObj) (e : Entropy) (sent : list Request)
  : Page :=
  {| apiKeyInput := []; cityInput := []; foodInput := [];
     resultsDiv := []; raw_shown := None;
     sessionApiKey := None; gemini_encrypted := stored;
     random := e; requests := sent; dialogs := [];
     console := []; clipboard := None |}.

(** ** Properties of pages *)

(** [s.startsWith(p)] *)
Fixpoint startsWith (p s : jsstring) : bool :=
  match p, s with
  | [], _ => true
  | x :: p', y :: s' => (x =? y) && startsWith p' s'
  | _ :: _, [] => false
  end.

(** The results show the loading spinner. *)
Definition spinner_shown (w : Page) : bool :=
  startsWith (tpl "<div class=`about`><span class=`spinner`>") (resultsDiv w).

(** A cached key has a stored object behind it. *)
Definition cache_backed (w : Page) : Prop :=
  sessionApiKey w <> None -> gemini_encrypted w <> None.

(** A request to the generation endpoint of the default model. *)
Definition to_endpoint (req : Request) : Prop :=
  method req = lit "POST"
  /\ exists key,
       url req = lit "https://generativelanguage.googleapis.com/v1beta/models/gemini-2.0-flash:generateContent?key=" ++ key.

(** The number of tags a markup opens or closes. *)
Definition tags (html : jsstring) : nat := count_occ N.eq_dec html 60.


(** The data cannot be rendered: it is [null] or [undefined], or one of
    the first two of its restaurants is. *)
Definition unreadable (data : jsval) : bool :=
  nullish data
  || match member "restaurants" data with
     | Arr l => existsb nullish (firstn 2 l)
     | _ => false
     end.

(** The event is a click on Save. *)
Definition is_save (ev : Event) : bool :=
  match ev with
  | PressSave _ _ => true
  | _ => false
  end.

(** ** More texts, objects and pages for the examples *)

(** A valid object whose string value holds two escaped quotes around a
    closing and an opening brace: the member [a] is the four-character
    string quote, closing brace, opening brace, quote. *)
Definition escaped_braces_object : jsstring := tpl "{`a`:`\`}{\``}".

(** The envelope of a reply whose first candidate holds the text [hello]
    in [content.parts[0].text] and another text in [text]. *)
Definition two_shape_envelope : list (jsstring * jsval) :=
  [(lit "candidates",
    Arr [Obj [(lit "content",
               Obj [(lit "parts", Arr [Obj [(lit "text", Str (lit "hello"))]])]);
              (lit "text", Str (lit "other"))]])].

(** The same with [null] as the first part. *)
Definition null_part_envelope : list (jsstring * jsval) :=
  [(lit "candidates",
    Arr [Obj [(lit "content", Obj [(lit "parts", Arr [Null])]);
              (lit "text", Str (lit "other"))]])].

(** What the example key gives when it is encrypted under the example
    passphrase by the test double. *)
Definition example_encrypted : EncryptedObj :=
  match fst (encryptApiKey Mock.subtle example_key example_passphrase Mock.entropy) with
  | Ok obj => obj
  | Thrown _ => {| ciphertext := []; iv := []; salt := [] |}
  end.

(** The same with an exclamation mark put before its salt. *)
Definition damaged_encrypted : EncryptedObj :=
  {| ciphertext := ciphertext example_encrypted;
     iv := iv example_encrypted;
     salt := 33 :: salt example_encrypted |}.

(** Data with one restaurant that has a name, a map link and six reasons,
    and data whose second restaurant is [null]. *)
Definition example_data : jsval :=
  Obj [(lit "foodDescription", Str (lit "Apricot dessert <sweet>"));
       (lit "restaurants",
        Arr [Obj [(lit "name", Str (lit "Cafe & Co"));
                  (lit "googleMap", Str (lit "https://maps.google.com/?q=1"));
                  (lit "reasons",
                   Arr [Str (lit "a"); Str (lit "b"); Str (lit "c");
                        Str (lit "d"); Str (lit "e"); Str (lit "f")])]])].

Definition null_entry_data : jsval :=
  Obj [(lit "restaurants", Arr [Obj []; Null; Obj []])].

(** The message of the platform's errors, for the examples. *)
Definition example_message (err : exn) : jsstring := lit "operation failed".

(** The popup just opened on an empty store, with a key typed between
    spaces and a city and a food filled in; the same with nothing but
    spaces as the key; the same with nothing but spaces as the city. *)
Definition example_page : Page :=
  set_foodInput (lit "Qubani ka Meetha")
    (set_cityInput (lit " Hyderabad ")
       (set_apiKeyInput (lit "  AIzaSyExample-Key_0123456789 ")
          (opened None Mock.entropy []))).

(** The example page once Save was pressed and the passphrase [correct
    horse] given twice: the key is stored and cached. *)
Definition saved_page : Page :=
  saveKeyBtn_click Mock.subtle example_message
    (Some example_passphrase) (Some example_passphrase) example_page.

Definition blank_key_page : Page := set_apiKeyInput (lit "   ") example_page.

Definition blank_city_page : Page := set_cityInput (lit "  ") example_page.

(** A search whose first reply is prose and whose second reply holds an
    object. *)
Definition two_attempts : Outcome jsval * list Request :=
  Scripted.search [Scripted.reply (lit "prose"); Scripted.reply (tpl "{`note`:[]}")].

(** ** Spans the scanner passes over *)

(** A span that the loop of [extractFirstJson] passes over at a depth of at
    least one, outside a string, without proposing a candidate, and leaves
    at the same depth and outside a string. *)
Definition neutral (u : jsstring) : Prop :=
  forall whole start rest i depth,
    (1 <= depth)%Z ->
    scan whole start (u ++ rest) i depth false false
    = scan whole start rest (i + List.length u) depth false false.

(** A character the scanner treats as any other: no quote, no brace. *)
Definition inert (c : code_unit) : Prop :=
  c <> c_quote /\ c <> c_lbrace /\ c <> c_rbrace.

(** The text of the object whose one member [a] is the string [value],
    written as the object of the brace-in-string test is. *)
Definition object_with_string (value : jsstring) : jsstring :=
  lit "{" ++ quoted (lit "a") ++ lit ": " ++ quoted value ++ lit "}".

(** A character that stands for itself in a JSON string literal. *)
Definition literal_unit (c : code_unit) : Prop :=
  c <> c_quote /\ c <> c_backslash /\ 32 <= c.

(** No string literal of the JSON text [s] holds an escaped quote.  The
    text is read as JSON reads it, a backslash inside a string literal
    taking the character after it; [inString] tells whether [s] begins
    inside a string literal. *)
Fixpoint no_escaped_quote (inString : bool) (s : jsstring) : bool :=
  match s with
  | [] => true
  | c :: r =>
      if inString then
        if c =? c_backslash then
          match r with
          | e :: r' => negb (e =? c_quote) && no_escaped_quote true r'
          | [] => true
          end
        else no_escaped_quote (negb (c =? c_quote)) r
      else no_escaped_quote (c =? c_quote) r
  end.

(** The first opening brace of the text [t] opens the JSON text [object],
    which parses to [v] and has no escaped quote in its strings. *)
Definition opens_with_object (t : jsval) (object : jsstring) (v : jsval) : Prop :=
  exists pre body post,
    t = Str (pre ++ object ++ post)
    /\ indexOf c_lbrace pre = None
    /\ object = c_lbrace :: body ++ [c_rbrace]
    /\ no_escaped_quote false object = true
    /\ Json.parse object = Ok v.

(** ** Passphrases as HMAC keys *)

Section KeyMaterial.

(** The hash function of the key derivation, SHA-256. *)
Variable digest : bytes -> bytes.

(** The key HMAC works with (RFC 2104): key material longer than the
    64-byte block of SHA-256 is replaced by its digest, and the key is
    padded with zero bytes to the length of the block.  PBKDF2 uses the
    password as the HMAC key of every iteration, and reads no more of it
    than this. *)
Definition hmac_key (material : bytes) : bytes :=
  let key := if (64 <? List.length material)%nat then digest material else material in
  key ++ repeat x00 (64 - List.length key).


(** PBKDF2 derives one key from key materials that are one HMAC key. *)
Definition derives_by_hmac_key (subtle : SubtleCrypto) : Prop :=
  forall params target m m',
    hmac_key m' = hmac_key m ->
    deriveKey subtle params (importKey subtle m') target
    = deriveKey subtle params (importKey subtle m) target.

End KeyMaterial.

(** A second test double for [crypto.subtle], which keeps the keys apart:
    an imported key is the HMAC key of the material, a derived key is the
    salt followed by the base key, and a ciphertext is the key, written
    with a mark before each byte and a zero byte after the last, followed
    by the plaintext. *)
Module Tagged.

(** A stand-in for SHA-256. *)
Definition digest (material : bytes) : bytes := [byte_of_N (Mock.checksum material)].

Definition tag (key : bytes) : bytes :=
  flat_map (fun b => [x01; b]) key ++ [x00].

(** The key a ciphertext was written with, and the plaintext. *)
Fixpoint untag (data : bytes) : option (bytes * bytes) :=
  match data with
  | [] => None
  | m :: r =>
      if Byte.eqb m x00 then Some ([], r)
      else match r with
           | b :: r' =>
               match untag r' with
               | Some (key, plain) => Some (b :: key, plain)
               | None => None
               end
           | [] => None
           end
  end.

Definition subtle : SubtleCrypto :=
  {| CryptoKey := bytes;
     importKey := fun material => hmac_key digest material;
     deriveKey := fun params base derived => Alg.salt params ++ base;
     encrypt := fun params key data => tag key ++ data;
     decrypt := fun params key data =>
       match untag data with
       | Some (key', plain) =>
           if list_eq_dec Byte.byte_eq_dec key' key then Some plain else None
       | None => None
       end |}.

End Tagged.


(** ** [JSON.parse] and its fuel *)

Section JsonFuel.

Import Json.

Lemma skip_ws_length s : (List.length (skip_ws s) <= List.length s)%nat.
Proof.
  induction s as [|c s IH]; cbn [skip_ws]; [lia|].
  destruct (is_ws c); cbn [List.length]; lia.
Qed.

Lemma skip_ws_cons s c r :
  skip_ws s = c :: r -> (List.length r < List.length s)%nat.
Proof. intros H. pose proof (skip_ws_length s) as L. rewrite H in L. cbn in L. lia. Qed.

Lemma parse_string_body_length_aux n :
  forall s, (List.length s <= n)%nat ->
  forall acc str r, parse_string_body s acc = Some (str, r) ->
    (List.length r < List.length s)%nat.
Proof.
  induction n as [|n IH]; intros s Hn acc str r H.
  { destruct s; [discriminate|cbn in Hn; lia]. }
  destruct s as [|c s]; [discriminate|].
  cbn [parse_string_body] in H. cbn [List.length] in *.
  destruct (c =? c_quote).
  { injection H as _ <-. lia. }
  destruct (c =? c_backslash).
  - destruct s as [|e s]; [discriminate|]. cbn [List.length] in *.
    assert (Hs : forall a, parse_string_body s a = Some (str, r) ->
                 (List.length r < S (S (List.length s)))%nat).
    { intros a Ha. apply IH in Ha; lia. }
    repeat match type of H with
    | (if ?x then _ else _) = _ => destruct x; [eapply Hs; exact H|]
    end.
    destruct (e =? 117); [|discriminate].
    destruct s as [|h1 [|h2 [|h3 [|h4 s]]]]; try discriminate.
    destruct (hex4 h1 h2 h3 h4); [|discriminate].
    apply IH in H; cbn [List.length] in *; lia.
  - destruct (c <? 32); [discriminate|].
    apply IH in H; lia.
Qed.

Lemma parse_string_body_length s acc str r :
  parse_string_body s acc = Some (str, r) -> (List.length r < List.length s)%nat.
Proof. apply (@parse_string_body_length_aux (List.length s)). lia. Qed.

Lemma span_digits_length s d r :
  span_digits s = (d, r) -> (List.length r <= List.length s)%nat.
Proof.
  revert d r; induction s as [|c s IH]; intros d r H; cbn [span_digits] in H.
  - injection H as _ <-. lia.
  - destruct (is_digit c).
    + destruct (span_digits s) as [d' r'] eqn:E. injection H as _ <-.
      specialize (IH _ _ eq_refl). cbn. lia.
    + injection H as _ <-. lia.
Qed.

(** Split the hypotheses on the scrutinees of their matches. *)
Ltac break_all :=
  repeat match goal with
  | H : Some _ = Some _ |- _ => injection H as ?; subst
  | H : (_, _) = (_, _) |- _ => injection H as ? ?; subst
  | H : None = Some _ |- _ => discriminate H
  | H : context [span_digits ?x] |- _ =>
      let E := fresh "E" in
      destruct (span_digits x) as [? ?] eqn:E; apply span_digits_length in E
  | H : context [match ?x with _ => _ end] |- _ =>
      first [ is_var x; destruct x | destruct x eqn:? ]
  end.

Lemma parse_int_length s i r :
  parse_int s = Some (i, r) -> (List.length r < List.length s)%nat.
Proof. unfold parse_int. intros H. break_all; cbn [List.length] in *; lia. Qed.

Lemma parse_frac_length s i r :
  parse_frac s = Some (i, r) -> (List.length r <= List.length s)%nat.
Proof. unfold parse_frac. intros H. break_all; cbn [List.length] in *; lia. Qed.

Lemma parse_exp_length s i r :
  parse_exp s = Some (i, r) -> (List.length r <= List.length s)%nat.
Proof. unfold parse_exp. intros H. break_all; cbn [List.length] in *; lia. Qed.

Lemma parse_number_length s n r :
  parse_number s = Some (n, r) -> (List.length r < List.length s)%nat.
Proof.
  unfold parse_number. intros H.
  destruct (match s with
            | [] => ([], s)
            | c :: r0 => if c =? c_minus then ([c], r0) else ([], s)
            end) as [sign s1] eqn:Es.
  assert (Hs1 : (List.length s1 <= List.length s)%nat).
  { destruct s as [|c s']; [injection Es as _ <-; lia|].
    destruct (c =? c_minus); injection Es as _ <-; cbn; lia. }
  destruct (parse_int s1) as [[i s2]|] eqn:Ei; [|discriminate].
  destruct (parse_frac s2) as [[f s3]|] eqn:Ef; [|discriminate].
  destruct (parse_exp s3) as [[e s4]|] eqn:Ee; [|discriminate].
  injection H as _ <-.
  apply parse_int_length in Ei. apply parse_frac_length in Ef.
  apply parse_exp_length in Ee. lia.
Qed.

Lemma strip_prefix_length k : forall s r,
  strip_prefix k s = Some r -> (List.length r + List.length k = List.length s)%nat.
Proof.
  induction k as [|x k IH]; intros s r H; cbn [strip_prefix] in H.
  - injection H as <-. cbn. lia.
  - destruct s as [|y s]; [discriminate|]. destruct (x =? y); [|discriminate].
    apply IH in H. cbn. lia.
Qed.

(** Split a hypothesis on the scrutinees of its nested matches, outermost
    first, keeping an equation for each. *)
Ltac dig H :=
  repeat match type of H with
  | match ?x with _ => _ end = _ =>
      first [ is_var x; destruct x | destruct x eqn:? ]; try discriminate H
  end.

(** Turn the equations of the context into facts on lengths. *)
Ltac lengths :=
  repeat match goal with
  | E : skip_ws _ = _ :: _ |- _ => apply skip_ws_cons in E
  | E : parse_string_body _ _ = Some _ |- _ => apply parse_string_body_length in E
  | E : parse_number _ = Some _ |- _ => apply parse_number_length in E
  | E : strip_prefix (lit ?k) _ = Some _ |- _ =>
      apply strip_prefix_length in E;
      let n := eval vm_compute in (List.length (lit k)) in
      change (List.length (lit k)) with n in E
  end.

Lemma parse_consumes f :
  (forall s v r, parse_value f s = Some (v, r) ->
     (List.length r < List.length s)%nat)
  /\ (forall s vs r, parse_elements f s = Some (vs, r) ->
     (List.length r < List.length s)%nat)
  /\ (forall s ms r, parse_members f s = Some (ms, r) ->
     (List.length r < List.length s)%nat).
Proof.
  induction f as [|f [IHv [IHe IHm]]]; [repeat split; discriminate|].
  split; [|split]; intros s x r H.
  - cbn [parse_value] in H. dig H; injection H as _ <-;
      repeat match goal with
      | E : parse_members f _ = Some _ |- _ => apply IHm in E
      | E : parse_elements f _ = Some _ |- _ => apply IHe in E
      end; lengths; cbn [List.length] in *; lia.
  - cbn [parse_elements] in H. dig H; injection H as _ <-;
      repeat match goal with
      | E : parse_value f _ = Some _ |- _ => apply IHv in E
      | E : parse_elements f _ = Some _ |- _ => apply IHe in E
      end; lengths; cbn [List.length] in *; lia.
  - cbn [parse_members] in H. dig H; injection H as _ <-;
      repeat match goal with
      | E : parse_value f _ = Some _ |- _ => apply IHv in E
      | E : parse_members f _ = Some _ |- _ => apply IHm in E
      end; lengths; cbn [List.length] in *; lia.
Qed.

Lemma parse_fuel_step f :
  (forall s x, parse_value f s = Some x -> parse_value (S f) s = Some x)
  /\ (forall s x, parse_elements f s = Some x -> parse_elements (S f) s = Some x)
  /\ (forall s x, parse_members f s = Some x -> parse_members (S f) s = Some x).
Proof.
  induction f as [|f [IHv [IHe IHm]]]; [repeat split; discriminate|].
  split; [|split]; intros s x H.
  - cbn [parse_value] in H. set (g := S f). cbn [parse_value]. subst g. dig H;
      injection H as <-;
      repeat match goal with
      | E : parse_members f _ = Some _ |- _ => apply IHm in E
      | E : parse_elements f _ = Some _ |- _ => apply IHe in E
      end;
      repeat match goal with
      | E : ?l = _ |- context [?l] => rewrite E
      end; reflexivity.
  - cbn [parse_elements] in H. set (g := S f). cbn [parse_elements]. subst g.
    dig H; injection H as <-;
      repeat match goal with
      | E : parse_value f _ = Some _ |- _ => apply IHv in E
      | E : parse_elements f _ = Some _ |- _ => apply IHe in E
      end;
      repeat match goal with
      | E : ?l = _ |- context [?l] => rewrite E
      end; reflexivity.
  - cbn [parse_members] in H. set (g := S f). cbn [parse_members]. subst g.
    dig H; injection H as <-;
      repeat match goal with
      | E : parse_value f _ = Some _ |- _ => apply IHv in E
      | E : parse_members f _ = Some _ |- _ => apply IHm in E
      end;
      repeat match goal with
      | E : ?l = _ |- context [?l] => rewrite E
      end; reflexivity.
Qed.

Lemma parse_fuel_mono f f' :
  (f <= f')%nat ->
  (forall s x, parse_value f s = Some x -> parse_value f' s = Some x)
  /\ (forall s x, parse_elements f s = Some x -> parse_elements f' s = Some x)
  /\ (forall s x, parse_members f s = Some x -> parse_members f' s = Some x).
Proof.
  induction 1 as [|f' _ [IHv [IHe IHm]]]; [auto|].
  destruct (parse_fuel_step f') as [Sv [Se Sm]].
  repeat split; intros s x H; auto.
Qed.

(** Record, once, what each equation of the context says of lengths. *)
Ltac length_facts :=
  repeat match goal with
  | E : skip_ws ?s = _ :: ?r |- _ =>
      lazymatch goal with
      | _ : (List.length r < List.length s)%nat |- _ => fail
      | _ => pose proof (@skip_ws_cons _ _ _ E)
      end
  | E : parse_string_body ?s _ = Some (_, ?r) |- _ =>
      lazymatch goal with
      | _ : (List.length r < List.length s)%nat |- _ => fail
      | _ => pose proof (@parse_string_body_length _ _ _ _ E)
      end
  | E : parse_value ?f ?s = Some (_, ?r) |- _ =>
      lazymatch goal with
      | _ : (List.length r < List.length s)%nat |- _ => fail
      | _ => pose proof (proj1 (parse_consumes f) _ _ _ E)
      end
  | E : parse_elements ?f ?s = Some (_, ?r) |- _ =>
      lazymatch goal with
      | _ : (List.length r < List.length s)%nat |- _ => fail
      | _ => pose proof (proj1 (proj2 (parse_consumes f)) _ _ _ E)
      end
  | E : parse_members ?f ?s = Some (_, ?r) |- _ =>
      lazymatch goal with
      | _ : (List.length r < List.length s)%nat |- _ => fail
      | _ => pose proof (proj2 (proj2 (parse_consumes f)) _ _ _ E)
      end
  end.

(** Bring the equations on recursive calls to the fuel [g] of the goal. *)
Ltac refuel g IHv IHe IHm :=
  repeat match goal with
  | E : parse_value ?f0 ?t = Some _ |- _ =>
      lazymatch f0 with g => fail | _ => idtac end;
      apply IHv in E;
      apply (proj1 (@parse_fuel_mono (2 * List.length t + 1) g
               ltac:(cbn [List.length] in *; lia))) in E
  | E : parse_elements ?f0 ?t = Some _ |- _ =>
      lazymatch f0 with g => fail | _ => idtac end;
      apply IHe in E;
      apply (proj1 (proj2 (@parse_fuel_mono (2 * List.length t + 2) g
               ltac:(cbn [List.length] in *; lia)))) in E
  | E : parse_members ?f0 ?t = Some _ |- _ =>
      lazymatch f0 with g => fail | _ => idtac end;
      apply IHm in E;
      apply (proj2 (proj2 (@parse_fuel_mono (2 * List.length t) g
               ltac:(cbn [List.length] in *; lia)))) in E
  end.

(** Rewrite the goal with the equations of the context. *)
Ltac rewrite_equations :=
  repeat match goal with
  | E : ?l = _ |- context [?l] => tryif is_var l then fail else rewrite E
  end.

Lemma parse_fuel_enough f :
  (forall s x, parse_value f s = Some x ->
     parse_value (2 * List.length s + 1) s = Some x)
  /\ (forall s x, parse_elements f s = Some x ->
     parse_elements (2 * List.length s + 2) s = Some x)
  /\ (forall s x, parse_members f s = Some x ->
     parse_members (2 * List.length s) s = Some x).
Proof.
  induction f as [|f [IHv [IHe IHm]]]; [repeat split; discriminate|].
  split; [|split]; intros s x H.
  - cbn [parse_value] in H. dig H; injection H as <-; length_facts;
      replace (2 * List.length s + 1)%nat with (S (2 * List.length s)) by lia;
      remember (2 * List.length s)%nat as g eqn:Hg;
      cbn [parse_value]; refuel g IHv IHe IHm; rewrite_equations; reflexivity.
  - cbn [parse_elements] in H. dig H; injection H as <-; length_facts;
      replace (2 * List.length s + 2)%nat with (S (2 * List.length s + 1)) by lia;
      remember (2 * List.length s + 1)%nat as g eqn:Hg;
      cbn [parse_elements]; refuel g IHv IHe IHm; rewrite_equations; reflexivity.
  - cbn [parse_members] in H. dig H; injection H as <-; length_facts;
      replace (2 * List.length s)%nat with (S (2 * List.length s - 1)) by lia;
      remember (2 * List.length s - 1)%nat as g eqn:Hg;
      cbn [parse_members]; refuel g IHv IHe IHm; rewrite_equations; reflexivity.
Qed.

(** [JSON.parse] never fails for lack of fuel: it accepts a text exactly
    when some amount of fuel lets [parse_value] read one value up to the
    trailing white space. *)
Lemma parse_fuel_independent (text : jsstring) (v : jsval) :
  Json.parse text = Ok v
  <-> exists fuel r, parse_value fuel text = Some (v, r) /\ skip_ws r = [].
Proof.
  unfold Json.parse. split.
  - intros H. destruct (parse_value _ text) as [[v' r]|] eqn:E; [|discriminate].
    destruct (skip_ws r) eqn:Er; [|discriminate].
    injection H as ->. eauto.
  - intros [fuel [r [E Er]]].
    apply (proj1 (parse_fuel_enough fuel)) in E.
    apply (proj1 (@parse_fuel_mono (2 * List.length text + 1)
                   (2 * List.length text + 2) ltac:(lia))) in E.
    rewrite E, Er. reflexivity.
Qed.

End JsonFuel.

(** ** Properties of the extraction primitive *)

Section Extraction.

Lemma str_eqb_spec (a b : jsstring) : str_eqb a b = true <-> a = b.
Proof.
  revert b; induction a as [|x a IH]; intros [|y b]; simpl; split;
    try congruence; try reflexivity.
  - intros H. apply andb_true_iff in H as [H1 H2].
    apply N.eqb_eq in H1. apply IH in H2. congruence.
  - intros H. injection H as -> ->. rewrite N.eqb_refl. simpl.
    apply IH. reflexivity.
Qed.

Lemma escape_literal_never_matches (ch : code_unit) :
  str_eqb [ch] escape_literal = false.
Proof. unfold escape_literal. simpl. apply andb_false_r. Qed.

Lemma scan_first_parsed whole start rest :
  forall i depth inString escape,
    scan whole start rest i depth inString escape
    = first_parsed (candidates whole start rest i depth inString escape).
Proof.
  induction rest as [|ch rest IH]; intros i depth inString escape.
  - reflexivity.
  - cbn [scan candidates].
    destruct escape; [apply IH|].
    destruct (str_eqb [ch] escape_literal); [apply IH|].
    destruct (ch =? c_quote); [apply IH|].
    destruct inString; [apply IH|].
    cbv zeta.
    destruct (ch =? c_rbrace); [|apply IH].
    destruct (_ =? 0)%Z; [|apply IH].
    cbn [first_parsed].
    destruct (Json.parse _); [reflexivity|apply IH].
Qed.

Lemma first_parsed_none cs :
  (forall c, In c cs -> Json.parse c = Thrown SyntaxError) -> first_parsed cs = None.
Proof.
  induction cs as [|c cs IH]; intros H; [reflexivity|].
  cbn [first_parsed]. rewrite (H c (or_introl eq_refl)).
  apply IH. intros c' Hc'. apply H. right. exact Hc'.
Qed.

Lemma first_parsed_some cs r :
  first_parsed cs = Some r ->
  In (text r) cs /\ Json.parse (text r) = Ok (parsed r).
Proof.
  induction cs as [|c cs IH]; [discriminate|].
  cbn [first_parsed]. destruct (Json.parse c) as [v|err] eqn:E.
  - intros H. injection H as <-. cbn. split; [left; reflexivity|exact E].
  - intros H. destruct (IH H) as [Hin Hp]. split; [right; exact Hin|exact Hp].
Qed.

Lemma candidates_anchored whole start rest :
  forall i depth inString escape c,
    In c (candidates whole start rest i depth inString escape) ->
    exists j, (i <= j < i + List.length rest)%nat
              /\ c = slice start (j + 1) whole.
Proof.
  induction rest as [|ch rest IH]; intros i depth inString escape c.
  - intros [].
  - cbn [candidates List.length].
    assert (Hstep : forall d s e,
      In c (candidates whole start rest (S i) d s e) ->
      exists j, (i <= j < i + S (List.length rest))%nat
                /\ c = slice start (j + 1) whole).
    { intros d s e H. destruct (IH _ _ _ _ _ H) as [j [Hj Hc]].
      exists j. split; [lia|exact Hc]. }
    destruct escape; [apply Hstep|].
    destruct (str_eqb [ch] escape_literal); [apply Hstep|].
    destruct (ch =? c_quote); [apply Hstep|].
    destruct inString; [apply Hstep|].
    cbv zeta.
    destruct (ch =? c_rbrace); [|apply Hstep].
    destruct (_ =? 0)%Z; [|apply Hstep].
    intros [<-|H]; [|eapply Hstep; exact H].
    exists i. split; [lia|reflexivity].
Qed.

Lemma extractFirstJson_candidates (s : jsstring) :
  extractFirstJson (Str s) = first_parsed (candidate_slices s).
Proof.
  unfold extractFirstJson, candidate_slices.
  destruct s as [|c s]; [reflexivity|].
  destruct (indexOf c_lbrace (c :: s)); [apply scan_first_parsed|reflexivity].
Qed.

Lemma indexOf_bound c s i : indexOf c s = Some i -> (i < List.length s)%nat.
Proof.
  revert i; induction s as [|x s IH]; intros i; simpl; [discriminate|].
  destruct (x =? c).
  - intros H; injection H as <-. lia.
  - destruct (indexOf c s) as [k|]; [|discriminate].
    intros H; injection H as <-. specialize (IH k eq_refl). lia.
Qed.

Lemma indexOf_none c s : indexOf c s = None <-> ~ In c s.
Proof.
  induction s as [|x s IH]; simpl.
  - split; [intros _ []|reflexivity].
  - destruct (N.eqb_spec x c) as [->|Hne].
    + split; [discriminate|]. intros H. exfalso. apply H. left. reflexivity.
    + destruct (indexOf c s).
      * split; [discriminate|]. intros H. exfalso.
        destruct IH as [_ IH]. 
        assert (~ In c s -> False) by (intros K; specialize (IH K); discriminate).
        apply H0. intros K. apply H. right. exact K.
      * split; [|reflexivity]. intros _ [E|K]; [congruence|].
        destruct IH as [IH _]. exact (IH eq_refl K).
Qed.

Lemma indexOf_app_fresh c pre s :
  indexOf c pre = None ->
  indexOf c (pre ++ c :: s) = Some (List.length pre).
Proof.
  induction pre as [|x pre IH]; simpl.
  - intros _. rewrite N.eqb_refl. reflexivity.
  - destruct (x =? c); [discriminate|].
    destruct (indexOf c pre); [discriminate|].
    intros _. rewrite IH; reflexivity.
Qed.

Lemma slice_app_exact (pre mid post : jsstring) :
  slice (List.length pre) (List.length pre + List.length mid) (pre ++ mid ++ post)
  = mid.
Proof.
  unfold slice. rewrite skipn_app, skipn_all, Nat.sub_diag. cbn.
  replace (_ + _ - _)%nat with (List.length mid + 0)%nat by lia.
  rewrite firstn_app_2. cbn. apply app_nil_r.
Qed.

Lemma indexOf_nth c s i : indexOf c s = Some i -> nth_error s i = Some c.
Proof.
  revert i; induction s as [|x s IH]; intros i; cbn [indexOf]; [discriminate|].
  destruct (N.eqb_spec x c) as [->|_].
  - intros H; injection H as <-. reflexivity.
  - destruct (indexOf c s) as [k|]; [|discriminate].
    intros H; injection H as <-. cbn. apply IH. reflexivity.
Qed.

(** Every candidate ends at a closing brace of the text. *)
Lemma candidates_end_at_brace whole start rest :
  forall i depth inString escape c,
    rest = skipn i whole ->
    In c (candidates whole start rest i depth inString escape) ->
    exists j, (i <= j)%nat /\ nth_error whole j = Some c_rbrace
              /\ c = slice start (j + 1) whole.
Proof.
  induction rest as [|ch rest IH]; intros i depth inString escape c Hrest.
  - intros [].
  - cbn [candidates].
    assert (Hnext : rest = skipn (S i) whole).
    { replace (S i) with (1 + i)%nat by lia.
      rewrite <- skipn_skipn, <- Hrest. reflexivity. }
    assert (Hch : nth_error whole i = Some ch).
    { rewrite <- (Nat.add_0_r i), <- nth_error_skipn, <- Hrest. reflexivity. }
    assert (Hstep : forall d s e,
      In c (candidates whole start rest (S i) d s e) ->
      exists j, (i <= j)%nat /\ nth_error whole j = Some c_rbrace
                /\ c = slice start (j + 1) whole).
    { intros d s e H. destruct (IH _ _ _ _ _ Hnext H) as [j [Hj Hc]].
      exists j. split; [lia|exact Hc]. }
    destruct escape; [apply Hstep|].
    destruct (str_eqb [ch] escape_literal); [apply Hstep|].
    destruct (ch =? c_quote); [apply Hstep|].
    destruct inString; [apply Hstep|].
    cbv zeta.
    destruct (N.eqb_spec ch c_rbrace) as [->|_]; [|apply Hstep].
    destruct (_ =? 0)%Z; [|apply Hstep].
    intros [<-|H]; [|eapply Hstep; exact H].
    exists i. split; [lia|]. split; [exact Hch|reflexivity].
Qed.

End Extraction.

(** ** The scanner on JSON texts without escaped quote *)

Section ScannerOnJson.

Import Json.

Lemma scan_inert whole start rest i depth c :
  inert c ->
  scan whole start (c :: rest) i depth false false
  = scan whole start rest (S i) depth false false.
Proof.
  intros [Hq [Hl Hr]]. cbn [scan]. rewrite escape_literal_never_matches.
  apply N.eqb_neq in Hq, Hl, Hr. rewrite Hq, Hl, Hr. reflexivity.
Qed.

Lemma neutral_nil : neutral [].
Proof. intros whole start rest i depth _. cbn. rewrite Nat.add_0_r. reflexivity. Qed.

Lemma neutral_app u v : neutral u -> neutral v -> neutral (u ++ v).
Proof.
  intros Hu Hv whole start rest i depth Hd.
  rewrite <- app_assoc, (Hu whole start _ i depth Hd), (Hv whole start rest _ depth Hd), length_app, Nat.add_assoc.
  reflexivity.
Qed.

Lemma neutral_inert c : inert c -> neutral [c].
Proof.
  intros Hc whole start rest i depth _. cbn [app List.length].
  rewrite (@scan_inert whole start rest i depth c Hc), Nat.add_1_r. reflexivity.
Qed.

Lemma neutral_cons c u : inert c -> neutral u -> neutral (c :: u).
Proof. intros Hc Hu. apply (@neutral_app [c] u); [apply neutral_inert, Hc|exact Hu]. Qed.

Lemma neutral_snoc u c : neutral u -> inert c -> neutral (u ++ [c]).
Proof. intros Hu Hc. apply neutral_app; [exact Hu|apply neutral_inert, Hc]. Qed.

Lemma neutral_all_inert u : Forall inert u -> neutral u.
Proof.
  induction 1 as [|c u Hc _ IH]; [apply neutral_nil|apply neutral_cons; assumption].
Qed.

(** Inside a string the scanner passes over everything but a quote. *)
Lemma scan_in_string whole start body :
  ~ In c_quote body ->
  forall rest i depth,
    scan whole start (body ++ rest) i depth true false
    = scan whole start rest (i + List.length body) depth true false.
Proof.
  induction body as [|c body IH]; intros Hq rest i depth.
  - cbn. rewrite Nat.add_0_r. reflexivity.
  - cbn [app scan List.length]. rewrite escape_literal_never_matches.
    assert (Hc : (c =? c_quote) = false).
    { apply N.eqb_neq. intros ->. apply Hq. left. reflexivity. }
    rewrite Hc, IH by (intros H; apply Hq; right; exact H).
    f_equal. lia.
Qed.

(** A string literal without a quote between its quotes. *)
Lemma neutral_string body :
  ~ In c_quote body -> neutral (c_quote :: body ++ [c_quote]).
Proof.
  intros Hq whole start rest i depth _.
  cbn [app scan List.length]. rewrite escape_literal_never_matches.
  rewrite N.eqb_refl. cbn [negb].
  rewrite <- app_assoc, (@scan_in_string whole start body Hq). cbn [app scan].
  rewrite escape_literal_never_matches, N.eqb_refl. cbn [negb].
  f_equal. rewrite length_app. cbn [List.length]. lia.
Qed.

(** Braces around a neutral span. *)
Lemma neutral_braces inner :
  neutral inner -> neutral (c_lbrace :: inner ++ [c_rbrace]).
Proof.
  intros Hin whole start rest i depth Hd.
  cbn [app scan List.length]. rewrite escape_literal_never_matches.
  change (c_lbrace =? c_quote) with false. cbv iota zeta.
  change (c_lbrace =? c_lbrace) with true. change (c_lbrace =? c_rbrace) with false.
  cbv iota.
  rewrite <- app_assoc, (Hin whole start _ (S i) (depth + 1)%Z ltac:(lia)). cbn [app scan].
  rewrite escape_literal_never_matches.
  change (c_rbrace =? c_quote) with false. cbv iota zeta.
  change (c_rbrace =? c_lbrace) with false. change (c_rbrace =? c_rbrace) with true.
  cbv iota.
  replace (depth + 1 - 1)%Z with depth by lia.
  destruct (Z.eqb_spec depth 0) as [E|_]; [lia|].
  f_equal. rewrite length_app. cbn [List.length]. lia.
Qed.

(** *** What the parser consumes *)

Lemma inert_ws c : is_ws c = true -> inert c.
Proof.
  unfold is_ws, inert, c_quote, c_lbrace, c_rbrace. intros H.
  repeat split; intros ->; discriminate H.
Qed.

Lemma inert_digit c : is_digit c = true -> inert c.
Proof.
  unfold is_digit, inert, c_quote, c_lbrace, c_rbrace. intros H.
  repeat split; intros ->; discriminate H.
Qed.

Lemma skip_ws_split s : exists ws, s = ws ++ skip_ws s /\ Forall inert ws.
Proof.
  induction s as [|c s [ws [Hs Hws]]]; [exists []; split; [reflexivity|constructor]|].
  cbn [skip_ws]. destruct (is_ws c) eqn:Hc.
  - exists (c :: ws). split; [cbn [app]; f_equal; exact Hs|].
    constructor; [apply inert_ws, Hc|exact Hws].
  - exists []. split; [reflexivity|constructor].
Qed.

Lemma skip_ws_nil_all s : skip_ws s = [] -> Forall (fun c => is_ws c = true) s.
Proof.
  induction s as [|c s IH]; [constructor|]. cbn [skip_ws].
  destruct (is_ws c) eqn:Hc; [|discriminate].
  intros H. constructor; [exact Hc|apply IH, H].
Qed.

(** *** The reading of escapes *)

Lemma no_escaped_quote_outside (c : code_unit) (r : jsstring) :
  c <> c_quote -> no_escaped_quote false (c :: r) = no_escaped_quote false r.
Proof. intros Hc. cbn [no_escaped_quote]. apply N.eqb_neq in Hc. rewrite Hc. reflexivity. Qed.

Lemma no_escaped_quote_inert (u r : jsstring) :
  Forall inert u -> no_escaped_quote false (u ++ r) = no_escaped_quote false r.
Proof.
  induction 1 as [|c u [Hq _] _ IH]; [reflexivity|].
  cbn [app]. rewrite (@no_escaped_quote_outside c (u ++ r) Hq). exact IH.
Qed.

Lemma no_escaped_quote_inside (c : code_unit) (r : jsstring) :
  c <> c_quote -> c <> c_backslash ->
  no_escaped_quote true (c :: r) = no_escaped_quote true r.
Proof.
  intros Hq Hb. cbn [no_escaped_quote]. apply N.eqb_neq in Hq, Hb.
  rewrite Hq, Hb. reflexivity.
Qed.

Lemma no_escaped_quote_without_backslash (s : jsstring) :
  ~ In c_backslash s -> forall b, no_escaped_quote b s = true.
Proof.
  induction s as [|c s IH]; intros Hbs b; [reflexivity|].
  assert (Hc : (c =? c_backslash) = false).
  { apply N.eqb_neq. intros ->. apply Hbs. left. reflexivity. }
  cbn [no_escaped_quote]. rewrite Hc.
  destruct b; apply IH; intros K; apply Hbs; right; exact K.
Qed.

Lemma hex_digit_plain (h : code_unit) (x : N) :
  hex_value h = Some x -> h <> c_quote /\ h <> c_backslash.
Proof.
  unfold hex_value, c_quote, c_backslash. intros H.
  split; intros ->; discriminate H.
Qed.

Lemma hex4_plain (h1 h2 h3 h4 u : code_unit) (r : jsstring) :
  hex4 h1 h2 h3 h4 = Some u ->
  no_escaped_quote true (h1 :: h2 :: h3 :: h4 :: r) = no_escaped_quote true r
  /\ ~ In c_quote [h1; h2; h3; h4].
Proof.
  unfold hex4.
  destruct (hex_value h1) as [x1|] eqn:E1; [|discriminate].
  destruct (hex_value h2) as [x2|] eqn:E2; [|discriminate].
  destruct (hex_value h3) as [x3|] eqn:E3; [|discriminate].
  destruct (hex_value h4) as [x4|] eqn:E4; [|discriminate].
  intros _.
  destruct (@hex_digit_plain h1 x1 E1) as [Q1 B1]. destruct (@hex_digit_plain h2 x2 E2) as [Q2 B2].
  destruct (@hex_digit_plain h3 x3 E3) as [Q3 B3]. destruct (@hex_digit_plain h4 x4 E4) as [Q4 B4].
  split.
  - rewrite !no_escaped_quote_inside by assumption. reflexivity.
  - intros [K|[K|[K|[K|[]]]]]; congruence.
Qed.

(** A string literal that holds no escaped quote has no quote before the
    one that closes it. *)
Lemma parse_string_body_split (n : nat) :
  forall s acc str r,
    (List.length s <= n)%nat ->
    no_escaped_quote true s = true ->
    parse_string_body s acc = Some (str, r) ->
    exists body, s = body ++ c_quote :: r /\ ~ In c_quote body
                 /\ no_escaped_quote false r = true.
Proof.
  induction n as [|n IH]; intros s acc str r Hn Hl H.
  { destruct s; [discriminate H|cbn in Hn; lia]. }
  destruct s as [|c s]; [discriminate H|].
  cbn [List.length] in Hn.
  cbn [parse_string_body] in H.
  destruct (N.eqb_spec c c_quote) as [->|Hq].
  { injection H as _ <-. exists []. split; [reflexivity|]. split; [intros []|].
    exact Hl. }
  destruct (N.eqb_spec c c_backslash) as [->|Hb].
  - destruct s as [|e r']; [discriminate H|].
    cbn [no_escaped_quote] in Hl. change (c_backslash =? c_backslash) with true in Hl.
    cbv iota in Hl. apply andb_true_iff in Hl. destruct Hl as [He Hl].
    apply negb_true_iff in He. rewrite He in H.
    apply N.eqb_neq in He. cbn [List.length] in Hn.
    assert (Hplain : forall acc',
              parse_string_body r' acc' = Some (str, r) ->
              exists body, c_backslash :: e :: r' = body ++ c_quote :: r
                           /\ ~ In c_quote body /\ no_escaped_quote false r = true).
    { intros acc' H'.
      destruct (@IH r' acc' str r ltac:(lia) Hl H') as [body [-> [Hbody Hr]]].
      exists (c_backslash :: e :: body). split; [reflexivity|]. split; [|exact Hr].
      intros [K|[K|K]]; [discriminate K|congruence|exact (Hbody K)]. }
    destruct (e =? c_backslash); [exact (Hplain _ H)|].
    destruct (e =? c_slash); [exact (Hplain _ H)|].
    destruct (e =? 98); [exact (Hplain _ H)|].
    destruct (e =? 102); [exact (Hplain _ H)|].
    destruct (e =? 110); [exact (Hplain _ H)|].
    destruct (e =? 114); [exact (Hplain _ H)|].
    destruct (e =? 116); [exact (Hplain _ H)|].
    destruct (e =? 117); [|discriminate H].
    destruct r' as [|h1 [|h2 [|h3 [|h4 r'']]]]; try discriminate H.
    destruct (hex4 h1 h2 h3 h4) as [u|] eqn:Eh; [|discriminate H].
    destruct (@hex4_plain h1 h2 h3 h4 u r'' Eh) as [Hskip Hnq]. rewrite Hskip in Hl.
    cbn [List.length] in Hn.
    destruct (IH r'' _ str r ltac:(lia) Hl H) as [body [-> [Hbody Hr]]].
    exists (c_backslash :: e :: h1 :: h2 :: h3 :: h4 :: body).
    split; [reflexivity|]. split; [|exact Hr].
    intros [K|[K|K]]; [discriminate K|congruence|].
    change (In c_quote ([h1; h2; h3; h4] ++ body)) in K.
    apply in_app_or in K. destruct K as [K|K]; [exact (Hnq K)|exact (Hbody K)].
  - destruct (c <? 32); [discriminate H|].
    rewrite (@no_escaped_quote_inside c s Hq Hb) in Hl.
    destruct (IH s _ str r ltac:(lia) Hl H) as [body [-> [Hbody Hr]]].
    exists (c :: body). split; [reflexivity|]. split; [|exact Hr].
    intros [K|K]; [congruence|exact (Hbody K)].
Qed.

Lemma string_literal_split (s : jsstring) (acc str r : jsstring) :
  no_escaped_quote false (c_quote :: s) = true ->
  parse_string_body s acc = Some (str, r) ->
  exists body, s = body ++ c_quote :: r /\ ~ In c_quote body
               /\ no_escaped_quote false r = true.
Proof.
  intros Hl H. apply (@parse_string_body_split (List.length s) s acc str r);
    [apply Nat.le_refl|exact Hl|exact H].
Qed.

Lemma span_digits_split s :
  forall d r, span_digits s = (d, r) -> s = d ++ r /\ Forall inert d.
Proof.
  induction s as [|c s IH]; intros d r H; cbn [span_digits] in H.
  - injection H as <- <-. split; [reflexivity|constructor].
  - destruct (is_digit c) eqn:Hc.
    + destruct (span_digits s) as [d' r'] eqn:E. injection H as <- <-.
      destruct (IH _ _ eq_refl) as [-> Hd].
      split; [reflexivity|]. constructor; [apply inert_digit, Hc|exact Hd].
    + injection H as <- <-. split; [reflexivity|constructor].
Qed.

Lemma inert_number_sign c :
  (c =? c_minus) || (c =? c_plus) || (c =? c_dot) || (c =? 101) || (c =? 69)
  || (c =? c_zero) = true -> inert c.
Proof.
  unfold inert, c_minus, c_plus, c_dot, c_zero, c_quote, c_lbrace, c_rbrace.
  intros H. repeat split; intros ->; discriminate H.
Qed.

Lemma parse_int_split s i r :
  parse_int s = Some (i, r) -> s = i ++ r /\ Forall inert i.
Proof.
  unfold parse_int. destruct s as [|c s]; [discriminate|].
  destruct (c =? c_zero) eqn:Hz.
  - intros H. injection H as <- <-. split; [reflexivity|].
    constructor; [|constructor]. apply inert_number_sign. rewrite Hz.
    rewrite ?orb_true_r; reflexivity.
  - destruct (is_digit c) eqn:Hc; [|discriminate].
    destruct (span_digits s) as [d r'] eqn:E. intros H. injection H as <- <-.
    destruct (span_digits_split _ E) as [-> Hd].
    split; [reflexivity|]. constructor; [apply inert_digit, Hc|exact Hd].
Qed.

Lemma parse_frac_split s f r :
  parse_frac s = Some (f, r) -> s = f ++ r /\ Forall inert f.
Proof.
  unfold parse_frac. destruct s as [|c s].
  { intros H. injection H as <- <-. split; [reflexivity|constructor]. }
  destruct (c =? c_dot) eqn:Hc.
  - destruct (span_digits s) as [d r'] eqn:E.
    destruct (span_digits_split _ E) as [-> Hd].
    destruct d as [|x d]; [discriminate|].
    intros H. injection H as <- <-. split; [reflexivity|].
    constructor; [|exact Hd]. apply inert_number_sign. rewrite Hc.
    rewrite ?orb_true_r; reflexivity.
  - intros H. injection H as <- <-. split; [reflexivity|constructor].
Qed.

Lemma parse_exp_split s x r :
  parse_exp s = Some (x, r) -> s = x ++ r /\ Forall inert x.
Proof.
  unfold parse_exp. destruct s as [|c s].
  { intros H. injection H as <- <-. split; [reflexivity|constructor]. }
  destruct ((c =? 101) || (c =? 69)) eqn:Hc.
  - assert (Hic : inert c).
    { apply inert_number_sign. apply orb_true_iff in Hc.
      destruct Hc as [-> | ->]; rewrite ?orb_true_r; reflexivity. }
    destruct s as [|g s0].
    + cbn [span_digits]. discriminate.
    + destruct ((g =? c_plus) || (g =? c_minus)) eqn:Hg.
      * destruct (span_digits s0) as [d r'] eqn:E.
        destruct (span_digits_split _ E) as [-> Hd].
        destruct d as [|y d]; [discriminate|].
        intros H. injection H as <- <-. split; [reflexivity|].
        constructor; [exact Hic|]. constructor; [|exact Hd].
        apply inert_number_sign. apply orb_true_iff in Hg.
        destruct Hg as [-> | ->]; rewrite ?orb_true_r; reflexivity.
      * destruct (span_digits (g :: s0)) as [d r'] eqn:E.
        destruct (span_digits_split _ E) as [Hs Hd].
        destruct d as [|y d]; [discriminate|].
        intros H. injection H as <- <-. rewrite Hs. split; [reflexivity|].
        constructor; [exact Hic|exact Hd].
  - intros H. injection H as <- <-. split; [reflexivity|constructor].
Qed.

Lemma parse_number_split s n r :
  parse_number s = Some (n, r) -> s = n ++ r /\ Forall inert n.
Proof.
  unfold parse_number.
  assert (Hsign : exists sign s1,
            match s with
            | [] => ([], s)
            | c :: r0 => if c =? c_minus then ([c], r0) else ([], s)
            end = (sign, s1) /\ s = sign ++ s1 /\ Forall inert sign).
  { destruct s as [|c s]; [exists [], []; repeat split; constructor|].
    destruct (c =? c_minus) eqn:Hc.
    - exists [c], s. repeat split. constructor; [|constructor].
      apply inert_number_sign. rewrite Hc. reflexivity.
    - exists [], (c :: s). repeat split. constructor. }
  destruct Hsign as [sign [s1 [-> [-> Hsign]]]].
  destruct (parse_int s1) as [[i s2]|] eqn:Ei; [|discriminate].
  destruct (parse_frac s2) as [[f s3]|] eqn:Ef; [|discriminate].
  destruct (parse_exp s3) as [[x s4]|] eqn:Ex; [|discriminate].
  intros H. injection H as <- <-.
  destruct (parse_int_split _ Ei) as [-> Hi].
  destruct (parse_frac_split _ Ef) as [-> Hf].
  destruct (parse_exp_split _ Ex) as [-> Hx].
  split; [rewrite <- !app_assoc; reflexivity|].
  repeat (apply Forall_app; split); assumption.
Qed.

Lemma strip_prefix_split k :
  forall s r, strip_prefix k s = Some r -> s = k ++ r.
Proof.
  induction k as [|x k IH]; intros s r H; cbn [strip_prefix] in H.
  - injection H as <-. reflexivity.
  - destruct s as [|y s]; [discriminate|].
    destruct (N.eqb_spec x y) as [->|_]; [|discriminate].
    cbn [app]. f_equal. apply IH, H.
Qed.

Lemma inert_keywords :
  Forall inert (lit "true") /\ Forall inert (lit "false") /\ Forall inert (lit "null").
Proof.
  repeat split; repeat constructor; intros H; discriminate H.
Qed.

Lemma inert_punctuation :
  inert c_lbracket /\ inert c_rbracket /\ inert c_comma /\ inert c_colon.
Proof. repeat split; intros H; discriminate H. Qed.

(** Join the pieces of a consumed span. *)
Ltac joined :=
  subst; repeat (progress (rewrite <- ?app_assoc; cbn [app])); reflexivity.

Ltac pieces :=
  repeat first
    [ assumption
    | apply neutral_nil
    | apply neutral_all_inert; assumption
    | apply neutral_inert; apply inert_punctuation
    | apply neutral_string; assumption
    | apply neutral_braces
    | apply neutral_app ].

(** Past a span of inert characters. *)
Ltac past H Hspan :=
  rewrite Hspan in H; rewrite <- ?app_assoc in H;
  rewrite no_escaped_quote_inert in H by assumption.

Ltac past_char H :=
  rewrite no_escaped_quote_outside in H by discriminate.

(** What the parser consumes of a text whose strings hold no escaped
    quote is neutral: a value and the elements of an array to their end,
    the members of an object up to the brace that closes it. *)
Lemma parsed_spans_neutral f :
  (forall s v r, no_escaped_quote false s = true -> parse_value f s = Some (v, r) ->
     exists u, s = u ++ r /\ neutral u /\ no_escaped_quote false r = true)
  /\ (forall s vs r, no_escaped_quote false s = true ->
        parse_elements f s = Some (vs, r) ->
     exists u, s = u ++ r /\ neutral u /\ no_escaped_quote false r = true)
  /\ (forall s ms r, no_escaped_quote false s = true ->
        parse_members f s = Some (ms, r) ->
     exists inner, s = inner ++ c_rbrace :: r /\ neutral inner
                   /\ no_escaped_quote false r = true).
Proof.
  induction f as [|f [IHv [IHe IHm]]]; [repeat split; discriminate|].
  destruct inert_keywords as [Ktrue [Kfalse Knull]].
  split; [|split]; intros s x r Hbs H.
  - (* a value *)
    cbn [parse_value] in H.
    destruct (skip_ws_split s) as [ws [Hs Hws]].
    destruct (skip_ws s) as [|c r0]; [discriminate H|].
    past Hbs Hs.
    destruct (N.eqb_spec c c_lbrace) as [->|_].
    { destruct (skip_ws_split r0) as [ws2 [Hr0 Hws2]].
      destruct (skip_ws r0) as [|d r']; [discriminate H|].
      past_char Hbs. past Hbs Hr0.
      destruct (N.eqb_spec d c_rbrace) as [->|_].
      - injection H as _ <-. past_char Hbs.
        exists (ws ++ (c_lbrace :: ws2 ++ [c_rbrace])).
        split; [joined|]. split; [pieces|exact Hbs].
      - destruct (parse_members f (d :: r')) as [[ms r'']|] eqn:E; [|discriminate H].
        injection H as _ <-.
        destruct (IHm _ _ _ Hbs E) as [inner [Hin [Hn Hr]]]. rewrite Hin in Hr0.
        exists (ws ++ (c_lbrace :: (ws2 ++ inner) ++ [c_rbrace])).
        split; [joined|]. split; [pieces|exact Hr]. }
    destruct (N.eqb_spec c c_lbracket) as [->|_].
    { destruct (skip_ws_split r0) as [ws2 [Hr0 Hws2]].
      destruct (skip_ws r0) as [|d r']; [discriminate H|].
      past_char Hbs. past Hbs Hr0.
      destruct (N.eqb_spec d c_rbracket) as [->|_].
      - injection H as _ <-. past_char Hbs.
        exists (ws ++ [c_lbracket] ++ ws2 ++ [c_rbracket]).
        split; [joined|]. split; [pieces|exact Hbs].
      - destruct (parse_elements f (d :: r')) as [[vs r'']|] eqn:E; [|discriminate H].
        injection H as _ <-.
        destruct (IHe _ _ _ Hbs E) as [u [Hu [Hn Hr]]]. rewrite Hu in Hr0.
        exists (ws ++ [c_lbracket] ++ ws2 ++ u).
        split; [joined|]. split; [pieces|exact Hr]. }
    destruct (N.eqb_spec c c_quote) as [->|_].
    { destruct (parse_string_body r0 []) as [[str r']|] eqn:E; [|discriminate H].
      injection H as _ <-.
      destruct (@string_literal_split r0 [] str r' Hbs E) as [body [Hb [Hq Hr]]].
      exists (ws ++ (c_quote :: body ++ [c_quote])).
      split; [joined|]. split; [pieces|exact Hr]. }
    destruct ((c =? c_minus) || is_digit c).
    { destruct (parse_number (c :: r0)) as [[n r']|] eqn:E; [|discriminate H].
      injection H as _ <-.
      destruct (@parse_number_split (c :: r0) n r' E) as [Hn Hin].
      past Hbs Hn. rewrite Hn in Hs.
      exists (ws ++ n). split; [joined|]. split; [pieces|exact Hbs]. }
    destruct (strip_prefix (lit "true") (c :: r0)) as [r'|] eqn:Et.
    { injection H as _ <-. apply strip_prefix_split in Et.
      past Hbs Et. rewrite Et in Hs.
      exists (ws ++ lit "true"). split; [joined|]. split; [pieces|exact Hbs]. }
    destruct (strip_prefix (lit "false") (c :: r0)) as [r'|] eqn:Ef.
    { injection H as _ <-. apply strip_prefix_split in Ef.
      past Hbs Ef. rewrite Ef in Hs.
      exists (ws ++ lit "false"). split; [joined|]. split; [pieces|exact Hbs]. }
    destruct (strip_prefix (lit "null") (c :: r0)) as [r'|] eqn:En; [|discriminate H].
    injection H as _ <-. apply strip_prefix_split in En.
    past Hbs En. rewrite En in Hs.
    exists (ws ++ lit "null"). split; [joined|]. split; [pieces|exact Hbs].
  - (* the elements of an array *)
    cbn [parse_elements] in H.
    destruct (parse_value f s) as [[v r1]|] eqn:Ev; [|discriminate H].
    destruct (IHv _ _ _ Hbs Ev) as [u1 [Hs [Hn1 Hl]]].
    destruct (skip_ws_split r1) as [ws [Hr1 Hws]].
    destruct (skip_ws r1) as [|c r']; [discriminate H|].
    past Hl Hr1.
    destruct (N.eqb_spec c c_comma) as [->|_].
    + destruct (parse_elements f r') as [[vs r'']|] eqn:E; [|discriminate H].
      injection H as _ <-. past_char Hl.
      destruct (IHe _ _ _ Hl E) as [u2 [Hu2 [Hn2 Hr]]].
      exists (u1 ++ ws ++ [c_comma] ++ u2). split; [joined|]. split; [pieces|exact Hr].
    + destruct (N.eqb_spec c c_rbracket) as [->|_]; [|discriminate H].
      injection H as _ <-. past_char Hl.
      exists (u1 ++ ws ++ [c_rbracket]). split; [joined|]. split; [pieces|exact Hl].
  - (* the members of an object *)
    cbn [parse_members] in H.
    destruct (skip_ws_split s) as [ws [Hs Hws]].
    destruct (skip_ws s) as [|q r0]; [discriminate H|].
    past Hbs Hs.
    destruct (N.eqb_spec q c_quote) as [->|_]; [|discriminate H].
    destruct (parse_string_body r0 []) as [[k r1]|] eqn:Ek; [|discriminate H].
    destruct (@string_literal_split r0 [] k r1 Hbs Ek) as [body [Hb [Hq Hl]]].
    destruct (skip_ws_split r1) as [ws1 [Hr1 Hws1]].
    destruct (skip_ws r1) as [|c r2]; [discriminate H|].
    past Hl Hr1.
    destruct (N.eqb_spec c c_colon) as [->|_]; [|discriminate H].
    past_char Hl.
    destruct (parse_value f r2) as [[v r3]|] eqn:Ev; [|discriminate H].
    destruct (IHv _ _ _ Hl Ev) as [u [Hu [Hn Hl3]]].
    destruct (skip_ws_split r3) as [ws3 [Hr3 Hws3]].
    destruct (skip_ws r3) as [|d r4]; [discriminate H|].
    past Hl3 Hr3.
    destruct (N.eqb_spec d c_comma) as [->|_].
    + destruct (parse_members f r4) as [[ms r5]|] eqn:E; [|discriminate H].
      injection H as _ <-. past_char Hl3.
      destruct (IHm _ _ _ Hl3 E) as [inner [Hin [Hni Hr]]].
      exists (ws ++ (c_quote :: body ++ [c_quote]) ++ ws1 ++ [c_colon] ++ u ++ ws3
                ++ [c_comma] ++ inner).
      split; [joined|]. split; [pieces|exact Hr].
    + destruct (N.eqb_spec d c_rbrace) as [->|_]; [|discriminate H].
      injection H as _ <-. past_char Hl3.
      exists (ws ++ (c_quote :: body ++ [c_quote]) ++ ws1 ++ [c_colon] ++ u ++ ws3).
      split; [joined|]. split; [pieces|exact Hl3].
Qed.

(** Between the braces of an object text whose strings hold no escaped
    quote the scanner meets nothing that moves it. *)
Lemma object_body_neutral (body : jsstring) (v : jsval) :
  no_escaped_quote false (c_lbrace :: body ++ [c_rbrace]) = true ->
  Json.parse (c_lbrace :: body ++ [c_rbrace]) = Ok v ->
  neutral body.
Proof.
  intros Hbs Hp. apply parse_fuel_independent in Hp.
  destruct Hp as [fuel [r [Hv Hr]]].
  destruct fuel as [|f]; [discriminate Hv|].
  cbn [parse_value skip_ws] in Hv. change (is_ws c_lbrace) with false in Hv.
  cbv iota in Hv. change (c_lbrace =? c_lbrace) with true in Hv. cbv iota in Hv.
  past_char Hbs.
  destruct (skip_ws_split (body ++ [c_rbrace])) as [ws [Hs Hws]].
  destruct (skip_ws (body ++ [c_rbrace])) as [|d r']; [discriminate Hv|].
  assert (Hend : forall inner rest,
            body ++ [c_rbrace] = inner ++ c_rbrace :: rest -> rest = r ->
            body = inner).
  { intros inner rest E ->. destruct r as [|x r0] using rev_ind.
    - apply app_inj_tail in E. exact (proj1 E).
    - exfalso. clear IHr0.
      change (inner ++ c_rbrace :: r0 ++ [x]) with (inner ++ (c_rbrace :: r0) ++ [x]) in E.
      rewrite app_assoc in E. apply app_inj_tail in E. destruct E as [_ <-].
      apply skip_ws_nil_all in Hr. apply Forall_app in Hr. destruct Hr as [_ Hr].
      inversion Hr as [|? ? Hc _]. discriminate Hc. }
  destruct (N.eqb_spec d c_rbrace) as [->|_].
  - injection Hv as _ <-.
    rewrite (Hend ws r' Hs eq_refl). apply neutral_all_inert, Hws.
  - destruct (parse_members f (d :: r')) as [[ms r'']|] eqn:E; [|discriminate Hv].
    injection Hv as _ <-.
    rewrite Hs in Hbs. rewrite no_escaped_quote_inert in Hbs by assumption.
    destruct (proj2 (proj2 (parsed_spans_neutral f)) _ _ _ Hbs E) as [inner [Hin [Hn _]]].
    rewrite Hin in Hs. rewrite app_assoc in Hs.
    rewrite (Hend (ws ++ inner) r'' Hs eq_refl).
    apply neutral_app; [apply neutral_all_inert, Hws|exact Hn].
Qed.

Lemma extractFirstJson_scan (t : jsstring) :
  extractFirstJson (Str t)
  = match indexOf c_lbrace t with
    | None => None
    | Some start => scan t start (skipn start t) start 0%Z false false
    end.
Proof. destruct t; reflexivity. Qed.

(** A text whose first opening brace opens a JSON object whose strings
    hold no escaped quote: the object is what the scanner returns. *)
Lemma extractFirstJson_first_object (pre body post : jsstring) (v : jsval) :
  indexOf c_lbrace pre = None ->
  no_escaped_quote false (c_lbrace :: body ++ [c_rbrace]) = true ->
  Json.parse (c_lbrace :: body ++ [c_rbrace]) = Ok v ->
  extractFirstJson (Str (pre ++ (c_lbrace :: body ++ [c_rbrace]) ++ post))
  = Some {| text := c_lbrace :: body ++ [c_rbrace]; parsed := v |}.
Proof.
  intros Hpre Hbs Hp.
  pose proof (@object_body_neutral body v Hbs Hp) as Hn.
  set (object := c_lbrace :: body ++ [c_rbrace]) in *.
  rewrite extractFirstJson_scan.
  assert (Hidx : indexOf c_lbrace (pre ++ object ++ post) = Some (List.length pre)).
  { subst object. cbn [app]. apply indexOf_app_fresh. exact Hpre. }
  rewrite Hidx.
  assert (Hskip : skipn (List.length pre) (pre ++ object ++ post) = object ++ post).
  { rewrite skipn_app, skipn_all, Nat.sub_diag. reflexivity. }
  rewrite Hskip.
  pose proof (slice_app_exact pre object post) as Hslice.
  set (whole := pre ++ object ++ post) in *.
  subst object. cbn [app scan]. rewrite escape_literal_never_matches.
  change (c_lbrace =? c_quote) with false. cbv iota zeta.
  change (c_lbrace =? c_lbrace) with true. change (c_lbrace =? c_rbrace) with false.
  cbv iota.
  rewrite <- app_assoc.
  rewrite (Hn whole (List.length pre) ([c_rbrace] ++ post) (S (List.length pre))
              (0 + 1)%Z ltac:(lia)).
  cbn [app scan]. rewrite escape_literal_never_matches.
  change (c_rbrace =? c_quote) with false. cbv iota zeta.
  change (c_rbrace =? c_lbrace) with false. change (c_rbrace =? c_rbrace) with true.
  cbv iota. change (0 + 1 - 1 =? 0)%Z with true. cbv iota.
  replace (S (List.length pre) + List.length body + 1)%nat
    with (List.length pre + List.length (c_lbrace :: body ++ [c_rbrace]))%nat
    by (cbn [List.length]; rewrite length_app; cbn [List.length]; lia).
  rewrite Hslice, Hp. reflexivity.
Qed.

(** *** The object of the brace-in-string test *)

Lemma parse_string_body_literal (value rest : jsstring) :
  Forall literal_unit value ->
  forall acc,
    parse_string_body (value ++ c_quote :: rest) acc = Some (rev acc ++ value, rest).
Proof.
  induction 1 as [|c value [Hq [Hb Hc]] _ IH]; intros acc.
  - cbn [app parse_string_body]. rewrite N.eqb_refl, app_nil_r. reflexivity.
  - cbn [app parse_string_body].
    apply N.eqb_neq in Hq, Hb. rewrite Hq, Hb.
    destruct (N.ltb_spec c 32) as [Hlt|_]; [lia|].
    rewrite IH. cbn [rev]. rewrite <- app_assoc. reflexivity.
Qed.

Lemma parse_object_with_string (value : jsstring) :
  Forall literal_unit value ->
  Json.parse (object_with_string value) = Ok (Obj [(lit "a", Str value)]).
Proof.
  intros Hv. apply parse_fuel_independent. exists 3%nat, [].
  split; [|reflexivity].
  unfold object_with_string, quoted.
  change (lit "{" ++ (c_quote :: lit "a" ++ [c_quote]) ++ lit ": "
            ++ (c_quote :: value ++ [c_quote]) ++ lit "}")
    with (c_lbrace :: c_quote :: 97 :: c_quote :: c_colon :: 32 :: c_quote
            :: (value ++ [c_quote]) ++ [c_rbrace]).
  rewrite <- app_assoc. cbn [app].
  cbn [parse_value parse_members skip_ws is_ws N.eqb Pos.eqb orb c_lbrace c_quote
       c_rbrace c_colon parse_string_body c_backslash N.ltb N.compare Pos.compare
       Pos.compare_cont rev app].
  fold c_quote. rewrite (@parse_string_body_literal value [c_rbrace] Hv []).
  cbn [rev app skip_ws is_ws N.eqb Pos.eqb orb c_rbrace c_comma]. reflexivity.
Qed.

End ScannerOnJson.

Lemma first_parsed_after_failures (before after : list jsstring) (c : jsstring)
    (v : jsval) :
  Forall (fun b => Json.parse b = Thrown SyntaxError) before ->
  Json.parse c = Ok v ->
  first_parsed (before ++ c :: after) = Some {| text := c; parsed := v |}.
Proof.
  intros Hb Hc. induction Hb as [|b before Hb _ IH]; cbn [app first_parsed].
  - rewrite Hc. reflexivity.
  - rewrite Hb. exact IH.
Qed.

Lemma object_with_string_shape (value : jsstring) :
  object_with_string value
  = c_lbrace :: (quoted (lit "a") ++ lit ": " ++ quoted value) ++ [c_rbrace].
Proof.
  unfold object_with_string. cbn [lit list_ascii_of_string List.map app].
  rewrite <- !app_assoc. reflexivity.
Qed.

Lemma object_with_string_no_backslash (value : jsstring) :
  Forall literal_unit value -> ~ In c_backslash (object_with_string value).
Proof.
  intros Hv.
  assert (Hall : Forall (fun c => c <> c_backslash) (object_with_string value)).
  { unfold object_with_string, quoted.
    repeat first
      [ apply Forall_app; split
      | apply Forall_cons; [discriminate|]
      | apply Forall_nil
      | exact (Forall_impl _ (fun c H => proj1 (proj2 H)) Hv) ]. }
  intros Hin. rewrite Forall_forall in Hall. exact (Hall _ Hin eq_refl).
Qed.

Lemma opens_with_object_extracted (t : jsval) (object : jsstring) (v : jsval) :
  opens_with_object t object v ->
  extractFirstJson t = Some {| text := object; parsed := v |}.
Proof.
  intros [pre [body [post [-> [Hpre [-> [Hbs Hp]]]]]]].
  apply extractFirstJson_first_object; assumption.
Qed.

(** ** Claims about [extractFirstJson] *)

(** C5: [extractFirstJson] is a structurally recursive function into
    [option] (it ends on every input and has no exceptional result, the
    SyntaxError of JSON.parse being caught); it is [null] on a value that is
    not a string, on a text without an opening brace, and when none of the
    candidate slices parses; and a result, when there is one, is a candidate
    slice together with what JSON.parse makes of it. *)
Theorem extractFirstJson_total_null_on_malformed :
  (forall v, (forall s, v <> Str s) -> extractFirstJson v = None)
  /\ (forall s, indexOf c_lbrace s = None -> extractFirstJson (Str s) = None)
  /\ (forall s,
        (forall c, In c (candidate_slices s) -> Json.parse c = Thrown SyntaxError) ->
        extractFirstJson (Str s) = None)
  /\ (forall v, extractFirstJson v = None
                \/ exists s r, v = Str s /\ extractFirstJson v = Some r
                               /\ In (text r) (candidate_slices s)
                               /\ Json.parse (text r) = Ok (parsed r)).
Proof.
  split; [|split; [|split]].
  - intros v Hv. destruct v; try reflexivity. exfalso. exact (Hv s eq_refl).
  - intros s Hs. unfold extractFirstJson. destruct s; [reflexivity|].
    rewrite Hs. reflexivity.
  - intros s Hs. rewrite extractFirstJson_candidates.
    apply first_parsed_none. exact Hs.
  - intros v. destruct (extractFirstJson v) as [r|] eqn:E; [right|left; reflexivity].
    destruct v; try discriminate E.
    exists s, r. split; [reflexivity|]. split; [reflexivity|].
    rewrite extractFirstJson_candidates in E.
    apply first_parsed_some. exact E.
Qed.

Lemma extractFirstJson_total_null_on_malformed_witness :
  extractFirstJson (Str (lit "no opening brace here")) = None
  /\ extractFirstJson (Str (lit "{bad} {still bad}")) = None
  /\ extractFirstJson (Number (lit "42")) = None.
Proof.
  destruct extractFirstJson_total_null_on_malformed as [H1 [H2 [H3 _]]].
  split; [|split].
  - apply H2. reflexivity.
  - apply H3. intros c Hc. vm_compute in Hc.
    destruct Hc as [<-|[<-|[]]]; reflexivity.
  - apply H1. intros s. discriminate.
Defined.

(** C6 (the code departs from it): on a valid object whose string value
    holds an escaped quote followed by a closing brace, JSON.parse accepts
    the text but the scanner, which never enters its escape state, ends the
    string at the escaped quote and returns [null]. *)
Theorem escaped_quote_ends_string_in_scanner :
  Json.parse escaped_quote_object = Ok (Obj [(lit "a", Str (c_quote :: lit "}"))])
  /\ extractFirstJson (Str escaped_quote_object) = None
  /\ candidate_slices escaped_quote_object
     = [lit "{" ++ quoted (lit "a") ++ lit ":" ++ [c_quote; c_backslash; c_quote]
          ++ lit "}"].
Proof. split; [|split]; vm_compute; reflexivity. Qed.

(** The escape state is dead: from a state with [escape] off, [scan] goes
    through the text as [scan_no_escape] does. *)
Lemma scan_escape_dead whole start rest :
  forall i depth inString,
    scan whole start rest i depth inString false
    = scan_no_escape whole start rest i depth inString.
Proof.
  induction rest as [|ch rest IH]; intros i depth inString; [reflexivity|].
  cbn [scan scan_no_escape]. rewrite escape_literal_never_matches.
  destruct (ch =? c_quote); [apply IH|].
  destruct inString; [apply IH|].
  cbv zeta.
  destruct (ch =? c_rbrace); [|apply IH].
  destruct (_ =? 0)%Z; [|apply IH].
  destruct (Json.parse _); [reflexivity|apply IH].
Qed.

(** C7, amended: a text made of any prefix without an opening brace, the
    object whose member [a] is a string of any characters that stand for
    themselves in a string literal (braces among them, balanced or not),
    and any suffix: the result is that object, whole and unmodified, and
    its parse.  The string [b{c}d] is one such value. *)
Theorem extractFirstJson_brace_in_string (pre value post : jsstring) :
  indexOf c_lbrace pre = None ->
  Forall literal_unit value ->
  extractFirstJson (Str (pre ++ object_with_string value ++ post))
  = Some {| text := object_with_string value;
            parsed := Obj [(lit "a", Str value)] |}.
Proof.
  intros Hpre Hv.
  pose proof (@no_escaped_quote_without_backslash _
                (object_with_string_no_backslash Hv) false) as Hbs.
  pose proof (parse_object_with_string Hv) as Hp.
  rewrite object_with_string_shape in *.
  apply extractFirstJson_first_object; assumption.
Qed.

(** The object of the test after a greeting; and two values whose braces
    are not balanced. *)
Lemma extractFirstJson_brace_in_string_witness :
  extractFirstJson
    (Str (lit "Here you go: " ++ brace_in_string_object ++ lit " (enjoy)"))
  = Some {| text := brace_in_string_object;
            parsed := Obj [(lit "a", Str (lit "b{c}d"))] |}
  /\ extractFirstJson (Str (object_with_string (lit "b}c") ++ lit " }"))
     = Some {| text := object_with_string (lit "b}c");
               parsed := Obj [(lit "a", Str (lit "b}c"))] |}
  /\ extractFirstJson (Str (object_with_string (lit "{{")))
     = Some {| text := object_with_string (lit "{{");
               parsed := Obj [(lit "a", Str (lit "{{"))] |}.
Proof.
  split; [|split].
  - apply (@extractFirstJson_brace_in_string (lit "Here you go: ") (lit "b{c}d")
             (lit " (enjoy)")); [reflexivity|].
    repeat constructor; try discriminate; vm_compute; discriminate.
  - apply (@extractFirstJson_brace_in_string [] (lit "b}c") (lit " }")); [reflexivity|].
    repeat constructor; try discriminate; vm_compute; discriminate.
  - rewrite <- (app_nil_r (object_with_string (lit "{{"))) at 1.
    apply (@extractFirstJson_brace_in_string [] (lit "{{") []); [reflexivity|].
    repeat constructor; try discriminate; vm_compute; discriminate.
Defined.

(** C7 fails as stated: a text can contain the object and give another
    result.  After [{}] the result is that empty object; after an opening
    brace it is [null]. *)
Lemma brace_before_object_changes_result :
  extractFirstJson (Str (lit "{} " ++ brace_in_string_object))
  = Some {| text := lit "{}"; parsed := Obj [] |}
  /\ extractFirstJson (Str (lit "{ " ++ brace_in_string_object)) = None.
Proof. split; vm_compute; reflexivity. Qed.

(** C8: the candidates all begin at the first opening brace and each ends
    at a closing brace; after candidates that fail to parse, a later
    candidate that parses is the result; and when every candidate fails
    the result is [null], whatever valid objects the text holds further
    on. *)
Theorem extractFirstJson_never_restarts (s : jsstring) (start : nat) :
  indexOf c_lbrace s = Some start ->
  Forall (fun c => exists j, (start <= j < List.length s)%nat
                             /\ nth_error s j = Some c_rbrace
                             /\ c = slice start (j + 1) s)
         (candidate_slices s)
  /\ (forall before c after v,
        candidate_slices s = before ++ c :: after ->
        Forall (fun b => Json.parse b = Thrown SyntaxError) before ->
        Json.parse c = Ok v ->
        extractFirstJson (Str s) = Some {| text := c; parsed := v |})
  /\ (Forall (fun c => Json.parse c = Thrown SyntaxError) (candidate_slices s) ->
      extractFirstJson (Str s) = None).
Proof.
  intros Hstart. split; [|split].
  - apply Forall_forall. intros c Hc.
    unfold candidate_slices in Hc. rewrite Hstart in Hc.
    apply candidates_end_at_brace in Hc; [|reflexivity].
    destruct Hc as [j [Hj [Hnth Hc]]].
    exists j. split; [|split; assumption].
    split; [exact Hj|]. apply nth_error_Some. rewrite Hnth. discriminate.
  - intros before c after v Hcs Hb Hc.
    rewrite extractFirstJson_candidates, Hcs.
    apply first_parsed_after_failures; assumption.
  - intros Hall. rewrite extractFirstJson_candidates.
    apply first_parsed_none. apply Forall_forall. exact Hall.
Qed.

(** In the text with the escaped quotes the candidate that ends at the
    first closing brace fails and the one that ends at the second is the
    result; in [{bad} {"x":1}] both candidates fail and the result is
    [null], although the object after the space is valid JSON. *)
Lemma extractFirstJson_never_restarts_witness :
  (candidate_slices escaped_braces_object
   = [slice 0 9 escaped_braces_object; escaped_braces_object]
   /\ extractFirstJson (Str escaped_braces_object)
      = Some {| text := escaped_braces_object;
                parsed := Obj [(lit "a", Str ([c_quote] ++ lit "}{" ++ [c_quote]))] |})
  /\ (Json.parse (slice 6 13 noise_then_object)
      = Ok (Obj [(lit "x", Number (lit "1"))])
      /\ extractFirstJson (Str noise_then_object) = None).
Proof.
  split; split.
  - vm_compute. reflexivity.
  - apply (proj1 (proj2 (@extractFirstJson_never_restarts escaped_braces_object 0
                           eq_refl))
             [slice 0 9 escaped_braces_object] escaped_braces_object []).
    + vm_compute. reflexivity.
    + constructor; [vm_compute; reflexivity|constructor].
    + vm_compute. reflexivity.
  - vm_compute. reflexivity.
  - apply (proj2 (proj2 (@extractFirstJson_never_restarts noise_then_object 0 eq_refl))).
    change (candidate_slices noise_then_object)
      with [slice 0 5 noise_then_object; noise_then_object].
    repeat constructor; vm_compute; reflexivity.
Defined.

(** ** Properties of the suggestion pipeline *)

Section PipelineProperties.

Variable JSON_stringify : jsval -> jsstring.
Variable ToString : jsval -> jsstring.
Variable number_truthy : jsstring -> bool.
Variable exceeds : jsval -> N -> bool.
Variable endpoint : list Request -> Request -> Fetched.

Local Notation "'call'" := (callGemini JSON_stringify number_truthy endpoint).
Local Notation "'suggestions'" :=
  (fetchRestaurantSuggestions JSON_stringify ToString number_truthy exceeds endpoint).

Lemma aborts_weaken {A} (n n' : nat) (m : Async A) :
  (n <= n')%nat -> aborts_on_transport_error endpoint n m ->
  aborts_on_transport_error endpoint n' m.
Proof.
  intros Hle Hm sent out sent' H.
  destruct (Hm _ _ _ H) as [reqs [Hs [Hl Hr]]].
  exists reqs. split; [exact Hs|]. split; [lia|exact Hr].
Qed.

Lemma aborts_lift {A} (o : Outcome A) : aborts_on_transport_error endpoint 0 (lift o).
Proof.
  intros sent out sent' H. injection H as <- <-. exists [].
  split; [symmetry; apply app_nil_r|]. split; [reflexivity|].
  intros [|j] req res Hn; discriminate Hn.
Qed.

Lemma aborts_ret {A} (n : nat) (a : A) : aborts_on_transport_error endpoint n (ret a).
Proof. apply aborts_weaken with (n := 0%nat); [lia|]. exact (@aborts_lift A (Ok a)). Qed.

Lemma aborts_bind {A B} (n1 n2 : nat) (m : Async A) (k : A -> Async B) :
  aborts_on_transport_error endpoint n1 m ->
  (forall a, aborts_on_transport_error endpoint n2 (k a)) ->
  aborts_on_transport_error endpoint (n1 + n2) (bind m k).
Proof.
  intros Hm Hk sent out sent' H. unfold bind in H.
  destruct (m sent) as [[a|e] sent1] eqn:Em.
  - destruct (Hm _ _ _ Em) as [r1 [-> [Hl1 Hr1]]].
    destruct (Hk a _ _ _ H) as [r2 [-> [Hl2 Hr2]]].
    exists (r1 ++ r2). split; [symmetry; apply app_assoc|].
    split; [rewrite length_app; lia|].
    intros j req res Hn He Hok.
    destruct (Nat.lt_ge_cases j (List.length r1)) as [Hlt|Hge].
    + rewrite nth_error_app1 in Hn by exact Hlt.
      rewrite firstn_app in He.
      replace (j - List.length r1)%nat with 0%nat in He by lia.
      cbn in He. rewrite app_nil_r in He.
      destruct (Hr1 _ _ _ Hn He Hok) as [Habs _]. discriminate Habs.
    + rewrite nth_error_app2 in Hn by exact Hge.
      rewrite firstn_app, firstn_all2, app_assoc in He by exact Hge.
      destruct (Hr2 _ _ _ Hn He Hok) as [Hout Hlen].
      split; [exact Hout|]. rewrite length_app. lia.
  - injection H as <- <-. destruct (Hm _ _ _ Em) as [r1 [-> [Hl1 Hr1]]].
    exists r1. split; [reflexivity|]. split; [lia|].
    intros j req res Hn He Hok.
    destruct (Hr1 _ _ _ Hn He Hok) as [Heq Hlen].
    injection Heq as ->. auto.
Qed.

Lemma aborts_callGemini promptText model apiKey :
  aborts_on_transport_error endpoint 1 (call promptText model apiKey).
Proof.
  intros sent out sent' H. unfold callGemini, bind, lift, fetch, throw, ret in H.
  destruct (Encoding.encodeURIComponent model) as [m|e].
  2:{ injection H as <- <-. exists []. split; [symmetry; apply app_nil_r|].
      split; [cbn; lia|]. intros [|j] req res Hn; discriminate Hn. }
  destruct (Encoding.encodeURIComponent apiKey) as [k|e].
  2:{ injection H as <- <-. exists []. split; [symmetry; apply app_nil_r|].
      split; [cbn; lia|]. intros [|j] req res Hn; discriminate Hn. }
  match type of H with
  | context [endpoint sent ?r] => set (req0 := r) in *
  end.
  exists [req0].
  assert (Hone : forall j req res,
            nth_error [req0] j = Some req ->
            endpoint (sent ++ firstn j [req0]) req = Responded res ->
            j = 0%nat /\ endpoint sent req0 = Responded res).
  { intros [|[|j]] req res Hn He; try discriminate Hn.
    injection Hn as <-. cbn in He. rewrite app_nil_r in He. auto. }
  destruct (endpoint sent req0) as [|res0] eqn:E.
  - injection H as <- <-. split; [reflexivity|]. split; [reflexivity|].
    intros j req res Hn He _. destruct (Hone _ _ _ Hn He) as [_ Habs].
    discriminate Habs.
  - destruct (ok res0) eqn:Eok; cbn [negb] in H.
    + destruct (json res0); injection H as <- <-;
        (split; [reflexivity|]); (split; [reflexivity|]);
        intros j req res Hn He Hok; destruct (Hone _ _ _ Hn He) as [_ Heq];
        injection Heq as <-; congruence.
    + injection H as <- <-. split; [reflexivity|]. split; [reflexivity|].
      intros j req res Hn He Hok. destruct (Hone _ _ _ Hn He) as [-> Heq].
      injection Heq as <-. auto.
Qed.

(** The body quoted in the error message is a prefix of the response body
    of at most 400 code units. *)
Lemma http_error_message_shape (res : Response) :
  exists quoted_body,
    http_error_message res
    = lit "Gemini HTTP " ++ decimal (status res) ++ lit " " ++ statusText res
        ++ match quoted_body with
           | [] => []
           | _ :: _ => dash_separator ++ quoted_body
           end
    /\ (List.length quoted_body <= 400)%nat
    /\ quoted_body = firstn 400 (match payload res with Some t => t | None => [] end).
Proof.
  unfold http_error_message, text_or_null.
  destruct (payload res) as [[|c t]|].
  - exists []. repeat split; cbn; lia.
  - exists (slice 0 400 (c :: t)). split; [reflexivity|].
    split; [unfold slice; apply firstn_le_length|reflexivity].
  - exists []. repeat split; cbn; lia.
Qed.

(** C4: in every run of the pipeline, whichever of the attempts it is, a
    request that the endpoint answers with a status that is not ok is the
    last request of the run (no later attempt is made), and the run fails
    with the error that carries the status and the body cut to 400 code
    units; at most three requests are ever sent. *)
Theorem transport_error_aborts_pipeline
    (city food model apiKey : jsstring) (sent sent' : list Request)
    (out : Outcome jsval) :
  suggestions city food model apiKey sent = (out, sent') ->
  exists reqs,
    sent' = sent ++ reqs
    /\ (List.length reqs <= 3)%nat
    /\ forall j req res,
         nth_error reqs j = Some req ->
         endpoint (sent ++ firstn j reqs) req = Responded res ->
         ok res = false ->
         out = Thrown (Error (http_error_message res))
         /\ List.length reqs = S j
         /\ exists quoted_body,
              http_error_message res
              = lit "Gemini HTTP " ++ decimal (status res) ++ lit " "
                  ++ statusText res
                  ++ match quoted_body with
                     | [] => []
                     | _ :: _ => dash_separator ++ quoted_body
                     end
              /\ (List.length quoted_body <= 400)%nat
              /\ quoted_body
                 = firstn 400 (match payload res with Some t => t | None => [] end).
Proof.
  intros Hrun.
  assert (Habort : aborts_on_transport_error endpoint 3 (suggestions city food model apiKey)).
  { unfold fetchRestaurantSuggestions.
    apply (@aborts_bind _ _ 1 2); [apply aborts_callGemini|]. intros a1.
    destruct (extractFirstJson (Reply.text a1)); [apply aborts_ret|].
    apply (@aborts_bind _ _ 0 2); [apply aborts_lift|]. intros snippet.
    apply (@aborts_bind _ _ 1 1); [apply aborts_callGemini|]. intros a2.
    destruct (extractFirstJson (Reply.text a2)); [apply aborts_ret|].
    apply (@aborts_bind _ _ 1 0); [apply aborts_callGemini|]. intros a3.
    destruct (extractFirstJson (Reply.text a3)); apply aborts_ret. }
  destruct (Habort _ _ _ Hrun) as [reqs [Hsent [Hlen3 Hreqs]]].
  exists reqs. split; [exact Hsent|]. split; [exact Hlen3|].
  intros j req res Hn He Hok.
  destruct (Hreqs _ _ _ Hn He Hok) as [Hout Hlen].
  split; [exact Hout|]. split; [exact Hlen|].
  apply http_error_message_shape.
Qed.

(** C3: when the three attempts each complete and extraction fails on
    the text of each, the pipeline resolves to the fallback object whose
    [__raw] is the text of attempt 1, as [callGemini] returned it. *)
Theorem all_attempts_unparseable_gives_first_raw
    (city food model apiKey : jsstring)
    (sent0 sent1 sent2 sent3 : list Request)
    (attempt1 attempt2 attempt3 : Reply.t) (snippet : jsval) :
  call (basePrompt city food) model apiKey sent0 = (Ok attempt1, sent1) ->
  extractFirstJson (Reply.text attempt1) = None ->
  rawSnippet ToString exceeds (Reply.text attempt1) = Ok snippet ->
  call (reformatPrompt ToString snippet) model apiKey sent1 = (Ok attempt2, sent2) ->
  extractFirstJson (Reply.text attempt2) = None ->
  call (strictPrompt city food) model apiKey sent2 = (Ok attempt3, sent3) ->
  extractFirstJson (Reply.text attempt3) = None ->
  suggestions city food model apiKey sent0
  = (Ok (Obj [(lit "__raw", Reply.text attempt1)]), sent3).
Proof.
  intros H1 E1 Hs H2 E2 H3 E3.
  unfold fetchRestaurantSuggestions, bind, lift, ret.
  rewrite H1, E1, Hs, H2, E2, H3, E3. reflexivity.
Qed.

(** C10, amended: whichever attempt it is, when the first opening brace of
    the text of that attempt opens a JSON object whose strings hold no
    escaped quote, the pipeline resolves to what JSON.parse makes of that
    object, with no look at its members, and sends nothing more. *)
Theorem first_parseable_object_is_the_result
    (city food model apiKey : jsstring) (sent0 : list Request) :
  (forall attempt1 sent1 object v,
      call (basePrompt city food) model apiKey sent0 = (Ok attempt1, sent1) ->
      opens_with_object (Reply.text attempt1) object v ->
      suggestions city food model apiKey sent0 = (Ok v, sent1))
  /\ (forall attempt1 sent1 snippet attempt2 sent2 object v,
      call (basePrompt city food) model apiKey sent0 = (Ok attempt1, sent1) ->
      extractFirstJson (Reply.text attempt1) = None ->
      rawSnippet ToString exceeds (Reply.text attempt1) = Ok snippet ->
      call (reformatPrompt ToString snippet) model apiKey sent1
      = (Ok attempt2, sent2) ->
      opens_with_object (Reply.text attempt2) object v ->
      suggestions city food model apiKey sent0 = (Ok v, sent2))
  /\ (forall attempt1 sent1 snippet attempt2 sent2 attempt3 sent3 object v,
      call (basePrompt city food) model apiKey sent0 = (Ok attempt1, sent1) ->
      extractFirstJson (Reply.text attempt1) = None ->
      rawSnippet ToString exceeds (Reply.text attempt1) = Ok snippet ->
      call (reformatPrompt ToString snippet) model apiKey sent1
      = (Ok attempt2, sent2) ->
      extractFirstJson (Reply.text attempt2) = None ->
      call (strictPrompt city food) model apiKey sent2 = (Ok attempt3, sent3) ->
      opens_with_object (Reply.text attempt3) object v ->
      suggestions city food model apiKey sent0 = (Ok v, sent3)).
Proof.
  split; [|split].
  - intros a1 s1 o v H1 O1. apply opens_with_object_extracted in O1.
    unfold fetchRestaurantSuggestions, bind, lift, ret.
    rewrite H1, O1. reflexivity.
  - intros a1 s1 sn a2 s2 o v H1 E1 Hs H2 O2. apply opens_with_object_extracted in O2.
    unfold fetchRestaurantSuggestions, bind, lift, ret.
    rewrite H1, E1, Hs, H2, O2. reflexivity.
  - intros a1 s1 sn a2 s2 a3 s3 o v H1 E1 Hs H2 E2 H3 O3.
    apply opens_with_object_extracted in O3.
    unfold fetchRestaurantSuggestions, bind, lift, ret.
    rewrite H1, E1, Hs, H2, E2, H3, O3. reflexivity.
Qed.

End PipelineProperties.

(** The three attempts answered with prose: the fallback carries the
    first answer. *)
Lemma all_attempts_unparseable_gives_first_raw_witness :
  Scripted.search [Scripted.reply (lit "Sorry, I cannot help with that.");
                   Scripted.reply (lit "There is nothing to reformat.");
                   Scripted.reply (lit "No.")]
  = (Ok (Obj [(lit "__raw", Str (lit "Sorry, I cannot help with that."))]),
     snd (Scripted.search
            [Scripted.reply (lit "Sorry, I cannot help with that.");
             Scripted.reply (lit "There is nothing to reformat.");
             Scripted.reply (lit "No.")])).
Proof.
  unfold Scripted.search.
  erewrite all_attempts_unparseable_gives_first_raw
    with (attempt1 := {| Reply.text := Str (lit "Sorry, I cannot help with that.");
                         Reply.rawJson := _ |});
    [ | vm_compute; reflexivity ..].
  vm_compute. reflexivity.
Defined.

(** A refusal with status 429 on the first attempt, and on the second. *)
Lemma transport_error_aborts_pipeline_witness :
  (fst (Scripted.search [Scripted.too_many_requests; Scripted.reply (lit "{}")])
   = Thrown (Error (lit "Gemini HTTP 429 Too Many Requests" ++ dash_separator
                      ++ lit "quota exceeded"))
   /\ List.length (snd (Scripted.search
                          [Scripted.too_many_requests; Scripted.reply (lit "{}")]))
      = 1%nat)
  /\ (fst (Scripted.search [Scripted.reply (lit "prose"); Scripted.too_many_requests;
                            Scripted.reply (lit "{}")])
      = Thrown (Error (lit "Gemini HTTP 429 Too Many Requests" ++ dash_separator
                         ++ lit "quota exceeded"))
      /\ List.length (snd (Scripted.search
                             [Scripted.reply (lit "prose");
                              Scripted.too_many_requests;
                              Scripted.reply (lit "{}")]))
         = 2%nat).
Proof.
  split.
  - set (script := [Scripted.too_many_requests; Scripted.reply (lit "{}")]).
    destruct (transport_error_aborts_pipeline
                Scripted.JSON_stringify Scripted.ToString Scripted.number_truthy
                Scripted.exceeds (Scripted.endpoint script)
                (lit "Hyderabad, Telangana, India") (lit "Qubani ka Meetha")
                DEFAULT_MODEL (lit "secret-key") []
                (surjective_pairing (Scripted.search script)))
      as [reqs [Hsent [_ Hlast]]].
    cbn [app] in Hsent. fold (Scripted.search script) in Hlast.
    rewrite Hsent.
    assert (Hreqs : nth_error reqs 0 = nth_error (snd (Scripted.search script)) 0)
      by (rewrite Hsent; reflexivity).
    destruct (nth_error reqs 0) as [req|] eqn:Hn; [|vm_compute in Hreqs; discriminate].
    destruct (Hlast 0%nat req Scripted.too_many_requests Hn eq_refl eq_refl)
      as [Hout [Hlen _]].
    split; [rewrite Hout; vm_compute; reflexivity|exact Hlen].
  - set (script := [Scripted.reply (lit "prose"); Scripted.too_many_requests;
                    Scripted.reply (lit "{}")]).
    destruct (transport_error_aborts_pipeline
                Scripted.JSON_stringify Scripted.ToString Scripted.number_truthy
                Scripted.exceeds (Scripted.endpoint script)
                (lit "Hyderabad, Telangana, India") (lit "Qubani ka Meetha")
                DEFAULT_MODEL (lit "secret-key") []
                (surjective_pairing (Scripted.search script)))
      as [reqs [Hsent [_ Hlast]]].
    cbn [app] in Hsent. fold (Scripted.search script) in Hlast.
    rewrite Hsent.
    assert (Hreqs : nth_error reqs 1 = nth_error (snd (Scripted.search script)) 1)
      by (rewrite Hsent; reflexivity).
    destruct (nth_error reqs 1) as [req|] eqn:Hn; [|vm_compute in Hreqs; discriminate].
    assert (Hl : List.length (firstn 1 reqs) = 1%nat).
    { apply firstn_length_le.
      destruct reqs as [|? [|? ?]]; cbn in *; try discriminate; lia. }
    destruct (Hlast 1%nat req Scripted.too_many_requests Hn) as [Hout [Hlen _]].
    + unfold Scripted.endpoint. cbn [app]. rewrite Hl. reflexivity.
    + reflexivity.
    + split; [rewrite Hout; vm_compute; reflexivity|exact Hlen].
Defined.

(** An empty object after a greeting on the first attempt; on the second
    an object without the fields of the schema, with a brace in a string
    of a nested object; on the third an object whose string holds escaped
    backslashes and an escaped line feed: each is returned as it is. *)
Lemma first_parseable_object_is_the_result_witness :
  fst (Scripted.search [Scripted.reply (lit "Here: {}")]) = Ok (Obj [])
  /\ fst (Scripted.search [Scripted.reply (lit "prose");
                           Scripted.reply (tpl "{`note`:{`a`:`}`}} thanks")])
     = Ok (Obj [(lit "note", Obj [(lit "a", Str (lit "}"))])])
  /\ fst (Scripted.search [Scripted.reply (lit "prose"); Scripted.reply (lit "more");
                           Scripted.reply (tpl "{`path`:`C:\\dir\\`,`n`:`\n{`}")])
     = Ok (Obj [(lit "path", Str (lit "C:\dir" ++ [c_backslash])); (lit "n", Str [10; c_lbrace])]).
Proof.
  split; [|split].
  - unfold Scripted.search.
    erewrite (proj1 (first_parseable_object_is_the_result _ _ _ _ _ _ _ _ _ _))
      with (object := lit "{}");
      [reflexivity | vm_compute; reflexivity | ].
    exists (lit "Here: "), [], [].
    repeat split; reflexivity.
  - unfold Scripted.search.
    erewrite (proj1 (proj2 (first_parseable_object_is_the_result _ _ _ _ _ _ _ _ _ _)))
      with (object := tpl "{`note`:{`a`:`}`}}");
      [reflexivity | vm_compute; reflexivity .. | ].
    exists [], (tpl "`note`:{`a`:`}`}"), (lit " thanks").
    repeat split; reflexivity.
  - unfold Scripted.search.
    erewrite (proj2 (proj2 (first_parseable_object_is_the_result _ _ _ _ _ _ _ _ _ _)))
      with (object := tpl "{`path`:`C:\\dir\\`,`n`:`\n{`}");
      [reflexivity | vm_compute; reflexivity .. | ].
    exists [], (tpl "`path`:`C:\\dir\\`,`n`:`\n{`"), [].
    repeat split; reflexivity.
Defined.

(** C10 fails as stated: the text [{bad} {"x":1}] contains the parseable
    object [{"x":1}], and a pipeline answered with it three times treats
    every attempt as failed and returns the fallback. *)
Lemma later_object_not_returned :
  Json.parse (slice 6 13 noise_then_object) = Ok (Obj [(lit "x", Number (lit "1"))])
  /\ fst (Scripted.search [Scripted.reply noise_then_object;
                           Scripted.reply noise_then_object;
                           Scripted.reply noise_then_object])
     = Ok (Obj [(lit "__raw", Str noise_then_object)]).
Proof. split; vm_compute; reflexivity. Qed.

(** ** base64 round trip *)

Ltac Zify.zify_post_hook ::= Z.to_euclidean_division_equations.

(** Turn the boolean comparisons of a goal into propositions. *)
Ltac nbool :=
  repeat match goal with
  | |- context [?a <? ?b] => destruct (N.ltb_spec a b)
  | |- context [?a <=? ?b] => destruct (N.leb_spec a b)
  | |- context [?a =? ?b] => destruct (N.eqb_spec a b)
  | H : context [?a <? ?b] |- _ => destruct (N.ltb_spec a b)
  | H : context [?a <=? ?b] |- _ => destruct (N.leb_spec a b)
  | H : context [?a =? ?b] |- _ => destruct (N.eqb_spec a b)
  end.


Section Base64RoundTrip.

Import Base64 Base64Aux.

Lemma list_ind3 {A} (P : list A -> Prop) :
  P [] -> (forall a, P [a]) -> (forall a b, P [a; b]) ->
  (forall a b c r, P r -> P (a :: b :: c :: r)) ->
  forall l, P l.
Proof.
  intros H0 H1 H2 H3.
  fix IH 1. intros [|a [|b [|c r]]];
    [exact H0 | apply H1 | apply H2 | apply H3; apply IH].
Qed.

Lemma alphabet_value_char n : n < 64 -> alphabet_value (alphabet_char n) = Some n.
Proof.
  intros Hn. unfold alphabet_value, alphabet_char.
  nbool; cbn [andb orb negb]; first [exfalso; lia | f_equal; lia].
Qed.

Lemma alphabet_char_plain n :
  n < 64 -> is_ascii_ws (alphabet_char n) = false /\ alphabet_char n <> c_pad.
Proof.
  intros Hn. unfold is_ascii_ws, alphabet_char, c_pad.
  nbool; cbn [andb orb negb]; first [exfalso; lia | split; [reflexivity | lia]].
Qed.


Lemma encode_octets_split l : encode_octets l = encode_unpadded l ++ padding l.
Proof.
  induction l as [|a|a b|a b c r IH] using list_ind3; try reflexivity.
  cbn [encode_octets encode_unpadded padding]. rewrite IH. reflexivity.
Qed.

Lemma padding_cases l :
  padding l = [] \/ padding l = [c_pad] \/ padding l = [c_pad; c_pad].
Proof.
  induction l as [|a|a b|a b c r IH] using list_ind3; cbn [padding]; auto.
Qed.

Lemma length_encode_octets l : (List.length (encode_octets l) mod 4 = 0)%nat.
Proof.
  induction l as [|a|a b|a b c r IH] using list_ind3; try reflexivity.
  cbn [encode_octets List.length].
  change (S (S (S (S ?n)))) with (4 + n)%nat.
  rewrite <- Nat.Div0.add_mod_idemp_l. exact IH.
Qed.

Lemma unpadded_sextets l :
  Forall (fun x => x < 256) l ->
  exists sx,
    encode_unpadded l = List.map alphabet_char sx
    /\ Forall (fun x => x < 64) sx
    /\ decode_sextets sx = l
    /\ (List.length sx mod 4 <> 1)%nat.
Proof.
  induction l as [|a|a b|a b c r IH] using list_ind3; intros Hl.
  - exists []. repeat split; [constructor|cbn; lia].
  - inversion Hl as [|? ? Ha _]; subst.
    exists [a / 4; a mod 4 * 16]. cbn [encode_unpadded List.map decode_sextets].
    split; [reflexivity|]. split; [repeat constructor; lia|].
    split; [f_equal; lia|cbn; lia].
  - inversion Hl as [|? ? Ha Hl']; subst. inversion Hl' as [|? ? Hb _]; subst.
    exists [a / 4; a mod 4 * 16 + b / 16; b mod 16 * 4].
    cbn [encode_unpadded List.map decode_sextets].
    split; [reflexivity|]. split; [repeat constructor; lia|].
    split; [repeat (f_equal; try lia)|cbn; lia].
  - inversion Hl as [|? ? Ha Hl1]; subst. inversion Hl1 as [|? ? Hb Hl2]; subst.
    inversion Hl2 as [|? ? Hc Hr]; subst.
    destruct (IH Hr) as [sx [Henc [Hsx [Hdec Hlen]]]].
    exists (a / 4 :: a mod 4 * 16 + b / 16 :: b mod 16 * 4 + c / 64 :: c mod 64 :: sx).
    cbn [encode_unpadded List.map decode_sextets].
    split; [rewrite Henc; reflexivity|].
    split; [repeat (constructor; [lia|]); exact Hsx|].
    split; [rewrite Hdec; repeat (f_equal; try lia)|].
    cbn [List.length]. change (S (S (S (S ?n)))) with (4 + n)%nat.
    rewrite <- Nat.Div0.add_mod_idemp_l. exact Hlen.
Qed.

Lemma alphabet_values_chars sx :
  Forall (fun x => x < 64) sx ->
  alphabet_values (List.map alphabet_char sx) = Some sx.
Proof.
  induction 1 as [|x sx Hx _ IH]; [reflexivity|].
  cbn [List.map alphabet_values]. rewrite (alphabet_value_char Hx), IH.
  reflexivity.
Qed.

Lemma filter_ws_chars sx pads :
  Forall (fun x => x < 64) sx ->
  Forall (fun c => c = c_pad) pads ->
  filter (fun c => negb (is_ascii_ws c)) (List.map alphabet_char sx ++ pads)
  = List.map alphabet_char sx ++ pads.
Proof.
  intros Hsx Hp. rewrite filter_app. f_equal.
  - induction Hsx as [|x sx Hx _ IH]; [reflexivity|].
    cbn [List.map filter]. rewrite (proj1 (alphabet_char_plain Hx)).
    cbn [negb]. rewrite IH. reflexivity.
  - induction Hp as [|c pads -> _ IH]; [reflexivity|].
    cbn [filter]. change (negb (is_ascii_ws c_pad)) with true. cbv iota.
    rewrite IH. reflexivity.
Qed.

Lemma strip_padding_plain (u pads : jsstring) :
  (forall v x, u = v ++ [x] -> x <> c_pad) ->
  pads = [] \/ pads = [c_pad] \/ pads = [c_pad; c_pad] ->
  (List.length (u ++ pads) mod 4 = 0)%nat ->
  strip_padding (u ++ pads) = u.
Proof.
  intros Hplain Hpads Hlen. unfold strip_padding. rewrite Hlen. cbn [Nat.eqb].
  rewrite rev_app_distr.
  assert (Hrev : forall q r, rev u = q :: r -> q <> c_pad).
  { intros q r Hr. apply (Hplain (rev r)).
    rewrite <- (rev_involutive u), Hr. reflexivity. }
  destruct Hpads as [->|[->| ->]]; cbn [rev app].
  - rewrite app_nil_r. destruct (rev u) as [|q r] eqn:Hr; [reflexivity|].
    destruct (N.eqb_spec q c_pad) as [Heq|_]; [|reflexivity].
    exfalso. exact (Hrev _ _ eq_refl Heq).
  - rewrite N.eqb_refl. destruct (rev u) as [|q r] eqn:Hr.
    + rewrite <- (rev_involutive u), Hr. reflexivity.
    + destruct (N.eqb_spec q c_pad) as [Heq|_].
      * exfalso. exact (Hrev _ _ eq_refl Heq).
      * rewrite <- Hr. apply rev_involutive.
  - rewrite !N.eqb_refl. apply rev_involutive.
Qed.

(** [atob] undoes [btoa] on every binary string. *)
Lemma atob_btoa (s : jsstring) :
  Forall (fun x => x < 256) s ->
  btoa s = Ok (encode_octets s) /\ atob (encode_octets s) = Ok s.
Proof.
  intros Hs. split.
  - unfold btoa. replace (forallb _ s) with true; [reflexivity|].
    symmetry. apply forallb_forall. intros x Hx.
    rewrite Forall_forall in Hs. apply N.leb_le. specialize (Hs x Hx). lia.
  - destruct (unpadded_sextets Hs) as [sx [Henc [Hsx [Hdec Hlen]]]].
    unfold atob. rewrite encode_octets_split, Henc.
    rewrite filter_ws_chars.
    2: exact Hsx.
    2:{ destruct (padding_cases s) as [->|[->| ->]]; repeat constructor. }
    rewrite strip_padding_plain.
    + rewrite length_map.
      destruct (Nat.eqb_spec (List.length sx mod 4) 1) as [Habs|_];
        [contradiction|].
      rewrite (alphabet_values_chars Hsx), Hdec. reflexivity.
    + intros v x Hv.
      assert (Hin : In x (List.map alphabet_char sx))
        by (rewrite Hv; apply in_or_app; right; left; reflexivity).
      apply in_map_iff in Hin. destruct Hin as [n [<- Hn]].
      rewrite Forall_forall in Hsx. apply alphabet_char_plain, Hsx, Hn.
    + apply padding_cases.
    + rewrite <- Henc, <- encode_octets_split. apply length_encode_octets.
Qed.

End Base64RoundTrip.



Section Base64Bytes.

Lemma CHUNK_pos : (0 < CHUNK)%nat.
Proof. apply Nat.ltb_lt. vm_compute. reflexivity. Qed.

Lemma byte_of_N_to_N (b : byte) : byte_of_N (Byte.to_N b) = b.
Proof.
  unfold byte_of_N. pose proof (Byte.to_N_bounded b) as Hb.
  rewrite N.mod_small by lia. rewrite Byte.of_to_N. reflexivity.
Qed.

Lemma to_N_byte_of_N (n : N) : n < 256 -> Byte.to_N (byte_of_N n) = n.
Proof.
  intros Hn. unfold byte_of_N. rewrite N.mod_small by exact Hn.
  destruct (Byte.of_N n) as [b|] eqn:E.
  - apply Byte.to_of_N. exact E.
  - apply Byte.of_N_None_iff in E. lia.
Qed.

Lemma fromCharCode_binary (u8 : bytes) : Forall (fun x => x < 256) (fromCharCode u8).
Proof.
  unfold fromCharCode. apply Forall_forall. intros x Hx.
  apply in_map_iff in Hx. destruct Hx as [b [<- _]].
  pose proof (Byte.to_N_bounded b). lia.
Qed.

(** The loop of [base64Encode] turns the whole array into a string. *)
Lemma base64Encode_loop_all (u8 : bytes) :
  forall fuel idx result,
    (List.length u8 - idx < fuel)%nat ->
    base64Encode_loop fuel u8 idx result
    = result ++ fromCharCode (skipn idx u8).
Proof.
  pose proof CHUNK_pos as Hc.
  induction fuel as [|fuel IH]; intros idx result Hfuel; [lia|].
  cbn [base64Encode_loop].
  destruct (Nat.ltb_spec idx (List.length u8)) as [Hlt|Hge].
  - rewrite IH by lia. rewrite <- app_assoc. f_equal.
    unfold fromCharCode, subarray. rewrite <- map_app. f_equal.
    destruct (Nat.le_gt_cases (idx + CHUNK) (List.length u8)) as [Hle|Hgt].
    + rewrite Nat.min_l by exact Hle.
      replace (idx + CHUNK - idx)%nat with CHUNK by lia.
      rewrite (Nat.add_comm idx CHUNK), <- skipn_skipn.
      apply firstn_skipn.
    + rewrite Nat.min_r by lia.
      rewrite (@skipn_all2 _ (idx + CHUNK)%nat u8) by lia. rewrite app_nil_r.
      apply firstn_all2. rewrite length_skipn. lia.
  - rewrite skipn_all2 by exact Hge. symmetry. apply app_nil_r.
Qed.

Lemma base64Encode_btoa (u8 : bytes) :
  base64Encode u8 = Ok (Base64.encode_octets (fromCharCode u8)).
Proof.
  unfold base64Encode. rewrite base64Encode_loop_all by lia.
  cbn [skipn app]. apply atob_btoa. apply fromCharCode_binary.
Qed.

(** [base64Decode] undoes [base64Encode]. *)
Lemma base64_round_trip (u8 : bytes) :
  exists b64, base64Encode u8 = Ok b64 /\ base64Decode b64 = Ok u8.
Proof.
  exists (Base64.encode_octets (fromCharCode u8)).
  split; [apply base64Encode_btoa|].
  unfold base64Decode.
  rewrite (proj2 (atob_btoa (fromCharCode_binary u8))).
  cbn [obind]. f_equal. unfold fromCharCode. rewrite map_map.
  rewrite <- (map_id u8) at 2. apply map_ext. apply byte_of_N_to_N.
Qed.

End Base64Bytes.

(** ** UTF-8 round trip *)

Ltac prove_cond :=
  repeat (match goal with
          | |- context [?a =? ?b] => destruct (N.eqb_spec a b)
          | |- context [?a <=? ?b] => destruct (N.leb_spec a b)
          | |- context [?a <? ?b] => destruct (N.ltb_spec a b)
          end; cbv iota);
  cbn [andb orb negb]; first [reflexivity | exfalso; lia].

(** Settle one conditional of the goal whose test is decided by the
    hypotheses. *)
Ltac decide_if :=
  match goal with
  | |- context [if ?c then _ else _] =>
      first [ let H := fresh in
              assert (H : c = true) by prove_cond; rewrite H; clear H
            | let H := fresh in
              assert (H : c = false) by prove_cond; rewrite H; clear H ]
  end;
  cbv iota.

Section TextRoundTrip.

Import Encoding.

(** Run the decoder over the bytes at the head of the input. *)
Ltac run_step :=
  cbn [run app]; unfold step, lead;
  cbn [bytes_needed bytes_seen code_point lower_boundary upper_boundary initial];
  repeat (decide_if;
          cbn [app bytes_needed bytes_seen code_point lower_boundary
               upper_boundary initial]).

(** The decoder reads back the encoding of a scalar value. *)
Lemma run_octets cp rest :
  scalar cp -> run initial (utf8_octets cp ++ rest) = cp :: run initial rest.
Proof.
  intros [Hmax Hsur]. unfold utf8_octets.
  destruct (N.ltb_spec cp 128);
    [|destruct (N.ltb_spec cp 2048); [|destruct (N.ltb_spec cp 65536)]].
  - run_step. reflexivity.
  - run_step. f_equal. lia.
  - run_step. f_equal. lia.
  - run_step. f_equal. lia.
Qed.

Lemma utf8_octets_binary cp :
  scalar cp -> Forall (fun x => x < 256) (utf8_octets cp).
Proof.
  intros [Hmax _]. unfold utf8_octets.
  destruct (N.ltb_spec cp 128);
    [|destruct (N.ltb_spec cp 2048); [|destruct (N.ltb_spec cp 65536)]];
    repeat (constructor; [lia|]); constructor.
Qed.

Lemma run_scalars cps :
  Forall scalar cps -> run initial (flat_map utf8_octets cps) = cps.
Proof.
  induction 1 as [|cp cps Hcp _ IH]; [reflexivity|].
  cbn [flat_map]. rewrite (run_octets _ Hcp), IH. reflexivity.
Qed.

Lemma octets_through_bytes l :
  Forall (fun x => x < 256) l -> List.map Byte.to_N (List.map byte_of_N l) = l.
Proof.
  induction 1 as [|x l Hx _ IH]; [reflexivity|].
  cbn [List.map]. rewrite (to_N_byte_of_N Hx), IH. reflexivity.
Qed.

Lemma flat_map_binary cps :
  Forall scalar cps -> Forall (fun x => x < 256) (flat_map utf8_octets cps).
Proof.
  induction 1 as [|cp cps Hcp _ IH]; [constructor|].
  cbn [flat_map]. apply Forall_app. split; [apply utf8_octets_binary, Hcp|exact IH].
Qed.

(** The scalar values of a well-formed string are scalar values, and
    their UTF-16 encoding is the string. *)
Lemma scalar_values_well_formed :
  forall n s, (List.length s <= n)%nat -> well_formed s = true ->
    Forall scalar (scalar_values s)
    /\ flat_map utf16_units (scalar_values s) = s.
Proof.
  induction n as [|n IH]; intros s Hlen Hwf.
  - destruct s; [split; [constructor|reflexivity]|cbn in Hlen; lia].
  - destruct s as [|c t]; [split; [constructor|reflexivity]|].
    cbn [well_formed scalar_values] in *.
    destruct (is_high c) eqn:Hh.
    + destruct t as [|d r]; [discriminate|].
      apply andb_true_iff in Hwf. destruct Hwf as [Hl Hr]. rewrite Hl.
      destruct (IH r ltac:(cbn in Hlen; lia) Hr) as [Hsc Hu].
      unfold is_high, is_low in Hh, Hl.
      apply andb_true_iff in Hh, Hl.
      destruct Hh as [Hh1 Hh2], Hl as [Hl1 Hl2].
      apply N.leb_le in Hh1, Hh2, Hl1, Hl2.
      split.
      * constructor; [|exact Hsc]. unfold scalar, pair_value. lia.
      * cbn [flat_map]. rewrite Hu. unfold utf16_units, pair_value.
        decide_if. cbn [app]. f_equal; [lia|]. f_equal. lia.
    + destruct (is_low c) eqn:Hl; [discriminate|].
      apply andb_true_iff in Hwf. destruct Hwf as [Hc Ht].
      apply N.ltb_lt in Hc.
      destruct (IH t ltac:(cbn in Hlen; lia) Ht) as [Hsc Hu].
      unfold is_high, is_low in Hh, Hl.
      apply andb_false_iff in Hh, Hl.
      rewrite !N.leb_gt in Hh, Hl.
      split.
      * constructor; [|exact Hsc]. unfold scalar. lia.
      * cbn [flat_map]. rewrite Hu. unfold utf16_units.
        decide_if. reflexivity.
Qed.

Lemma drop_bom_scalar_values s :
  starts_with_bom s = false -> drop_bom (scalar_values s) = scalar_values s.
Proof.
  destruct s as [|c t]; [reflexivity|]. cbn [starts_with_bom scalar_values].
  intros Hb. apply N.eqb_neq in Hb. unfold byte_order_mark in *.
  destruct (is_high c) eqn:Hh.
  - unfold is_high in Hh. apply andb_true_iff in Hh. destruct Hh as [Hh1 Hh2].
    apply N.leb_le in Hh1, Hh2.
    destruct t as [|d r]; [reflexivity|].
    destruct (is_low d) eqn:Hl; [|reflexivity].
    unfold is_low in Hl. apply andb_true_iff in Hl. destruct Hl as [Hl1 Hl2].
    apply N.leb_le in Hl1, Hl2.
    unfold drop_bom, pair_value, byte_order_mark. decide_if. reflexivity.
  - destruct (is_low c); [reflexivity|].
    unfold drop_bom, byte_order_mark. decide_if. reflexivity.
Qed.

(** What decoding the encoding of a string gives in general. *)
Lemma decode_encode (s : jsstring) :
  well_formed s = true ->
  starts_with_bom s = false ->
  TextDecoder_decode (TextEncoder_encode s) = s.
Proof.
  intros Hwf Hbom.
  destruct (@scalar_values_well_formed _ s (le_n _) Hwf) as [Hsc Hu].
  unfold TextDecoder_decode, TextEncoder_encode.
  rewrite (octets_through_bytes (flat_map_binary Hsc)).
  rewrite (run_scalars Hsc), (drop_bom_scalar_values _ Hbom).
  exact Hu.
Qed.

End TextRoundTrip.

(** ** Properties of the credential vault *)

Section VaultProperties.

Variable subtle : SubtleCrypto.

(** [encryptApiKey] always succeeds, and the object it returns decodes to
    the salt, the nonce and the AES-GCM output. *)
Lemma encryptApiKey_result (apiKeyPlain passphrase : jsstring) (e : Entropy) :
  exists obj,
    fst (encryptApiKey subtle apiKeyPlain passphrase e) = Ok obj
    /\ base64Decode (salt obj) = Ok (drawn_salt e)
    /\ base64Decode (iv obj) = Ok (drawn_iv e)
    /\ base64Decode (ciphertext obj) = Ok (sealed subtle apiKeyPlain passphrase e).
Proof.
  destruct (base64_round_trip (drawn_salt e)) as [s [Hs Hs']].
  destruct (base64_round_trip (drawn_iv e)) as [i [Hi Hi']].
  destruct (base64_round_trip (sealed subtle apiKeyPlain passphrase e)) as [c [Hc Hc']].
  exists {| ciphertext := c; iv := i; salt := s |}.
  split; [|cbn [salt iv ciphertext]; auto].
  unfold encryptApiKey, sealed, drawn_iv, drawn_salt, getRandomValues in *.
  cbn [fst snd pool drawn] in *. rewrite Hc, Hi, Hs. reflexivity.
Qed.

(** What [decryptApiKey] makes, under any passphrase, of the object an
    encryption returned. *)
Lemma decryptApiKey_of_encrypted (apiKeyPlain passphrase passphrase' : jsstring)
    (e : Entropy) (obj : EncryptedObj) :
  fst (encryptApiKey subtle apiKeyPlain passphrase e) = Ok obj ->
  decryptApiKey subtle obj passphrase'
  = match decrypt subtle {| Alg.iv := drawn_iv e |}
            (deriveKeyFromPassphrase subtle passphrase' (drawn_salt e))
            (sealed subtle apiKeyPlain passphrase e) with
    | Some plainBuffer => Ok (Encoding.TextDecoder_decode plainBuffer)
    | None => Thrown OperationError
    end.
Proof.
  intros Henc.
  destruct (encryptApiKey_result apiKeyPlain passphrase e)
    as [obj' [Henc' [Hs [Hi Hc]]]].
  rewrite Henc in Henc'. injection Henc' as <-.
  unfold decryptApiKey. rewrite Hs, Hi, Hc. reflexivity.
Qed.

(** Decrypting with the passphrase of the encryption gives back the
    plaintext as the text codec returns it. *)
Lemma decrypt_encrypt_general (apiKeyPlain passphrase : jsstring) (e : Entropy) :
  decrypts_own subtle ->
  exists obj,
    fst (encryptApiKey subtle apiKeyPlain passphrase e) = Ok obj
    /\ decryptApiKey subtle obj passphrase
       = Ok (Encoding.TextDecoder_decode (Encoding.TextEncoder_encode apiKeyPlain)).
Proof.
  intros Hown.
  destruct (encryptApiKey_result apiKeyPlain passphrase e) as [obj [Henc _]].
  exists obj. split; [exact Henc|].
  rewrite (decryptApiKey_of_encrypted _ _ passphrase _ Henc).
  unfold sealed. rewrite Hown. reflexivity.
Qed.

Lemma round_trip_of_well_formed
    (apiKeyPlain passphrase : jsstring) (e : Entropy) :
  decrypts_own subtle ->
  well_formed apiKeyPlain = true ->
  starts_with_bom apiKeyPlain = false ->
  exists obj,
    fst (encryptApiKey subtle apiKeyPlain passphrase e) = Ok obj
    /\ decryptApiKey subtle obj passphrase = Ok apiKeyPlain.
Proof.
  intros Hown Hwf Hbom.
  destruct (@decrypt_encrypt_general apiKeyPlain passphrase e Hown)
    as [obj [Henc Hdec]].
  exists obj. split; [exact Henc|].
  rewrite Hdec. f_equal. apply decode_encode; assumption.
Qed.

(** C1, amended: for a plaintext that is a well-formed string (16-bit
    code units, every surrogate paired) and does not open with U+FEFF, and
    any passphrase and state of the random source, encryption succeeds and
    decrypting its result with the same passphrase returns the plaintext,
    provided AES-GCM decrypts what it encrypted. *)
Theorem decrypt_encrypt_well_formed
    (apiKeyPlain passphrase : jsstring) (e : Entropy) :
  decrypts_own subtle ->
  well_formed apiKeyPlain = true ->
  starts_with_bom apiKeyPlain = false ->
  exists obj,
    fst (encryptApiKey subtle apiKeyPlain passphrase e) = Ok obj
    /\ decryptApiKey subtle obj passphrase = Ok apiKeyPlain.
Proof.
  apply round_trip_of_well_formed.
Qed.


(** Two passphrases with one UTF-8 encoding open the same objects. *)
Lemma same_encoding_same_decryption (passphrase passphrase' : jsstring)
    (obj : EncryptedObj) :
  Encoding.TextEncoder_encode passphrase' = Encoding.TextEncoder_encode passphrase ->
  decryptApiKey subtle obj passphrase' = decryptApiKey subtle obj passphrase.
Proof.
  intros Heq. unfold decryptApiKey, deriveKeyFromPassphrase. rewrite Heq.
  reflexivity.
Qed.

(** C9: every encryption takes the next 16 bytes of the random source as
    salt and the 12 bytes after them as nonce, so that no byte of the source
    serves twice; it derives the key with PBKDF2 over the salt, 200000
    iterations of SHA-256 and a 256-bit AES-GCM target, from the UTF-8
    bytes of the passphrase; and the stored ciphertext is the AES-GCM
    encryption of the UTF-8 bytes of the plaintext under that key and
    nonce. *)
Theorem encryption_parameters (apiKeyPlain passphrase : jsstring) (e : Entropy) :
  let salt_bytes := List.map (fun i => pool e (drawn e + i)%nat) (seq 0 16) in
  let iv_bytes := List.map (fun i => pool e (drawn e + 16 + i)%nat) (seq 0 12) in
  exists obj params key,
    encryptApiKey subtle apiKeyPlain passphrase e
    = (Ok obj, {| pool := pool e; drawn := (drawn e + 16 + 12)%nat |})
    /\ List.length salt_bytes = 16%nat
    /\ List.length iv_bytes = 12%nat
    /\ base64Decode (salt obj) = Ok salt_bytes
    /\ base64Decode (iv obj) = Ok iv_bytes
    /\ Alg.salt params = salt_bytes
    /\ 200000 <= Alg.iterations params
    /\ Alg.hash params = Alg.SHA_256
    /\ key = deriveKey subtle params
               (importKey subtle (Encoding.TextEncoder_encode passphrase))
               {| Alg.name := Alg.AES_GCM; Alg.length := 256 |}
    /\ base64Decode (ciphertext obj)
       = Ok (encrypt subtle {| Alg.iv := iv_bytes |} key
               (Encoding.TextEncoder_encode apiKeyPlain)).
Proof.
  intros salt_bytes iv_bytes.
  destruct (encryptApiKey_result apiKeyPlain passphrase e)
    as [obj [Henc [Hs [Hi Hc]]]].
  exists obj,
    {| Alg.salt := salt_bytes; Alg.iterations := 200000; Alg.hash := Alg.SHA_256 |},
    (deriveKeyFromPassphrase subtle passphrase salt_bytes).
  split.
  - rewrite (surjective_pairing (encryptApiKey subtle apiKeyPlain passphrase e)).
    rewrite Henc. reflexivity.
  - repeat split; first [reflexivity | assumption | cbn; lia].
Qed.

End VaultProperties.

(** ** The second test double *)





Lemma Tagged_derives_by_hmac_key :
  derives_by_hmac_key Tagged.digest Tagged.subtle.
Proof.
  intros params target m m' Hm. cbn [deriveKey importKey Tagged.subtle].
  rewrite Hm. reflexivity.
Qed.

(** ** Decrypting under another passphrase *)

Section OtherPassphrase.

Variable subtle : SubtleCrypto.
Variable digest : bytes -> bytes.



(** A passphrase with the same HMAC key opens what the other sealed. *)
Lemma same_hmac_key_accepted (apiKeyPlain passphrase passphrase' : jsstring)
    (e : Entropy) :
  decrypts_own subtle ->
  derives_by_hmac_key digest subtle ->
  hmac_key digest (Encoding.TextEncoder_encode passphrase')
  = hmac_key digest (Encoding.TextEncoder_encode passphrase) ->
  exists obj,
    fst (encryptApiKey subtle apiKeyPlain passphrase e) = Ok obj
    /\ decryptApiKey subtle obj passphrase'
       = Ok (Encoding.TextDecoder_decode (Encoding.TextEncoder_encode apiKeyPlain)).
Proof.
  intros Hown Hby Hkeys.
  destruct (encryptApiKey_result subtle apiKeyPlain passphrase e) as [obj [Henc _]].
  exists obj. split; [exact Henc|].
  rewrite (decryptApiKey_of_encrypted subtle _ _ passphrase' _ Henc).
  unfold deriveKeyFromPassphrase. rewrite (Hby _ _ _ _ Hkeys).
  unfold sealed, deriveKeyFromPassphrase. rewrite Hown. reflexivity.
Qed.

End OtherPassphrase.

(** ** The vault against the test double *)

Lemma Mock_decrypts_own : decrypts_own Mock.subtle.
Proof.
  intros p k m. cbn. rewrite (Byte.byte_dec_lb (eq_refl k)). reflexivity.
Qed.

Lemma Mock_rejects_other_keys : rejects_other_keys Mock.subtle.
Proof.
  intros p k k' m Hk. cbn. destruct (Byte.eqb k k') eqn:E; [|reflexivity].
  exfalso. apply Hk. symmetry. apply Byte.byte_dec_bl. exact E.
Qed.

Lemma decrypt_encrypt_well_formed_witness :
  exists obj,
    fst (encryptApiKey Mock.subtle example_key example_passphrase Mock.entropy)
    = Ok obj
    /\ decryptApiKey Mock.subtle obj example_passphrase = Ok example_key.
Proof.
  apply decrypt_encrypt_well_formed;
    [exact Mock_decrypts_own | reflexivity | reflexivity].
Defined.

(** Whatever the primitives, as long as AES-GCM decrypts what it
    encrypted: a plaintext made of one unpaired surrogate comes back as
    U+FFFD, and a plaintext that opens with U+FEFF comes back without it. *)
Lemma plaintext_not_recovered (subtle : SubtleCrypto) (passphrase : jsstring)
    (e : Entropy) :
  decrypts_own subtle ->
  (exists obj,
      fst (encryptApiKey subtle [55296] passphrase e) = Ok obj
      /\ decryptApiKey subtle obj passphrase = Ok [65533])
  /\ (exists obj,
      fst (encryptApiKey subtle (65279 :: lit "key") passphrase e) = Ok obj
      /\ decryptApiKey subtle obj passphrase = Ok (lit "key")).
Proof.
  intros Hown. split.
  - destruct (encryptApiKey_result subtle [55296] passphrase e) as [obj [Henc _]].
    exists obj. split; [exact Henc|].
    rewrite (decryptApiKey_of_encrypted _ _ _ passphrase _ Henc).
    unfold sealed. rewrite Hown. reflexivity.
  - destruct (encryptApiKey_result subtle (65279 :: lit "key") passphrase e)
      as [obj [Henc _]].
    exists obj. split; [exact Henc|].
    rewrite (decryptApiKey_of_encrypted _ _ _ passphrase _ Henc).
    unfold sealed. rewrite Hown. reflexivity.
Qed.

(** C1 fails as stated: the plaintext made of the unpaired surrogate
    U+D800 is encrypted, and decrypting with the same passphrase returns
    U+FFFD instead. *)
Lemma lone_surrogate_plaintext_not_recovered :
  exists obj,
    fst (encryptApiKey Mock.subtle [55296] example_passphrase Mock.entropy) = Ok obj
    /\ decryptApiKey Mock.subtle obj example_passphrase = Ok [65533]
    /\ decryptApiKey Mock.subtle obj example_passphrase <> Ok [55296].
Proof.
  eexists. split; [vm_compute; reflexivity|].
  split; [vm_compute; reflexivity|vm_compute; discriminate].
Qed.


(** Whatever the primitives, as long as AES-GCM decrypts what it
    encrypted: the passphrase U+FFFD opens what the passphrase U+D800
    sealed, the two having the same UTF-8 bytes. *)
Lemma other_passphrase_accepted (subtle : SubtleCrypto) (apiKeyPlain : jsstring)
    (e : Entropy) :
  decrypts_own subtle ->
  well_formed apiKeyPlain = true ->
  starts_with_bom apiKeyPlain = false ->
  exists obj,
    fst (encryptApiKey subtle apiKeyPlain [55296] e) = Ok obj
    /\ decryptApiKey subtle obj [65533] = Ok apiKeyPlain.
Proof.
  intros Hown Hwf Hbom.
  destruct (@round_trip_of_well_formed subtle apiKeyPlain [55296] e
              Hown Hwf Hbom) as [obj [Henc Hdec]].
  exists obj. split; [exact Henc|].
  rewrite <- Hdec. apply same_encoding_same_decryption. reflexivity.
Qed.



(** ** More on [base64Encode] and [base64Decode] *)

Section Base64Extra.

Import Base64 Base64Aux.

Lemma length_encode_octets_exact l :
  List.length (encode_octets l) = (4 * ((List.length l + 2) / 3))%nat.
Proof.
  induction l as [|a|a b|a b c r IH] using list_ind3; try reflexivity.
  cbn [encode_octets List.length]. rewrite IH.
  replace (S (S (S (List.length r))) + 2)%nat
    with (1 * 3 + (List.length r + 2))%nat by lia.
  rewrite Nat.div_add_l by lia. lia.
Qed.

Lemma encode_octets_alphabet l :
  Forall (fun x => x < 256) l ->
  Forall (fun c => c = c_pad \/ exists n, n < 64 /\ c = alphabet_char n)
         (encode_octets l).
Proof.
  intros Hl. rewrite encode_octets_split. apply Forall_app. split.
  - destruct (unpadded_sextets Hl) as [sx [-> [Hsx _]]].
    apply Forall_forall. intros c Hc. apply in_map_iff in Hc.
    destruct Hc as [n [<- Hn]]. right. exists n. split; [|reflexivity].
    rewrite Forall_forall in Hsx. apply Hsx, Hn.
  - destruct (padding_cases l) as [->|[->| ->]]; repeat constructor; auto.
Qed.

(** X1: decoding the encoding of a byte array gives the array back,
    whatever its length; encoding never throws. *)
Theorem base64Decode_inverts_base64Encode (u8 : bytes) :
  exists b64, base64Encode u8 = Ok b64 /\ base64Decode b64 = Ok u8.
Proof. apply base64_round_trip. Qed.

(** X2: the encoding of [n] bytes has 4 * ceil(n / 3) characters, each of
    them a letter, a digit, plus, slash or the pad sign. *)
Theorem base64Encode_shape (u8 : bytes) :
  exists b64,
    base64Encode u8 = Ok b64
    /\ List.length b64 = (4 * ((List.length u8 + 2) / 3))%nat
    /\ Forall (fun c => (65 <= c <= 90) \/ (97 <= c <= 122) \/ (48 <= c <= 57)
                        \/ c = 43 \/ c = 47 \/ c = 61) b64.
Proof.
  exists (encode_octets (fromCharCode u8)).
  split; [apply base64Encode_btoa|]. split.
  - rewrite length_encode_octets_exact. unfold fromCharCode.
    rewrite length_map. reflexivity.
  - pose proof (encode_octets_alphabet (fromCharCode_binary u8)) as H.
    rewrite Forall_forall in *. intros c Hc. specialize (H c Hc).
    destruct H as [->|[n [Hn ->]]]; [unfold c_pad; lia|].
    unfold alphabet_char. nbool; lia.
Qed.

Lemma strip_padding_keeps (c : code_unit) (s : jsstring) :
  In c s -> c <> c_pad -> In c (strip_padding s).
Proof.
  intros Hin Hc. unfold strip_padding.
  destruct (List.length s mod 4 =? 0)%nat; [|exact Hin].
  destruct (rev s) as [|p r] eqn:Hr; [exact Hin|].
  destruct (N.eqb_spec p c_pad) as [->|_]; [|exact Hin].
  assert (Hs : s = rev r ++ [c_pad]).
  { rewrite <- (rev_involutive s), Hr. reflexivity. }
  assert (Hin' : In c (rev r)).
  { rewrite Hs in Hin. apply in_app_or in Hin.
    destruct Hin as [H|[H|[]]]; [exact H|congruence]. }
  destruct r as [|q r']; [exact Hin'|].
  destruct (N.eqb_spec q c_pad) as [->|_]; [|exact Hin'].
  cbn [rev] in Hin'. apply in_app_or in Hin'.
  destruct Hin' as [H|[H|[]]]; [exact H|congruence].
Qed.

Lemma alphabet_values_foreign (c : code_unit) (s : jsstring) :
  In c s -> alphabet_value c = None -> alphabet_values s = None.
Proof.
  induction s as [|x s IH]; intros Hin Hc; [destruct Hin|].
  cbn [alphabet_values]. destruct Hin as [->|Hin].
  - rewrite Hc. reflexivity.
  - rewrite (IH Hin Hc). destruct (alphabet_value x); reflexivity.
Qed.

Lemma base64Decode_foreign (b64 : jsstring) (c : code_unit) :
  In c b64 ->
  alphabet_value c = None ->
  c <> c_pad ->
  is_ascii_ws c = false ->
  base64Decode b64 = Thrown InvalidCharacterError.
Proof.
  intros Hin Hval Hpad Hws. unfold base64Decode, atob.
  set (data := strip_padding _).
  assert (Hdata : In c data).
  { apply strip_padding_keeps; [|exact Hpad].
    apply filter_In. split; [exact Hin|]. rewrite Hws. reflexivity. }
  destruct (List.length data mod 4 =? 1)%nat; [reflexivity|].
  rewrite (alphabet_values_foreign _ _ Hdata Hval). reflexivity.
Qed.

(** X3: a string that holds a character which is neither of the base64
    alphabet, nor the pad sign, nor ASCII white space is refused by
    [base64Decode] with an InvalidCharacterError. *)
Theorem base64Decode_refuses_foreign_character (b64 : jsstring) (c : code_unit) :
  In c b64 ->
  alphabet_value c = None ->
  c <> c_pad ->
  is_ascii_ws c = false ->
  base64Decode b64 = Thrown InvalidCharacterError.
Proof. exact (@base64Decode_foreign b64 c). Qed.

End Base64Extra.

Lemma base64Decode_refuses_foreign_character_witness :
  base64Decode (lit "QUJD!A==") = Thrown InvalidCharacterError.
Proof.
  apply (@base64Decode_refuses_foreign_character (lit "QUJD!A==") 33);
    [vm_compute; tauto | reflexivity | discriminate | reflexivity].
Defined.

(** ** Properties of [escapeHtml] *)

Section HtmlProperties.

Variable ToString : jsval -> jsstring.

Lemma flat_map_flat_map {A B C} (f : A -> list B) (g : B -> list C) (l : list A) :
  flat_map g (flat_map f l) = flat_map (fun x => flat_map g (f x)) l.
Proof.
  induction l as [|x l IH]; [reflexivity|].
  cbn [flat_map]. rewrite flat_map_app, IH. reflexivity.
Qed.

(** The five passes of [escapeHtml] amount to one pass. *)
Lemma escapeHtml_one_pass (v : jsval) :
  nullish v = false ->
  escapeHtml ToString v = flat_map escaped_unit (interpolate ToString v).
Proof.
  intros Hv. unfold escapeHtml, replaceAll. rewrite Hv.
  rewrite !flat_map_flat_map. apply flat_map_ext. intros c.
  unfold escaped_unit.
  destruct (N.eqb_spec c 38) as [->|H38]; [reflexivity|].
  destruct (N.eqb_spec c 60) as [->|H60]; [reflexivity|].
  destruct (N.eqb_spec c 62) as [->|H62]; [reflexivity|].
  destruct (N.eqb_spec c 34) as [->|H34]; [reflexivity|].
  destruct (N.eqb_spec c 39) as [->|H39]; [reflexivity|].
  cbn [flat_map app].
  repeat match goal with
  | |- context [c =? ?k] =>
      destruct (N.eqb_spec c k); [congruence|]; cbn [flat_map app]
  end.
  reflexivity.
Qed.

Lemma escaped_unit_safe (c : code_unit) :
  Forall (fun x => x <> 60 /\ x <> 62 /\ x <> 34 /\ x <> 39) (escaped_unit c).
Proof.
  unfold escaped_unit.
  destruct (N.eqb_spec c 38); [repeat constructor; discriminate|].
  destruct (N.eqb_spec c 60); [repeat constructor; discriminate|].
  destruct (N.eqb_spec c 62); [repeat constructor; discriminate|].
  destruct (N.eqb_spec c 34); [repeat constructor; discriminate|].
  destruct (N.eqb_spec c 39); [repeat constructor; discriminate|].
  repeat constructor; assumption.
Qed.

Lemma ampersand_opens_entity (l : jsstring) :
  forall pre post,
    flat_map escaped_unit l = pre ++ 38 :: post ->
    exists tail rest, In tail entity_tails /\ post = tail ++ rest.
Proof.
  induction l as [|c l IH]; intros pre post H.
  - destruct pre; discriminate H.
  - cbn [flat_map] in H. unfold escaped_unit in H.
    assert (Hplain : forall x, x <> 38 -> [x] ++ flat_map escaped_unit l
                       = pre ++ 38 :: post ->
              exists tail rest, In tail entity_tails /\ post = tail ++ rest).
    { intros x Hx Hp. destruct pre as [|p pre]; cbn in Hp.
      - injection Hp as Hp _. congruence.
      - injection Hp as _ Hp. exact (IH _ _ Hp). }
    assert (Hent : forall tail, In tail entity_tails ->
              (38 :: tail) ++ flat_map escaped_unit l = pre ++ 38 :: post ->
              exists tail rest, In tail entity_tails /\ post = tail ++ rest).
    { intros tail Ht Hp. destruct pre as [|p pre].
      - cbn in Hp. injection Hp as Hp. exists tail, (flat_map escaped_unit l).
        split; [exact Ht|symmetry; exact Hp].
      - cbn in Hp. injection Hp as _ Hp.
        cbn in Ht.
        destruct Ht as [<-|[<-|[<-|[<-|[<-|[]]]]]]; cbn in Hp;
          repeat (destruct pre as [|? pre]; cbn in Hp;
                  [try discriminate Hp; try (exact (IH [] _ Hp))
                  |injection Hp as _ Hp]);
          try (exact (IH _ _ Hp)). }
    destruct (N.eqb_spec c 38); [apply (Hent (lit "amp;")); cbn; auto|].
    destruct (N.eqb_spec c 60); [apply (Hent (lit "lt;")); cbn; auto|].
    destruct (N.eqb_spec c 62); [apply (Hent (lit "gt;")); cbn; auto|].
    destruct (N.eqb_spec c 34); [apply (Hent (lit "quot;")); cbn; auto|].
    destruct (N.eqb_spec c 39); [apply (Hent (lit "#39;")); cbn; auto 7|].
    apply (Hplain c); assumption.
Qed.

Lemma escapeHtml_safe (v : jsval) :
  Forall (fun x => x <> 60 /\ x <> 62 /\ x <> 34 /\ x <> 39) (escapeHtml ToString v).
Proof.
  destruct (nullish v) eqn:Hv.
  - unfold escapeHtml. rewrite Hv. constructor.
  - rewrite (escapeHtml_one_pass _ Hv).
    apply Forall_flat_map. apply Forall_forall. intros c _.
    apply escaped_unit_safe.
Qed.

(** X4: whatever the value, the text [escapeHtml] returns holds no angle
    bracket and no quote, and each ampersand in it opens one of the five
    entities it writes; [null] and [undefined] give the empty text. *)
Theorem escapeHtml_leaves_no_markup (v : jsval) :
  Forall (fun x => x <> 60 /\ x <> 62 /\ x <> 34 /\ x <> 39) (escapeHtml ToString v)
  /\ (forall pre post,
        escapeHtml ToString v = pre ++ 38 :: post ->
        exists tail rest, In tail entity_tails /\ post = tail ++ rest)
  /\ (nullish v = true -> escapeHtml ToString v = []).
Proof.
  split; [apply escapeHtml_safe|].
  destruct (nullish v) eqn:Hv.
  - unfold escapeHtml. rewrite Hv. split; [|reflexivity].
    intros pre post H. destruct pre; discriminate H.
  - rewrite (escapeHtml_one_pass _ Hv). split; [|discriminate].
    apply ampersand_opens_entity.
Qed.

Lemma escaped_units_injective (a : jsstring) :
  forall b, flat_map escaped_unit a = flat_map escaped_unit b -> a = b.
Proof.
  assert (Hne : forall c, escaped_unit c <> []).
  { intros c. unfold escaped_unit.
    repeat match goal with |- context [c =? ?k] => destruct (c =? k) end;
      discriminate. }
  induction a as [|x a IH]; intros [|y b] H; cbn [flat_map] in H.
  - reflexivity.
  - destruct (escaped_unit y) eqn:E; [exact (False_ind _ (Hne y E))|discriminate H].
  - destruct (escaped_unit x) eqn:E; [exact (False_ind _ (Hne x E))|discriminate H].
  - unfold escaped_unit in H.
    destruct (N.eqb_spec x 38) as [->|Hx1];
    [|destruct (N.eqb_spec x 60) as [->|Hx2];
    [|destruct (N.eqb_spec x 62) as [->|Hx3];
    [|destruct (N.eqb_spec x 34) as [->|Hx4];
    [|destruct (N.eqb_spec x 39) as [->|Hx5]]]]];
    (destruct (N.eqb_spec y 38) as [->|Hy1];
    [|destruct (N.eqb_spec y 60) as [->|Hy2];
    [|destruct (N.eqb_spec y 62) as [->|Hy3];
    [|destruct (N.eqb_spec y 34) as [->|Hy4];
    [|destruct (N.eqb_spec y 39) as [->|Hy5]]]]]);
    cbn in H; try discriminate H;
    try (injection H as H; f_equal; apply IH; exact H);
    try (injection H as Hh H; congruence).
    injection H as -> H. f_equal. apply IH. exact H.
Qed.

(** X5: [escapeHtml] loses nothing: two strings with the same escaped text
    are the same string. *)
Theorem escapeHtml_injective (a b : jsstring) :
  escapeHtml ToString (Str a) = escapeHtml ToString (Str b) -> a = b.
Proof.
  rewrite !escapeHtml_one_pass by reflexivity. cbn [interpolate].
  apply escaped_units_injective.
Qed.

End HtmlProperties.

(** The text [a<b] and the value [null]. *)
Lemma escapeHtml_leaves_no_markup_witness :
  (exists tail rest, In tail entity_tails /\ lit "lt;b" = tail ++ rest)
  /\ escapeHtml Scripted.ToString Null = [].
Proof.
  split.
  - exact (proj1 (proj2 (@escapeHtml_leaves_no_markup Scripted.ToString (Str (lit "a<b"))))
             (lit "a") (lit "lt;b") eq_refl).
  - exact (proj2 (proj2 (@escapeHtml_leaves_no_markup Scripted.ToString Null)) eq_refl).
Defined.

(** The text [a<b] against itself. *)
Lemma escapeHtml_injective_witness :
  escapeHtml Scripted.ToString (Str (lit "a<b")) = lit "a&lt;b"
  /\ lit "a<b" = lit "a<b".
Proof.
  split; [reflexivity|].
  apply (@escapeHtml_injective Scripted.ToString (lit "a<b") (lit "a<b")).
  reflexivity.
Defined.

(** ** More on [extractFirstJson] *)

Section ExtractionExtra.

Lemma parse_throws_syntax_error (s : jsstring) (e : exn) :
  Json.parse s = Thrown e -> e = SyntaxError.
Proof.
  unfold Json.parse.
  destruct (Json.parse_value _ s) as [[v r]|]; [destruct (Json.skip_ws r)|];
    intros H; try discriminate H; injection H as <-; reflexivity.
Qed.

(** A text that opens with a brace parses, if at all, to an object. *)
Lemma parse_brace_object (s : jsstring) (v : jsval) :
  Json.parse (c_lbrace :: s) = Ok v -> exists members, v = Obj members.
Proof.
  unfold Json.parse.
  set (fuel := (2 * List.length (c_lbrace :: s) + 2)%nat).
  assert (Hf : exists f, fuel = S f) by (exists (2 * List.length s + 3)%nat; subst fuel; cbn; lia).
  destruct Hf as [f ->]. cbn [Json.parse_value Json.skip_ws].
  change (Json.is_ws c_lbrace) with false. cbv iota.
  change (c_lbrace =? c_lbrace) with true. cbv iota.
  destruct (Json.skip_ws s) as [|d r]; [discriminate|].
  destruct (d =? c_rbrace).
  - destruct (Json.skip_ws r); intros H; [|discriminate H].
    injection H as <-. eauto.
  - destruct (Json.parse_members f (d :: r)) as [[ms r']|]; [|discriminate].
    destruct (Json.skip_ws r'); intros H; [|discriminate H].
    injection H as <-. eauto.
Qed.

Lemma slice_head_last (s : jsstring) (a j : nat) (x y : code_unit) :
  (a <= j)%nat -> nth_error s a = Some x -> nth_error s j = Some y ->
  (exists body, slice a (j + 1) s = x :: body)
  /\ (exists front, slice a (j + 1) s = front ++ [y]).
Proof.
  intros Haj Ha Hj. unfold slice.
  assert (Hlen : (j < List.length s)%nat) by (apply nth_error_Some; congruence).
  split.
  - destruct (skipn a s) as [|h t] eqn:E.
    + assert (List.length (skipn a s) = 0%nat) by (rewrite E; reflexivity).
      rewrite length_skipn in H. lia.
    + assert (h = x).
      { assert (Hh : nth_error (skipn a s) 0 = Some h) by (rewrite E; reflexivity).
        rewrite nth_error_skipn, Nat.add_0_r in Hh. congruence. }
      subst h. replace (j + 1 - a)%nat with (S (j - a)) by lia.
      cbn [firstn]. eauto.
  - exists (firstn (j - a) (skipn a s)).
    replace (j + 1 - a)%nat with (j - a + 1)%nat by lia.
    assert (Hn : nth_error (skipn a s) (j - a) = Some y).
    { rewrite nth_error_skipn. replace (a + (j - a))%nat with j by lia. exact Hj. }
    clear - Hn. revert Hn. generalize (skipn a s) as l. generalize (j - a)%nat as n.
    induction n as [|n IH]; intros [|h l] Hn; try discriminate Hn.
    + injection Hn as ->. reflexivity.
    + cbn in Hn. cbn [Nat.add firstn app]. f_equal. apply IH. exact Hn.
Qed.

Lemma extracted_shape (v : jsval) (r : Extracted) :
  extractFirstJson v = Some r ->
  (exists members, parsed r = Obj members)
  /\ (exists body, text r = c_lbrace :: body)
  /\ (exists front, text r = front ++ [c_rbrace]).
Proof.
  intros H. destruct v; try discriminate H.
  rewrite extractFirstJson_candidates in H.
  apply first_parsed_some in H. destruct H as [Hin Hp].
  unfold candidate_slices in Hin.
  destruct (indexOf c_lbrace s) as [start|] eqn:Hs; [|destruct Hin].
  apply candidates_end_at_brace in Hin; [|reflexivity].
  destruct Hin as [j [Hj [Hnth Ht]]].
  destruct (@slice_head_last s start j c_lbrace c_rbrace Hj (@indexOf_nth c_lbrace s start Hs) Hnth)
    as [[body Hb] [front Hf]].
  rewrite <- Ht in Hb, Hf. rewrite Hb in Hp.
  split; [exact (@parse_brace_object body (parsed r) Hp)|]. split; eauto.
Qed.

(** X6: what [extractFirstJson] returns is always an object, and its text
    runs from an opening brace to a closing brace. *)
Theorem extractFirstJson_returns_object (v : jsval) (r : Extracted) :
  extractFirstJson v = Some r ->
  (exists members, parsed r = Obj members)
  /\ (exists body, text r = c_lbrace :: body)
  /\ (exists front, text r = front ++ [c_rbrace]).
Proof. exact (@extracted_shape v r). Qed.

Lemma slice_shift (pre w : jsstring) (a b : nat) :
  slice (List.length pre + a) (List.length pre + b) (pre ++ w) = slice a b w.
Proof.
  unfold slice. rewrite skipn_app.
  rewrite (@skipn_all2 _ (List.length pre + a) pre) by lia. cbn [app].
  replace (List.length pre + a - List.length pre)%nat with a by lia.
  replace (List.length pre + b - (List.length pre + a))%nat with (b - a)%nat by lia.
  reflexivity.
Qed.

Lemma scan_shift (pre w : jsstring) (start : nat) (rest : jsstring) :
  forall i depth inString escape,
    scan (pre ++ w) (List.length pre + start) rest (List.length pre + i)
         depth inString escape
    = scan w start rest i depth inString escape.
Proof.
  induction rest as [|ch rest IH]; intros i depth inString escape; [reflexivity|].
  cbn [scan]. rewrite <- !Nat.add_succ_r, !IH.
  replace (List.length pre + i + 1)%nat with (List.length pre + (i + 1))%nat by lia.
  rewrite slice_shift. reflexivity.
Qed.

Lemma indexOf_app_none c pre s :
  indexOf c pre = None ->
  indexOf c (pre ++ s)
  = match indexOf c s with
    | Some k => Some (List.length pre + k)%nat
    | None => None
    end.
Proof.
  induction pre as [|x pre IH]; cbn [indexOf app List.length].
  - intros _. destruct (indexOf c s); reflexivity.
  - destruct (x =? c); [discriminate|].
    destruct (indexOf c pre); [discriminate|].
    intros _. rewrite IH by reflexivity. destruct (indexOf c s); reflexivity.
Qed.

(** X7: text without an opening brace put before a text never changes
    what is extracted from it. *)
Theorem extractFirstJson_ignores_leading_text (pre s : jsstring) :
  indexOf c_lbrace pre = None ->
  extractFirstJson (Str (pre ++ s)) = extractFirstJson (Str s).
Proof.
  intros Hpre. rewrite !extractFirstJson_scan.
  rewrite (@indexOf_app_none c_lbrace pre s Hpre).
  destruct (indexOf c_lbrace s) as [k|]; [|reflexivity].
  rewrite skipn_app.
  rewrite (@skipn_all2 _ (List.length pre + k) pre) by lia. cbn [app].
  replace (List.length pre + k - List.length pre)%nat with k by lia.
  apply scan_shift.
Qed.

Lemma slice_within (s post : jsstring) (a b : nat) :
  (b <= List.length s)%nat -> slice a b (s ++ post) = slice a b s.
Proof.
  intros Hb. unfold slice. rewrite skipn_app, firstn_app.
  rewrite length_skipn.
  replace (b - a - (List.length s - a))%nat with 0%nat by lia.
  cbn [firstn]. apply app_nil_r.
Qed.

Lemma scan_append (s post : jsstring) (start : nat) (rest : jsstring) (r : Extracted) :
  forall i depth inString escape,
    (i + List.length rest = List.length s)%nat ->
    scan s start rest i depth inString escape = Some r ->
    scan (s ++ post) start (rest ++ post) i depth inString escape = Some r.
Proof.
  induction rest as [|ch rest IH]; intros i depth inString escape Hlen H;
    [discriminate H|].
  cbn [List.length] in Hlen.
  assert (Hstep : forall d b e,
            scan s start rest (S i) d b e = Some r ->
            scan (s ++ post) start (rest ++ post) (S i) d b e = Some r).
  { intros d b e. apply IH. lia. }
  cbn [scan app] in *.
  rewrite (@slice_within s post start (i + 1)) by lia.
  destruct escape; [apply Hstep, H|].
  destruct (str_eqb [ch] escape_literal); [apply Hstep, H|].
  destruct (ch =? c_quote); [apply Hstep, H|].
  destruct inString; [apply Hstep, H|].
  cbv zeta in *.
  destruct (ch =? c_rbrace); [|apply Hstep, H].
  destruct (_ =? 0)%Z; [|apply Hstep, H].
  destruct (Json.parse _); [exact H|apply Hstep, H].
Qed.

Lemma indexOf_app_some c s post k :
  indexOf c s = Some k -> indexOf c (s ++ post) = Some k.
Proof.
  revert k; induction s as [|x s IH]; intros k; cbn [indexOf app]; [discriminate|].
  destruct (x =? c); [auto|].
  destruct (indexOf c s) as [j|]; [|discriminate].
  intros H. rewrite (IH j eq_refl). exact H.
Qed.

(** X8: once a text gives a result, text added after it never changes the
    result. *)
Theorem extractFirstJson_ignores_trailing_text (s post : jsstring) (r : Extracted) :
  extractFirstJson (Str s) = Some r ->
  extractFirstJson (Str (s ++ post)) = Some r.
Proof.
  rewrite !extractFirstJson_scan.
  destruct (indexOf c_lbrace s) as [k|] eqn:Hk; [|discriminate].
  intros H. rewrite (@indexOf_app_some c_lbrace s post k Hk).
  pose proof (@indexOf_bound c_lbrace s k Hk) as Hb.
  rewrite skipn_app.
  replace (k - List.length s)%nat with 0%nat by lia. cbn [skipn].
  apply scan_append; [rewrite length_skipn; lia|exact H].
Qed.

Lemma first_parsed_earliest cs r :
  first_parsed cs = Some r ->
  exists before after,
    cs = before ++ text r :: after
    /\ Forall (fun c => Json.parse c = Thrown SyntaxError) before
    /\ Json.parse (text r) = Ok (parsed r).
Proof.
  induction cs as [|c cs IH]; [discriminate|].
  cbn [first_parsed]. destruct (Json.parse c) as [v|e] eqn:E.
  - intros H. injection H as <-. exists [], cs. cbn. auto.
  - intros H. destruct (IH H) as [before [after [-> [Hb Hp]]]].
    exists (c :: before), after. split; [reflexivity|]. split; [|exact Hp].
    constructor; [|exact Hb]. rewrite E. f_equal.
    exact (@parse_throws_syntax_error c e E).
Qed.

(** X9: the result is the earliest candidate slice that parses: every
    candidate the scanner met before it was refused by JSON.parse. *)
Theorem extractFirstJson_returns_earliest (s : jsstring) (r : Extracted) :
  extractFirstJson (Str s) = Some r ->
  exists before after,
    candidate_slices s = before ++ text r :: after
    /\ Forall (fun c => Json.parse c = Thrown SyntaxError) before
    /\ Json.parse (text r) = Ok (parsed r).
Proof.
  rewrite extractFirstJson_candidates. apply first_parsed_earliest.
Qed.

End ExtractionExtra.

(** An object after a greeting. *)
Lemma extractFirstJson_returns_object_witness :
  exists r,
    extractFirstJson (Str (lit "Here you go: " ++ brace_in_string_object)) = Some r
    /\ (exists members, parsed r = Obj members)
    /\ (exists body, text r = c_lbrace :: body)
    /\ (exists front, text r = front ++ [c_rbrace]).
Proof.
  exists {| text := brace_in_string_object;
            parsed := Obj [(lit "a", Str (lit "b{c}d"))] |}.
  split; [vm_compute; reflexivity|].
  apply (@extractFirstJson_returns_object
           (Str (lit "Here you go: " ++ brace_in_string_object))).
  vm_compute. reflexivity.
Defined.

(** The greeting has no brace. *)
Lemma extractFirstJson_ignores_leading_text_witness :
  extractFirstJson (Str (lit "Here you go: " ++ brace_in_string_object))
  = extractFirstJson (Str brace_in_string_object).
Proof.
  apply (@extractFirstJson_ignores_leading_text (lit "Here you go: ")).
  reflexivity.
Defined.

(** Text with an unclosed brace after the object. *)
Lemma extractFirstJson_ignores_trailing_text_witness :
  extractFirstJson (Str (brace_in_string_object ++ lit " and {more"))
  = Some {| text := brace_in_string_object;
            parsed := Obj [(lit "a", Str (lit "b{c}d"))] |}.
Proof.
  apply (@extractFirstJson_ignores_trailing_text brace_in_string_object).
  vm_compute. reflexivity.
Defined.

(** The scanner first proposes the span that ends at the brace inside the
    string. *)
Lemma extractFirstJson_returns_earliest_witness :
  exists before after,
    candidate_slices escaped_braces_object
    = before ++ escaped_braces_object :: after
    /\ Forall (fun c => Json.parse c = Thrown SyntaxError) before
    /\ Json.parse escaped_braces_object
       = Ok (Obj [(lit "a", Str ([c_quote] ++ lit "}{" ++ [c_quote]))]).
Proof.
  apply (@extractFirstJson_returns_earliest escaped_braces_object
           {| text := escaped_braces_object;
              parsed := Obj [(lit "a", Str ([c_quote] ++ lit "}{" ++ [c_quote]))] |}).
  vm_compute. reflexivity.
Defined.

(** ** Properties of [extractTextFromApiResponse] and [callGemini] *)

Section EnvelopeProperties.

Variable JSON_stringify : jsval -> jsstring.
Variable number_truthy : jsstring -> bool.
Variable endpoint : list Request -> Request -> Fetched.

Local Notation "'extractText'" := (extractTextFromApiResponse number_truthy).

Local Notation "'returns_text'" := (returns_text number_truthy).

Lemma returns_text_and_then s1 s2 :
  returns_text s1 -> returns_text s2 -> returns_text (and_then s1 s2).
Proof.
  intros H1 H2 v. unfold and_then. destruct s1 as [[x|]|e]; auto.
Qed.

Lemma returns_text_none : returns_text (Ok None).
Proof. intros v H. discriminate H. Qed.

Lemma returns_text_if_string e : returns_text (return_if_string e).
Proof.
  intros v. unfold return_if_string. destruct e as [x|err]; cbn [obind]; [|discriminate].
  destruct (typeof_string x) eqn:E; intros H; [|discriminate H].
  injection H as <-. auto.
Qed.

Lemma returns_text_bind (m : Outcome jsval) (k : jsval -> returning) :
  (forall x, returns_text (k x)) -> returns_text (obind m k).
Proof. intros Hk v. destruct m as [x|e]; cbn [obind]; [apply Hk|discriminate]. Qed.

Lemma opt_chain_value (v : jsval) :
  truthy number_truthy (opt_output_0_content_0_text v) = true ->
  output_0_content_0_text v = Ok (opt_output_0_content_0_text v).
Proof.
  unfold opt_output_0_content_0_text, output_0_content_0_text, opt, dot.
  destruct (nullish v) eqn:E0; [cbn; discriminate|]. cbn [obind].
  destruct (nullish (member "output" v)) eqn:E1; [cbn; discriminate|]. cbn [obind].
  destruct (nullish (item0 (member "output" v))) eqn:E2; [cbn; discriminate|].
  cbn [obind].
  destruct (nullish (member "content" (item0 (member "output" v)))) eqn:E3;
    [cbn; discriminate|]. cbn [obind].
  destruct (nullish (item0 (member "content" (item0 (member "output" v))))) eqn:E4;
    [cbn; discriminate|]. reflexivity.
Qed.

Lemma returns_text_chain (v : jsval) :
  returns_text (if truthy number_truthy (opt_output_0_content_0_text v)
                then (x <- output_0_content_0_text v ;; Ok (Some x))%outcome
                else Ok None).
Proof.
  destruct (truthy _ _) eqn:E; [|apply returns_text_none].
  rewrite (opt_chain_value _ E). cbn [obind]. intros x H. injection H as <-. auto.
Qed.

Lemma returns_text_try (json : jsval) : returns_text (extractText_try number_truthy json).
Proof.
  unfold extractText_try.
  apply returns_text_and_then; [|apply returns_text_chain].
  destruct (opt_length _ _); [|apply returns_text_none].
  apply returns_text_bind. intros candidates.
  apply returns_text_bind. intros cand.
  apply returns_text_and_then.
  { destruct (opt_length _ _); [apply returns_text_if_string|apply returns_text_none]. }
  apply returns_text_and_then.
  { destruct (opt_length _ _); [|apply returns_text_none].
    apply returns_text_bind. intros parts.
    destruct (opt_length _ _); [apply returns_text_if_string|apply returns_text_none]. }
  apply returns_text_and_then; [apply returns_text_chain|].
  destruct (typeof_string (opt (member "text") cand)) eqn:E; [|apply returns_text_none].
  intros x. unfold opt, dot in *.
  destruct (nullish cand); [discriminate E|]. cbn [obind].
  intros H. injection H as <-. auto.
Qed.

(** X10: the text read from an envelope is [null], a string, or a truthy
    value, never [undefined]; and it is [null] when the envelope is not an
    object. *)
Theorem extractText_result_kind (json : jsval) :
  (extractText json = Null
   \/ typeof_string (extractText json) = true
   \/ truthy number_truthy (extractText json) = true)
  /\ ((forall members, json <> Obj members) -> extractText json = Null).
Proof.
  split.
  - unfold extractTextFromApiResponse.
    pose proof (returns_text_try json) as H.
    destruct (extractText_try number_truthy json) as [[v|]|e]; auto.
  - intros H. destruct json; try reflexivity.
    exfalso. exact (H members eq_refl).
Qed.

(** X11: when the first candidate has [content.parts[0].text] and it is a
    string, that string is the text, whatever else the envelope holds. *)
Theorem extractText_first_candidate_part
    (envelope candidate content part : list (jsstring * jsval))
    (candidates parts : list jsval) (t : jsstring) :
  own (lit "candidates") envelope = Arr (Obj candidate :: candidates) ->
  own (lit "content") candidate = Obj content ->
  own (lit "parts") content = Arr (Obj part :: parts) ->
  own (lit "text") part = Str t ->
  extractText (Obj envelope) = Str t.
Proof.
  intros H1 H2 H3 H4.
  unfold extractTextFromApiResponse, extractText_try.
  cbn [opt opt_length nullish member dot item0 length_truthy obind and_then].
  rewrite H1. cbn [opt opt_length nullish member dot item0 length_truthy obind hd].
  rewrite H2. cbn [opt opt_length nullish member dot item0 length_truthy obind].
  rewrite H3. cbn [opt opt_length nullish member dot item0 length_truthy obind].
  unfold cand_content_parts_0_text.
  cbn [opt opt_length nullish member dot item0 length_truthy obind].
  rewrite H2. cbn [opt opt_length nullish member dot item0 length_truthy obind].
  rewrite H3. cbn [opt opt_length nullish member dot item0 length_truthy obind hd].
  rewrite H4. reflexivity.
Qed.

(** X12: when the first candidate has a [content.parts] whose first element
    is [null], reading its [text] throws inside the [try] block and the
    result is [null], whatever the later shapes would have found. *)
Theorem extractText_null_part_hides_other_shapes
    (envelope candidate content : list (jsstring * jsval))
    (candidates parts : list jsval) :
  own (lit "candidates") envelope = Arr (Obj candidate :: candidates) ->
  own (lit "content") candidate = Obj content ->
  own (lit "parts") content = Arr (Null :: parts) ->
  extractText (Obj envelope) = Null.
Proof.
  intros H1 H2 H3.
  unfold extractTextFromApiResponse, extractText_try.
  cbn [opt opt_length nullish member dot item0 length_truthy obind and_then].
  rewrite H1. cbn [opt opt_length nullish member dot item0 length_truthy obind hd].
  rewrite H2. cbn [opt opt_length nullish member dot item0 length_truthy obind].
  rewrite H3. cbn [opt opt_length nullish member dot item0 length_truthy obind].
  unfold cand_content_parts_0_text.
  cbn [opt opt_length nullish member dot item0 length_truthy obind].
  rewrite H2. cbn [opt opt_length nullish member dot item0 length_truthy obind].
  rewrite H3. reflexivity.
Qed.

Local Notation "'call'" := (callGemini JSON_stringify number_truthy endpoint).
Local Notation "'request'" := (request_for JSON_stringify).
Local Notation "'text_of'" := (reply_text JSON_stringify number_truthy).

(** What a call of [callGemini] does, case by case. *)
Lemma callGemini_cases (promptText model apiKey : jsstring) (sent : list Request) :
  match request promptText model apiKey with
  | Thrown e => call promptText model apiKey sent = (Thrown e, sent)
  | Ok req =>
      call promptText model apiKey sent
      = (match endpoint sent req with
         | NetworkFailure => Thrown TypeError
         | Responded res =>
             if ok res then
               match json res with
               | Ok v => Ok {| Reply.text := text_of v; Reply.rawJson := v |}
               | Thrown e => Thrown e
               end
             else Thrown (Error (http_error_message res))
         end,
         sent ++ [req])
  end.
Proof.
  unfold request_for, callGemini, bind, lift, fetch, throw, ret.
  destruct (Encoding.encodeURIComponent model) as [m|e]; cbn [obind]; [|reflexivity].
  destruct (Encoding.encodeURIComponent apiKey) as [k|e]; cbn [obind]; [|reflexivity].
  destruct (endpoint sent _) as [|res]; [reflexivity|].
  destruct (ok res); cbn [negb]; [|reflexivity].
  destruct (json res); reflexivity.
Qed.

Lemma reply_text_not_nullish (v : jsval) : nullish (text_of v) = false.
Proof.
  unfold reply_text.
  destruct (nullish (extractText v)) eqn:E; [reflexivity|exact E].
Qed.

(** X13: [callGemini] resolves only when its one request was answered with
    a status from 200 to 299 and a body that is JSON; the reply then holds
    that JSON, and a text that is neither [null] nor [undefined]. *)
Theorem callGemini_resolves_with_text
    (promptText model apiKey : jsstring) (sent sent' : list Request)
    (reply : Reply.t) :
  call promptText model apiKey sent = (Ok reply, sent') ->
  exists req res,
    sent' = sent ++ [req]
    /\ endpoint sent req = Responded res
    /\ ok res = true
    /\ json res = Ok (Reply.rawJson reply)
    /\ nullish (Reply.text reply) = false.
Proof.
  intros H. pose proof (callGemini_cases promptText model apiKey sent) as Hc.
  destruct (request promptText model apiKey) as [req|e]; rewrite Hc in H;
    [|discriminate H].
  exists req. destruct (endpoint sent req) as [|res]; [discriminate H|].
  exists res. destruct (ok res); [|discriminate H].
  destruct (json res) as [v|e]; [|discriminate H].
  injection H as <- <-. cbn [Reply.rawJson Reply.text].
  repeat split. apply reply_text_not_nullish.
Qed.

End EnvelopeProperties.


(** ** The runs of the pipeline *)

Section RunProperties.

Variable JSON_stringify : jsval -> jsstring.
Variable ToString : jsval -> jsstring.
Variable number_truthy : jsstring -> bool.
Variable exceeds : jsval -> N -> bool.
Variable endpoint : list Request -> Request -> Fetched.

Local Notation "'call'" := (callGemini JSON_stringify number_truthy endpoint).
Local Notation "'suggestions'" :=
  (fetchRestaurantSuggestions JSON_stringify ToString number_truthy exceeds endpoint).
Local Notation "'request'" := (request_for JSON_stringify).
Local Notation "'text_of'" := (reply_text JSON_stringify number_truthy).

(** A call either sends nothing, or sends its request; when it resolves,
    the request was answered with JSON whose text is the reply's. *)
Lemma callGemini_trace (promptText model apiKey : jsstring)
    (sent sent' : list Request) (out : Outcome Reply.t) :
  call promptText model apiKey sent = (out, sent') ->
  (sent' = sent /\ exists e, out = Thrown e)
  \/ exists req,
       request promptText model apiKey = Ok req
       /\ sent' = sent ++ [req]
       /\ ((exists e, out = Thrown e)
           \/ exists res v,
                endpoint sent req = Responded res /\ ok res = true
                /\ json res = Ok v
                /\ out = Ok {| Reply.text := text_of v; Reply.rawJson := v |}).
Proof.
  intros H.
  pose proof (callGemini_cases JSON_stringify number_truthy endpoint
                promptText model apiKey sent) as Hc.
  destruct (request promptText model apiKey) as [req|e]; rewrite Hc in H.
  - right. exists req. split; [reflexivity|].
    injection H as <- <-. split; [reflexivity|].
    destruct (endpoint sent req) as [|res]; [left; eauto|].
    destruct (ok res) eqn:Eok; [|left; eauto].
    destruct (json res) as [v|e] eqn:Ej; [|left; eauto].
    right. exists res, v. auto.
  - left. injection H as <- <-. eauto.
Qed.

Lemma suggestions_run (city food model apiKey : jsstring)
    (sent sent' : list Request) (out : Outcome jsval) :
  suggestions city food model apiKey sent = (out, sent') ->
  exists reqs,
    sent' = sent ++ reqs
    /\ run_requests JSON_stringify ToString number_truthy exceeds endpoint
         city food model apiKey sent reqs.
Proof.
  unfold fetchRestaurantSuggestions, bind, lift, ret. intros H.
  (* attempt 1 *)
  destruct (call (basePrompt city food) model apiKey sent) as [o1 s1] eqn:C1.
  destruct (callGemini_trace _ _ _ _ C1) as [[-> [e ->]]|[r1 [R1 [-> T1]]]].
  { injection H as _ <-. exists []. split; [symmetry; apply app_nil_r|left; reflexivity]. }
  assert (Hone : forall o, (o, sent ++ [r1]) = (out, sent') ->
            exists reqs, sent' = sent ++ reqs
              /\ run_requests JSON_stringify ToString number_truthy exceeds endpoint
                   city food model apiKey sent reqs).
  { intros o Ho. injection Ho as _ <-. exists [r1]. split; [reflexivity|].
    right. exists r1. auto. }
  destruct T1 as [[e ->]|[res1 [v1 [E1 [O1 [J1 ->]]]]]]; [exact (Hone _ H)|].
  cbn [Reply.text] in H.
  destruct (extractFirstJson (text_of v1)) eqn:X1; [exact (Hone _ H)|].
  destruct (rawSnippet ToString exceeds (text_of v1)) as [snippet|e] eqn:S1;
    [|exact (Hone _ H)].
  (* attempt 2 *)
  destruct (call (reformatPrompt ToString snippet) model apiKey (sent ++ [r1]))
    as [o2 s2] eqn:C2.
  destruct (callGemini_trace _ _ _ _ C2) as [[-> [e ->]]|[r2 [R2 [-> T2]]]];
    [exact (Hone _ H)|].
  assert (A1 : answered_unparseable JSON_stringify number_truthy endpoint sent r1 v1).
  { exists res1. auto. }
  assert (Htwo : forall o, (o, (sent ++ [r1]) ++ [r2]) = (out, sent') ->
            exists reqs, sent' = sent ++ reqs
              /\ run_requests JSON_stringify ToString number_truthy exceeds endpoint
                   city food model apiKey sent reqs).
  { intros o Ho. injection Ho as _ <-. exists [r1; r2].
    split; [rewrite <- app_assoc; reflexivity|].
    right. exists r1. split; [exact R1|]. right. exists v1, snippet, r2. auto. }
  destruct T2 as [[e ->]|[res2 [v2 [E2 [O2 [J2 ->]]]]]]; [exact (Htwo _ H)|].
  cbn [Reply.text] in H.
  destruct (extractFirstJson (text_of v2)) eqn:X2; [exact (Htwo _ H)|].
  (* attempt 3 *)
  destruct (call (strictPrompt city food) model apiKey ((sent ++ [r1]) ++ [r2]))
    as [o3 s3] eqn:C3.
  destruct (callGemini_trace _ _ _ _ C3) as [[-> [e ->]]|[r3 [R3 [-> T3]]]];
    [exact (Htwo _ H)|].
  assert (A2 : answered_unparseable JSON_stringify number_truthy endpoint
                 (sent ++ [r1]) r2 v2).
  { exists res2. auto. }
  exists [r1; r2; r3]. split.
  - destruct o3 as [a3|e3]; [destruct (extractFirstJson (Reply.text a3))|];
      injection H as _ <-; rewrite <- !app_assoc; reflexivity.
  - right. exists r1. split; [exact R1|]. right. exists v1, snippet, r2.
    repeat split; try assumption. right. exists v2, r3. auto.
Qed.

Local Notation "'unparseable'" :=
  (answered_unparseable JSON_stringify number_truthy endpoint).
Local Notation "'run'" :=
  (run_requests JSON_stringify ToString number_truthy exceeds endpoint).

(** X14: a run of the pipeline that resolves gives an object, so reading
    its [__raw] member cannot throw. *)
Theorem fetchRestaurantSuggestions_resolves_with_object
    (city food model apiKey : jsstring) (sent sent' : list Request) (v : jsval) :
  suggestions city food model apiKey sent = (Ok v, sent') ->
  exists members, v = Obj members.
Proof.
  unfold fetchRestaurantSuggestions, bind, lift, ret. intros H.
  assert (Hx : forall t r s, extractFirstJson t = Some r ->
            (Ok (parsed r), s) = (Ok v, sent') -> exists members, v = Obj members).
  { intros t r s Hr Hv. injection Hv as <- _.
    exact (proj1 (@extracted_shape t r Hr)). }
  destruct (call (basePrompt city food) model apiKey sent) as [[a1|e1] s1];
    [|discriminate H].
  destruct (extractFirstJson (Reply.text a1)) eqn:X1; [exact (Hx _ _ _ X1 H)|].
  destruct (rawSnippet ToString exceeds (Reply.text a1)) as [snippet|e];
    [|discriminate H].
  destruct (call (reformatPrompt ToString snippet) model apiKey s1) as [[a2|e2] s2];
    [|discriminate H].
  destruct (extractFirstJson (Reply.text a2)) eqn:X2; [exact (Hx _ _ _ X2 H)|].
  destruct (call (strictPrompt city food) model apiKey s2) as [[a3|e3] s3];
    [|discriminate H].
  destruct (extractFirstJson (Reply.text a3)) eqn:X3; [exact (Hx _ _ _ X3 H)|].
  injection H as <- _. unfold RawFallback. eauto.
Qed.

(** X15: a run sends at most three requests, one after the other, and
    every request but the last one was answered with a status from 200 to
    299 and a JSON body in whose text no object was found. *)
Theorem fetchRestaurantSuggestions_retries_only_unparseable
    (city food model apiKey : jsstring) (sent sent' : list Request)
    (out : Outcome jsval) :
  suggestions city food model apiKey sent = (out, sent') ->
  exists reqs,
    sent' = sent ++ reqs
    /\ (List.length reqs <= 3)%nat
    /\ forall before req after,
         reqs = before ++ req :: after -> after <> [] ->
         exists v, unparseable (sent ++ before) req v.
Proof.
  intros H. destruct (suggestions_run _ _ _ _ _ H) as [reqs [-> Hr]].
  exists reqs. split; [reflexivity|].
  destruct Hr as [->|[r1 [R1 [->|[v1 [snippet [r2 [A1 [S1 [R2 [->|[v2 [r3 [A2 [R3 ->]]]]]]]]]]]]]]].
  - split; [cbn; lia|]. intros [|? ?] ? ? E; discriminate E.
  - split; [cbn; lia|]. intros [|? [|? ?]] ? ? E Hn; try discriminate E.
    injection E as _ <-. contradiction.
  - split; [cbn; lia|]. intros [|? [|? [|? ?]]] ? ? E Hn; try discriminate E.
    + injection E as <- _. rewrite app_nil_r. eauto.
    + injection E as _ _ <-. contradiction.
  - split; [cbn; lia|]. intros [|? [|? [|? [|? ?]]]] ? ? E Hn; try discriminate E.
    + injection E as <- _. rewrite app_nil_r. eauto.
    + injection E as <- <- _. eauto.
    + injection E as _ _ _ <-. contradiction.
Qed.

(** X16: the first request of a run carries the base prompt, the second
    one the re-format prompt around the snippet of the first reply's text,
    and the third one the strict prompt. *)
Theorem fetchRestaurantSuggestions_prompt_order
    (city food model apiKey : jsstring) (sent sent' : list Request)
    (out : Outcome jsval) :
  suggestions city food model apiKey sent = (out, sent') ->
  exists reqs,
    sent' = sent ++ reqs
    /\ (forall r1, nth_error reqs 0 = Some r1 ->
          request (basePrompt city food) model apiKey = Ok r1)
    /\ (forall r1 r2, nth_error reqs 0 = Some r1 -> nth_error reqs 1 = Some r2 ->
          exists v1 snippet,
            unparseable sent r1 v1
            /\ rawSnippet ToString exceeds (text_of v1) = Ok snippet
            /\ request (reformatPrompt ToString snippet) model apiKey = Ok r2)
    /\ (forall r3, nth_error reqs 2 = Some r3 ->
          request (strictPrompt city food) model apiKey = Ok r3).
Proof.
  intros H. destruct (suggestions_run _ _ _ _ _ H) as [reqs [-> Hr]].
  exists reqs. split; [reflexivity|].
  destruct Hr as [->|[r1 [R1 [->|[v1 [snippet [r2 [A1 [S1 [R2 [->|[v2 [r3 [A2 [R3 ->]]]]]]]]]]]]]]];
    cbn [nth_error]; repeat split; intros; try discriminate;
    repeat match goal with
           | E : Some _ = Some _ |- _ => injection E as <-
           end; eauto.
Qed.

(** X17: every request of a run is a POST of JSON to the same address,
    made of the model and the key as URI components; the prompt travels in
    the body only. *)
Theorem fetchRestaurantSuggestions_requests_same_target
    (city food model apiKey : jsstring) (sent sent' : list Request)
    (out : Outcome jsval) :
  suggestions city food model apiKey sent = (out, sent') ->
  exists reqs,
    sent' = sent ++ reqs
    /\ forall req, In req reqs ->
         exists m k,
           Encoding.encodeURIComponent model = Ok m
           /\ Encoding.encodeURIComponent apiKey = Ok k
           /\ url req = API_BASE ++ lit "/" ++ m ++ lit ":generateContent?key=" ++ k
           /\ method req = lit "POST"
           /\ headers req = [(lit "Content-Type", lit "application/json")].
Proof.
  intros H. destruct (suggestions_run _ _ _ _ _ H) as [reqs [-> Hr]].
  exists reqs. split; [reflexivity|].
  assert (Hreq : forall p r, request p model apiKey = Ok r ->
            exists m k,
              Encoding.encodeURIComponent model = Ok m
              /\ Encoding.encodeURIComponent apiKey = Ok k
              /\ url r = API_BASE ++ lit "/" ++ m ++ lit ":generateContent?key=" ++ k
              /\ method r = lit "POST"
              /\ headers r = [(lit "Content-Type", lit "application/json")]).
  { intros p r. unfold request_for.
    destruct (Encoding.encodeURIComponent model) as [m|]; [|discriminate].
    destruct (Encoding.encodeURIComponent apiKey) as [k|]; [|discriminate].
    cbn [obind]. intros E. injection E as <-. exists m, k. auto. }
  destruct Hr as [->|[r1 [R1 [->|[v1 [snippet [r2 [A1 [S1 [R2 [->|[v2 [r3 [A2 [R3 ->]]]]]]]]]]]]]]];
    intros req Hin; cbn [In] in Hin;
    repeat match goal with
           | Hin : _ \/ _ |- _ => destruct Hin as [<-|Hin]
           | Hin : False |- _ => destruct Hin
           end; eauto.
Qed.

End RunProperties.

(** An envelope that is a string. *)
Lemma extractText_result_kind_witness :
  extractTextFromApiResponse Scripted.number_truthy (Str (lit "candidates")) = Null.
Proof.
  apply (proj2 (@extractText_result_kind Scripted.number_truthy (Str (lit "candidates")))).
  intros members. discriminate.
Defined.

(** The first shape wins over the [text] of the candidate. *)
Lemma extractText_first_candidate_part_witness :
  extractTextFromApiResponse Scripted.number_truthy (Obj two_shape_envelope)
  = Str (lit "hello").
Proof.
  eapply (@extractText_first_candidate_part Scripted.number_truthy two_shape_envelope);
    reflexivity.
Defined.

(** The [text] of the candidate is never reached. *)
Lemma extractText_null_part_hides_other_shapes_witness :
  extractTextFromApiResponse Scripted.number_truthy (Obj null_part_envelope) = Null.
Proof.
  eapply (@extractText_null_part_hides_other_shapes Scripted.number_truthy
            null_part_envelope);
    reflexivity.
Defined.

(** One call against an endpoint that answers with an envelope. *)
Lemma callGemini_resolves_with_text_witness :
  exists reply sent',
    callGemini Scripted.JSON_stringify Scripted.number_truthy
      (Scripted.endpoint [Scripted.reply (lit "Here: {}")])
      (lit "Say something") DEFAULT_MODEL (lit "secret-key") []
    = (Ok reply, sent')
    /\ exists req res,
         sent' = [] ++ [req]
         /\ Scripted.endpoint [Scripted.reply (lit "Here: {}")] [] req = Responded res
         /\ ok res = true
         /\ json res = Ok (Reply.rawJson reply)
         /\ nullish (Reply.text reply) = false.
Proof.
  eexists. eexists. split; [vm_compute; reflexivity|].
  apply (@callGemini_resolves_with_text Scripted.JSON_stringify Scripted.number_truthy
           (Scripted.endpoint [Scripted.reply (lit "Here: {}")])
           (lit "Say something") DEFAULT_MODEL (lit "secret-key") []).
  vm_compute. reflexivity.
Defined.

(** The run of two attempts. *)
Lemma fetchRestaurantSuggestions_resolves_with_object_witness :
  fst two_attempts = Ok (Obj [(lit "note", Arr [])])
  /\ exists members, Obj [(lit "note", Arr [])] = Obj members.
Proof.
  split; [vm_compute; reflexivity|].
  apply (@fetchRestaurantSuggestions_resolves_with_object
           Scripted.JSON_stringify Scripted.ToString Scripted.number_truthy
           Scripted.exceeds
           (Scripted.endpoint [Scripted.reply (lit "prose");
                               Scripted.reply (tpl "{`note`:[]}")])
           (lit "Hyderabad, Telangana, India") (lit "Qubani ka Meetha")
           DEFAULT_MODEL (lit "secret-key") [] (snd two_attempts)).
  vm_compute. reflexivity.
Defined.

(** The run of two attempts sent two requests. *)
Lemma fetchRestaurantSuggestions_retries_only_unparseable_witness :
  List.length (snd two_attempts) = 2%nat
  /\ (List.length (snd two_attempts) <= 3)%nat.
Proof.
  split; [vm_compute; reflexivity|].
  destruct (@fetchRestaurantSuggestions_retries_only_unparseable
              Scripted.JSON_stringify Scripted.ToString Scripted.number_truthy
              Scripted.exceeds
              (Scripted.endpoint [Scripted.reply (lit "prose");
                                  Scripted.reply (tpl "{`note`:[]}")])
              (lit "Hyderabad, Telangana, India") (lit "Qubani ka Meetha")
              DEFAULT_MODEL (lit "secret-key") [] (snd two_attempts) (fst two_attempts)
              (surjective_pairing two_attempts))
    as [reqs [Hsent [Hlen _]]].
  rewrite Hsent. exact Hlen.
Defined.

(** The first request of the run of two attempts. *)
Lemma fetchRestaurantSuggestions_prompt_order_witness :
  exists r1,
    nth_error (snd two_attempts) 0 = Some r1
    /\ request_for Scripted.JSON_stringify
         (basePrompt (lit "Hyderabad, Telangana, India") (lit "Qubani ka Meetha"))
         DEFAULT_MODEL (lit "secret-key")
       = Ok r1.
Proof.
  destruct (@fetchRestaurantSuggestions_prompt_order
              Scripted.JSON_stringify Scripted.ToString Scripted.number_truthy
              Scripted.exceeds
              (Scripted.endpoint [Scripted.reply (lit "prose");
                                  Scripted.reply (tpl "{`note`:[]}")])
              (lit "Hyderabad, Telangana, India") (lit "Qubani ka Meetha")
              DEFAULT_MODEL (lit "secret-key") [] (snd two_attempts) (fst two_attempts)
              (surjective_pairing two_attempts))
    as [reqs [Hsent [Hfirst _]]].
  cbn [app] in Hsent. rewrite <- Hsent in Hfirst.
  eexists. split; [vm_compute; reflexivity|].
  apply Hfirst. vm_compute. reflexivity.
Defined.

(** The second request of the run of two attempts. *)
Lemma fetchRestaurantSuggestions_requests_same_target_witness :
  exists req,
    nth_error (snd two_attempts) 1 = Some req
    /\ method req = lit "POST"
    /\ headers req = [(lit "Content-Type", lit "application/json")].
Proof.
  destruct (@fetchRestaurantSuggestions_requests_same_target
              Scripted.JSON_stringify Scripted.ToString Scripted.number_truthy
              Scripted.exceeds
              (Scripted.endpoint [Scripted.reply (lit "prose");
                                  Scripted.reply (tpl "{`note`:[]}")])
              (lit "Hyderabad, Telangana, India") (lit "Qubani ka Meetha")
              DEFAULT_MODEL (lit "secret-key") [] (snd two_attempts) (fst two_attempts)
              (surjective_pairing two_attempts))
    as [reqs [Hsent Hall]].
  cbn [app] in Hsent. rewrite <- Hsent in Hall.
  eexists. split; [vm_compute; reflexivity|].
  match goal with
  | |- method ?r = _ /\ _ =>
      destruct (Hall r) as [m [k [_ [_ [_ [Hm Hh]]]]]];
        [vm_compute; tauto|exact (conj Hm Hh)]
  end.
Defined.

(** ** What the text decoder gives *)

Section DecoderProperties.

Import Encoding.

Lemma scalar_replacement : scalar replacement.
Proof. unfold scalar, replacement. lia. Qed.

Lemma sound_initial : sound initial.
Proof. left. reflexivity. Qed.

Lemma lead_sound (b : N) :
  Forall scalar (fst (lead b)) /\ sound (snd (lead b)).
Proof.
  unfold lead.
  repeat match goal with
         | |- context [?x <=? ?y] => destruct (N.leb_spec x y)
         | |- context [?x =? ?y] => destruct (N.eqb_spec x y)
         end;
    cbn [andb fst snd]; try (exfalso; lia);
    (split;
     [ repeat constructor; unfold scalar, replacement; lia
     | first
         [ apply sound_initial
         | right;
           cbn [lower_boundary upper_boundary code_point bytes_needed bytes_seen];
           unfold scalar_range; split; [lia|]; split; [lia|];
           first [left; lia | right; left; lia | right; right; lia] ] ]).
Qed.

Lemma step_sound (st : DecoderState) (b : N) :
  sound st -> Forall scalar (fst (step st b)) /\ sound (snd (step st b)).
Proof.
  intros Hst. unfold step.
  destruct (N.eqb_spec (bytes_needed st) 0) as [_|Hn]; [apply lead_sound|].
  destruct Hst as [Hz|[Hlo [Hhi Hst]]]; [contradiction|].
  destruct (N.leb_spec (lower_boundary st) b) as [Hl|Hl]; cbn [andb negb];
    [destruct (N.leb_spec b (upper_boundary st)) as [Hu|Hu]; cbn [andb negb]|].
  - unfold scalar_range in Hst.
    destruct (N.eqb_spec (bytes_seen st + 1) (bytes_needed st)) as [He|He];
      cbn [fst snd].
    + split; [|apply sound_initial].
      constructor; [|constructor]. unfold scalar. cbv zeta in Hst. lia.
    + split; [constructor|]. right.
      cbn [lower_boundary upper_boundary code_point bytes_needed bytes_seen].
      unfold scalar_range. cbv zeta in Hst.
      split; [lia|]. split; [lia|].
      destruct Hst as [Hst|[Hst|Hst]]; [lia|left; lia|right; left; lia].
  - destruct (lead_sound b) as [Hout Hnext].
    destruct (lead b) as [out st']. cbn [fst snd] in *.
    split; [constructor; [apply scalar_replacement|exact Hout]|exact Hnext].
  - destruct (lead_sound b) as [Hout Hnext].
    destruct (lead b) as [out st']. cbn [fst snd] in *.
    split; [constructor; [apply scalar_replacement|exact Hout]|exact Hnext].
Qed.

Lemma run_sound (bs : list N) :
  forall st, sound st -> Forall scalar (run st bs).
Proof.
  induction bs as [|b r IH]; intros st Hst; cbn [run].
  - destruct (bytes_needed st =? 0); [constructor|].
    constructor; [apply scalar_replacement|constructor].
  - destruct (step_sound b Hst) as [Hout Hnext].
    destruct (step st b) as [out st']. cbn [fst snd] in *.
    apply Forall_app. split; [exact Hout|apply IH, Hnext].
Qed.

Lemma drop_bom_scalars (cps : list N) :
  Forall scalar cps -> Forall scalar (drop_bom cps).
Proof.
  intros H. destruct H as [|c r Hc Hr]; [constructor|].
  cbn [drop_bom]. destruct (c =? byte_order_mark); [exact Hr|].
  constructor; assumption.
Qed.

(** The UTF-16 form of scalar values is well formed, and reads back as
    these values. *)
Lemma utf16_units_well_formed (cps : list N) :
  Forall scalar cps ->
  well_formed (flat_map utf16_units cps) = true
  /\ strict_scalar_values (flat_map utf16_units cps) = Some cps.
Proof.
  induction 1 as [|cp cps [Hmax Hsur] _ [IHw IHs]]; [split; reflexivity|].
  cbn [flat_map]. set (rest := flat_map utf16_units cps) in *. unfold utf16_units.
  destruct (N.ltb_spec cp 65536) as [Hs|Hb]; cbn [app well_formed strict_scalar_values].
  - assert (Hh : is_high cp = false) by (unfold is_high; nbool; lia).
    assert (Hl : is_low cp = false) by (unfold is_low; nbool; lia).
    rewrite Hh, Hl, IHw, IHs.
    assert (Hc : (cp <? 65536) = true) by (apply N.ltb_lt; exact Hs).
    rewrite Hc. split; reflexivity.
  - assert (Hh : is_high (55296 + (cp - 65536) / 1024) = true)
      by (unfold is_high; nbool; lia).
    assert (Hl : is_low (56320 + (cp - 65536) mod 1024) = true)
      by (unfold is_low; nbool; lia).
    rewrite Hh, Hl, IHw, IHs. cbn [andb option_map]. split; [reflexivity|].
    f_equal. f_equal. unfold pair_value. lia.
Qed.

Lemma TextDecoder_decode_scalars (buffer : bytes) :
  exists cps,
    Forall scalar cps /\ TextDecoder_decode buffer = flat_map utf16_units cps.
Proof.
  exists (drop_bom (run initial (List.map Byte.to_N buffer))).
  split; [|reflexivity].
  apply drop_bom_scalars, run_sound, sound_initial.
Qed.

End DecoderProperties.

(** ** More on the credential vault *)

Section VaultExtra.

Variable subtle : SubtleCrypto.

(** X18: whatever is stored, a key that [decryptApiKey] returns is a well
    formed string, so putting it in the address of a request cannot throw
    a URIError. *)
Theorem decryptApiKey_returns_well_formed
    (encryptedObj : EncryptedObj) (passphrase apiKey : jsstring) :
  decryptApiKey subtle encryptedObj passphrase = Ok apiKey ->
  well_formed apiKey = true
  /\ exists component, Encoding.encodeURIComponent apiKey = Ok component.
Proof.
  unfold decryptApiKey. intros H.
  destruct (base64Decode (salt encryptedObj)) as [s|]; [|discriminate H].
  destruct (base64Decode (iv encryptedObj)) as [i|]; [|discriminate H].
  destruct (base64Decode (ciphertext encryptedObj)) as [c|]; [|discriminate H].
  cbn [obind] in H.
  destruct (decrypt subtle _ _ c) as [plainBuffer|]; [|discriminate H].
  injection H as <-.
  destruct (TextDecoder_decode_scalars plainBuffer) as [cps [Hcps ->]].
  destruct (utf16_units_well_formed Hcps) as [Hw Hs].
  split; [exact Hw|]. unfold Encoding.encodeURIComponent. rewrite Hs. eauto.
Qed.

Lemma base64Decode_throws (b64 : jsstring) (e : exn) :
  base64Decode b64 = Thrown e -> e = InvalidCharacterError.
Proof.
  unfold base64Decode, Base64.atob.
  destruct (_ =? 1)%nat; [intros H; injection H as <-; reflexivity|].
  destruct (Base64.alphabet_values _); cbn [obind]; [discriminate|].
  intros H. injection H as <-. reflexivity.
Qed.

(** X19: an object with a character in one of its three fields that
    [base64Decode] cannot read is refused with an InvalidCharacterError,
    under every passphrase and whatever the cipher. *)
Theorem decryptApiKey_refuses_damaged_object
    (encryptedObj : EncryptedObj) (passphrase : jsstring) (c : code_unit) :
  foreign c ->
  In c (salt encryptedObj) \/ In c (iv encryptedObj) \/ In c (ciphertext encryptedObj) ->
  decryptApiKey subtle encryptedObj passphrase = Thrown InvalidCharacterError.
Proof.
  intros [Hval [Hpad Hws]] Hin. unfold decryptApiKey.
  assert (Hbad : forall b64, In c b64 -> base64Decode b64 = Thrown InvalidCharacterError).
  { intros b64 Hc. exact (@base64Decode_foreign b64 c Hc Hval Hpad Hws). }
  destruct (base64Decode (salt encryptedObj)) as [s|e] eqn:Es.
  2:{ rewrite (base64Decode_throws _ Es). reflexivity. }
  destruct (base64Decode (iv encryptedObj)) as [i|e] eqn:Ei.
  2:{ rewrite (base64Decode_throws _ Ei). reflexivity. }
  destruct (base64Decode (ciphertext encryptedObj)) as [ct|e] eqn:Ec.
  2:{ rewrite (base64Decode_throws _ Ec). reflexivity. }
  destruct Hin as [Hin|[Hin|Hin]]; apply Hbad in Hin; congruence.
Qed.

(** X20: the object an encryption returns has a salt of 24 characters, a
    nonce of 16 characters, and four characters of ciphertext for every
    three bytes, or part of three bytes, of the AES-GCM output. *)
Theorem encryptApiKey_field_lengths (apiKeyPlain passphrase : jsstring) (e : Entropy) :
  exists obj,
    fst (encryptApiKey subtle apiKeyPlain passphrase e) = Ok obj
    /\ List.length (salt obj) = 24%nat
    /\ List.length (iv obj) = 16%nat
    /\ List.length (ciphertext obj)
       = (4 * ((List.length (sealed subtle apiKeyPlain passphrase e) + 2) / 3))%nat.
Proof.
  exists {| ciphertext := Base64.encode_octets
                            (fromCharCode (sealed subtle apiKeyPlain passphrase e));
            iv := Base64.encode_octets (fromCharCode (drawn_iv e));
            salt := Base64.encode_octets (fromCharCode (drawn_salt e)) |}.
  split.
  - unfold encryptApiKey, sealed, drawn_iv, drawn_salt, getRandomValues.
    cbn [fst snd pool drawn]. rewrite !base64Encode_btoa. reflexivity.
  - cbn [salt iv ciphertext]. rewrite !length_encode_octets_exact.
    unfold fromCharCode. rewrite !length_map.
    unfold drawn_salt, drawn_iv, getRandomValues. cbn [fst snd].
    rewrite !length_map, !length_seq. repeat split.
Qed.

End VaultExtra.

(** The example key, encrypted and decrypted by the test double. *)
Lemma decryptApiKey_returns_well_formed_witness :
  decryptApiKey Mock.subtle example_encrypted example_passphrase = Ok example_key
  /\ well_formed example_key = true
  /\ exists component, Encoding.encodeURIComponent example_key = Ok component.
Proof.
  split; [vm_compute; reflexivity|].
  apply (@decryptApiKey_returns_well_formed Mock.subtle example_encrypted
           example_passphrase).
  vm_compute. reflexivity.
Defined.

(** An exclamation mark in the salt. *)
Lemma decryptApiKey_refuses_damaged_object_witness :
  decryptApiKey Mock.subtle damaged_encrypted example_passphrase
  = Thrown InvalidCharacterError.
Proof.
  apply (@decryptApiKey_refuses_damaged_object Mock.subtle damaged_encrypted
           example_passphrase 33).
  - split; [reflexivity|]. split; [discriminate|reflexivity].
  - left. left. reflexivity.
Defined.

(** ** Properties of the popup *)

Section TrimProperties.

Lemma trimStart_white (s : jsstring) :
  forallb is_white_space s = true -> trimStart s = [].
Proof.
  induction s as [|c s IH]; [reflexivity|]. cbn [forallb trimStart].
  intros H. apply andb_true_iff in H. destruct H as [Hc Hs].
  rewrite Hc. exact (IH Hs).
Qed.

Lemma trim_white (s : jsstring) :
  forallb is_white_space s = true -> trim s = [].
Proof.
  intros H. unfold trim. rewrite (trimStart_white _ H). reflexivity.
Qed.

Lemma trimStart_head (s : jsstring) (c : code_unit) (t : jsstring) :
  trimStart s = c :: t -> is_white_space c = false.
Proof.
  induction s as [|x s IH]; [discriminate|]. cbn [trimStart].
  destruct (is_white_space x) eqn:Hx; [exact IH|].
  intros H. injection H as <- _. exact Hx.
Qed.

Lemma trimStart_suffix (s : jsstring) : exists ws, s = ws ++ trimStart s.
Proof.
  induction s as [|x s [ws IH]]; [exists []; reflexivity|]. cbn [trimStart].
  destruct (is_white_space x); [|exists []; reflexivity].
  exists (x :: ws). cbn [app]. f_equal. exact IH.
Qed.

(** A trimmed string does not open with white space. *)
Lemma trim_head (s : jsstring) (c : code_unit) (t : jsstring) :
  trim s = c :: t -> is_white_space c = false.
Proof.
  unfold trim. intros H.
  destruct (trimStart_suffix (rev (trimStart s))) as [ws Hws].
  apply (f_equal (@rev code_unit)) in Hws.
  rewrite rev_involutive, rev_app_distr, H in Hws.
  exact (@trimStart_head s c (t ++ rev ws) Hws).
Qed.

Lemma trim_no_bom (s : jsstring) : starts_with_bom (trim s) = false.
Proof.
  destruct (trim s) as [|c t] eqn:E; [reflexivity|].
  apply trim_head in E. cbn [starts_with_bom]. unfold Encoding.byte_order_mark.
  destruct (N.eqb_spec c 65279) as [->|_]; [discriminate E|reflexivity].
Qed.

End TrimProperties.

Section RenderProperties.

Variable ToString : jsval -> jsstring.
Variable number_truthy : jsstring -> bool.

Local Notation "'escape'" := (escapeHtml ToString).
Local Notation "'restaurant'" := (restaurant_html ToString number_truthy).
Local Notation "'restaurants'" := (restaurants_html ToString number_truthy).
Local Notation "'structured'" := (structured_html ToString number_truthy).

Lemma tags_app (a b : jsstring) : tags (a ++ b) = (tags a + tags b)%nat.
Proof. apply count_occ_app. Qed.

Lemma tags_escapeHtml (v : jsval) : tags (escape v) = 0%nat.
Proof.
  unfold tags. apply count_occ_not_In. intros Hin.
  pose proof (escapeHtml_safe ToString v) as H. rewrite Forall_forall in H.
  destruct (H _ Hin) as [H60 _]. congruence.
Qed.

Lemma tags_list_items (l : list jsval) :
  tags (flat_map (fun x => lit "<li>" ++ escape x ++ lit "</li>") l)
  = (2 * List.length l)%nat.
Proof.
  induction l as [|x l IH]; [reflexivity|].
  cbn [flat_map List.length]. rewrite !tags_app, tags_escapeHtml, IH.
  change (tags (lit "<li>")) with 1%nat. change (tags (lit "</li>")) with 1%nat. lia.
Qed.

(** A restaurant that is [null] or [undefined] cannot be read; any other
    value gives a card. *)
Lemma restaurant_html_cases (r : jsval) :
  (nullish r = true /\ restaurant r = Thrown TypeError)
  \/ (nullish r = false
      /\ exists html, restaurant r = Ok html /\ (tags html <= 20)%nat).
Proof.
  unfold restaurant_html, dot. destruct (nullish r) eqn:Hr; [left; split; reflexivity|].
  right. split; [reflexivity|]. cbn [obind]. eexists. split; [reflexivity|].
  rewrite !tags_app, !tags_escapeHtml, tags_list_items.
  assert (Hfour : (List.length (firstn 4 match member "reasons" r with
                                         | Arr l => l
                                         | _ => []
                                         end) <= 4)%nat)
    by (rewrite length_firstn; lia).
  match goal with
  | |- context [tags ?t] =>
      lazymatch t with
      | match _ with [] => _ | _ :: _ => _ end =>
          assert (Hmaps : (tags t <= 4)%nat)
      end
  end.
  { destruct (escape _) eqn:E; [cbn; lia|].
    rewrite !tags_app, <- E, tags_escapeHtml.
    match goal with |- (tags ?a + (0 + tags ?b) <= 4)%nat =>
      let x := eval vm_compute in (tags a) in
      let y := eval vm_compute in (tags b) in
      change (tags a) with x; change (tags b) with y end. lia. }
  repeat match goal with
         | |- context [tags (tpl ?s)] =>
             let x := eval vm_compute in (tags (tpl s)) in
             change (tags (tpl s)) with x
         | |- context [tags (lit ?s)] =>
             let x := eval vm_compute in (tags (lit s)) in
             change (tags (lit s)) with x
         end.
  revert Hfour Hmaps.
  generalize (List.length (firstn 4 match member "reasons" r with
                                    | Arr l => l
                                    | _ => []
                                    end)).
  match goal with |- forall n, _ -> (tags ?m <= 4)%nat -> _ => generalize (tags m) end.
  intros; lia.
Qed.

Lemma restaurants_html_cases (rs : list jsval) :
  forall html,
    (exists r, In r rs /\ nullish r = true)
    /\ restaurants rs html = Thrown TypeError
    \/ Forall (fun r => nullish r = false) rs
       /\ exists cards,
            restaurants rs html = Ok (html ++ cards)
            /\ (tags cards <= 20 * List.length rs)%nat.
Proof.
  induction rs as [|r rs IH]; intros html; cbn [restaurants_html].
  - right. split; [constructor|]. exists []. rewrite app_nil_r. split; [reflexivity|].
    cbn. lia.
  - destruct (restaurant_html_cases r) as [[Hr ->]|[Hr [h [-> Hh]]]]; cbn [obind].
    + left. split; [|reflexivity]. exists r. split; [left; reflexivity|exact Hr].
    + destruct (IH (html ++ h)) as [[[r' [Hin Hr']] ->]|[Hall [cards [-> Hc]]]].
      * left. split; [|reflexivity]. exists r'. split; [right; exact Hin|exact Hr'].
      * right. split; [constructor; assumption|].
        exists (h ++ cards). rewrite app_assoc. split; [reflexivity|].
        rewrite tags_app. cbn [List.length]. lia.
Qed.

End RenderProperties.

Section StructuredProperties.

Variable ToString : jsval -> jsstring.
Variable number_truthy : jsstring -> bool.

Local Notation "'structured'" := (structured_html ToString number_truthy).
Local Notation "'render'" := (renderStructured ToString number_truthy).

Lemma structured_html_cases (data : jsval) (city food : jsstring) :
  (unreadable data = true /\ structured data city food = Thrown TypeError)
  \/ (unreadable data = false
      /\ exists tail,
           structured data city food
           = Ok (tpl "<div class=`about`><strong>About " ++ tail)
           /\ (tags tail <= 44)%nat).
Proof.
  unfold structured_html, dot, unreadable.
  destruct (nullish data) eqn:Hd; [left; split; reflexivity|].
  cbn [obind orb].
  set (head := _ ++ _ ++ _ ++ _ ++ lit "</div></div>").
  assert (Hhead : exists tail, head = tpl "<div class=`about`><strong>About " ++ tail
                               /\ tags tail = 4%nat).
  { eexists. split; [reflexivity|].
    rewrite !tags_app, !tags_escapeHtml. reflexivity. }
  destruct Hhead as [tail [Hhead Htail]].
  destruct (member "restaurants" data) as [| | | | |l|] eqn:Hm;
    try (right; split; [reflexivity|];
         exists (tail ++ tpl "<div class=`about small`>No restaurants array found in response.</div>");
         rewrite Hhead, <- app_assoc; split; [reflexivity|];
         rewrite tags_app, Htail; cbn; lia).
  destruct (restaurants_html_cases ToString number_truthy (firstn 2 l) head)
    as [[[r [Hin Hr]] ->]|[Hall [cards [-> Hc]]]].
  - left. split; [|reflexivity]. apply existsb_exists. exists r. auto.
  - right. split.
    + destruct (existsb nullish (firstn 2 l)) eqn:E; [|reflexivity].
      apply existsb_exists in E. destruct E as [r [Hin Hr]].
      rewrite Forall_forall in Hall. rewrite (Hall r Hin) in Hr. discriminate Hr.
    + exists (tail ++ cards). rewrite Hhead, <- app_assoc. split; [reflexivity|].
      rewrite tags_app, Htail. rewrite length_firstn in Hc. lia.
Qed.

(** X21: rendering throws a TypeError, before anything is written to the
    results, when the data is [null] or [undefined] or one of its first
    two restaurants is. *)
Theorem renderStructured_throws_on_null_entry
    (data : jsval) (city food : jsstring) (w : Page) :
  unreadable data = true -> render data city food w = Thrown TypeError.
Proof.
  intros Hu. unfold renderStructured.
  destruct (structured_html_cases data city food)
    as [[_ ->]|[Hu' _]]; [reflexivity|].
  rewrite Hu in Hu'. discriminate Hu'.
Qed.

(** X22: whatever the data holds, the markup rendered from it opens with
    the heading and has at most 46 tags: those of the heading, of two
    restaurants and of four reasons for each; nothing else of the page
    changes. *)
Theorem renderStructured_markup_bounded
    (data : jsval) (city food : jsstring) (w w' : Page) :
  render data city food w = Ok w' ->
  (tags (resultsDiv w') <= 46)%nat
  /\ startsWith (tpl "<div class=`about`><strong>About ") (resultsDiv w') = true
  /\ w' = set_innerHTML (resultsDiv w') w.
Proof.
  unfold renderStructured.
  destruct (structured_html_cases data city food)
    as [[_ ->]|[_ [tail [-> Ht]]]]; cbn [obind]; [discriminate|].
  remember (tpl "<div class=`about`><strong>About " ++ tail) as html eqn:Hh.
  intros H. injection H as <-. cbn [resultsDiv set_innerHTML].
  split; [|split; [rewrite Hh|]; reflexivity].
  rewrite Hh, tags_app.
  change (tags (tpl "<div class=`about`><strong>About ")) with 2%nat. lia.
Qed.

End StructuredProperties.

Section PageProperties.

Variable subtle : SubtleCrypto.
Variable JSON_stringify : jsval -> jsstring.
Variable ToString : jsval -> jsstring.
Variable number_truthy : jsstring -> bool.
Variable exceeds : jsval -> N -> bool.
Variable endpoint : list Request -> Request -> Fetched.
Variable platform_message : exn -> jsstring.

Local Notation "'suggestions'" :=
  (fetchRestaurantSuggestions JSON_stringify ToString number_truthy exceeds endpoint).
Local Notation "'fetch_render'" :=
  (fetch_and_render JSON_stringify ToString number_truthy exceeds endpoint).
Local Notation "'save_click'" := (saveKeyBtn_click subtle platform_message).
Local Notation "'search_click'" :=
  (searchBtn_click subtle JSON_stringify ToString number_truthy exceeds endpoint
     platform_message).
Local Notation "'retry_click'" :=
  (retryBtn_click subtle JSON_stringify ToString number_truthy exceeds endpoint
     platform_message).
Local Notation "'event'" :=
  (handle subtle JSON_stringify ToString number_truthy exceeds endpoint
     platform_message).
Local Notation "'events'" :=
  (after subtle JSON_stringify ToString number_truthy exceeds endpoint
     platform_message).

(** A request of the pipeline for the default model goes to the endpoint. *)
Lemma request_to_endpoint (promptText apiKey : jsstring) (req : Request) :
  request_for JSON_stringify promptText DEFAULT_MODEL apiKey = Ok req ->
  to_endpoint req.
Proof.
  unfold request_for.
  change (Encoding.encodeURIComponent DEFAULT_MODEL) with (Ok (lit "gemini-2.0-flash")).
  cbn [obind].
  destruct (Encoding.encodeURIComponent apiKey) as [k|]; [|discriminate].
  cbn [obind]. intros H. injection H as <-. split; [reflexivity|].
  exists k. cbn [url]. reflexivity.
Qed.

Lemma run_requests_to_endpoint (city food apiKey : jsstring)
    (sent reqs : list Request) :
  run_requests JSON_stringify ToString number_truthy exceeds endpoint
    city food DEFAULT_MODEL apiKey sent reqs ->
  Forall to_endpoint reqs.
Proof.
  intros [->|[r1 [R1 [->|[v1 [snippet [r2 [_ [_ [R2 [->|[v2 [r3 [_ [R3 ->]]]]]]]]]]]]]]];
    repeat (apply Forall_cons; [eapply request_to_endpoint; eassumption|]);
    apply Forall_nil.
Qed.

(** What fetching and showing leaves of the page. *)
Lemma fetch_and_render_frame (city food apiKey : jsstring) (w : Page) :
  let r := fetch_render city food apiKey w in
  sessionApiKey (fst r) = sessionApiKey w
  /\ gemini_encrypted (fst r) = gemini_encrypted w
  /\ requests (fst r) = snd (suggestions city food DEFAULT_MODEL apiKey (requests w))
  /\ (snd r = None -> spinner_shown (fst r) = false).
Proof.
  cbv zeta. unfold fetch_and_render.
  destruct (suggestions city food DEFAULT_MODEL apiKey (requests w)) as [result sent'].
  cbn [fst snd].
  destruct result as [parsed|e]; cbn [obind]; [|repeat split; discriminate].
  destruct (dot (member "__raw") parsed) as [raw|e]; cbn [obind];
    [|repeat split; discriminate].
  destruct (truthy number_truthy raw).
  - repeat split.
  - unfold renderStructured.
    destruct (structured_html_cases ToString number_truthy parsed city food)
      as [[_ ->]|[_ [tail [-> _]]]]; cbn [obind]; [repeat split; discriminate|].
    repeat split.
Qed.

Local Notation "'failure'" := (failure_html ToString platform_message).

(** The page once the suggestions were fetched and shown, or the failure
    was. *)
Lemma shown_frame (label message city food apiKey : jsstring) (w : Page) :
  let w' := match fetch_render city food apiKey (setLoading ToString (Some message) w) with
            | (w', None) => w'
            | (w', Some err) => set_innerHTML (failure label err) w'
            end in
  sessionApiKey w' = sessionApiKey w
  /\ gemini_encrypted w' = gemini_encrypted w
  /\ requests w' = snd (suggestions city food DEFAULT_MODEL apiKey (requests w))
  /\ spinner_shown w' = false.
Proof.
  cbv zeta.
  destruct (fetch_and_render_frame city food apiKey (setLoading ToString (Some message) w))
    as [Hs [Hg [Hr Hp]]].
  destruct (fetch_render city food apiKey (setLoading ToString (Some message) w))
    as [w' [err|]]; cbn [fst snd] in *.
  - repeat split; assumption.
  - repeat split; try assumption. apply Hp. reflexivity.
Qed.

(** A click on Search either stops before the spinner, leaving all but
    the dialogs as it was, or runs the pipeline with the cached key or with
    the key decrypted from the store. *)
Lemma searchBtn_click_cases (answer : option jsstring) (w : Page) :
  let w' := search_click answer w in
  (sessionApiKey w' = sessionApiKey w
   /\ gemini_encrypted w' = gemini_encrypted w
   /\ requests w' = requests w
   /\ resultsDiv w' = resultsDiv w)
  \/ exists apiKey,
       (sessionApiKey w = Some apiKey
        \/ exists enc pass,
             gemini_encrypted w = Some enc /\ answer = Some pass
             /\ decryptApiKey subtle enc pass = Ok apiKey)
       /\ sessionApiKey w' = Some apiKey
       /\ gemini_encrypted w' = gemini_encrypted w
       /\ requests w'
          = snd (suggestions (trim (cityInput w)) (trim (foodInput w))
                   DEFAULT_MODEL apiKey (requests w))
       /\ spinner_shown w' = false.
Proof.
  cbv zeta. unfold searchBtn_click.
  destruct (trim (cityInput w)) as [|c city]; [left; repeat split|].
  destruct (trim (foodInput w)) as [|f food]; [left; repeat split|].
  cbv zeta.
  assert (Hstore :
    (sessionApiKey w = None \/ sessionApiKey w = Some []) ->
    let w' :=
      match getEncryptedKey w with
      | None => alert (lit "No saved API key found. Please save your key first.") w
      | Some enc =>
          let w1 := prompt (lit "Enter passphrase to decrypt your Gemini API key:")
                      answer w in
          match answer with
          | None | Some [] => alert (lit "Passphrase required to decrypt API key.") w1
          | Some pass =>
              match decryptApiKey subtle enc pass with
              | Ok apiKey =>
                  match fetch_render (c :: city) (f :: food) apiKey
                          (setLoading ToString
                             (Some (lit "Querying Gemini for suggestions" ++ [c_ellipsis]))
                             (set_sessionApiKey (Some apiKey) w1))
                  with
                  | (w', None) => w'
                  | (w', Some err) => set_innerHTML (failure (lit "Error: ") err) w'
                  end
              | Thrown err => alert (lit "Failed to decrypt API key: "
                                       ++ message_of platform_message err) w1
              end
          end
      end in
    (sessionApiKey w' = sessionApiKey w
     /\ gemini_encrypted w' = gemini_encrypted w
     /\ requests w' = requests w
     /\ resultsDiv w' = resultsDiv w)
    \/ exists apiKey,
         (sessionApiKey w = Some apiKey
          \/ exists enc pass,
               gemini_encrypted w = Some enc /\ answer = Some pass
               /\ decryptApiKey subtle enc pass = Ok apiKey)
         /\ sessionApiKey w' = Some apiKey
         /\ gemini_encrypted w' = gemini_encrypted w
         /\ requests w'
            = snd (suggestions (c :: city) (f :: food) DEFAULT_MODEL apiKey (requests w))
         /\ spinner_shown w' = false).
  { intros _. cbv zeta. unfold getEncryptedKey.
    destruct (gemini_encrypted w) as [enc|] eqn:Hg; [|left; repeat split; assumption].
    destruct answer as [[|p pass]|]; try (left; repeat split; assumption).
    destruct (decryptApiKey subtle enc (p :: pass)) as [apiKey|err] eqn:Hd;
      [|left; repeat split; assumption].
    right. exists apiKey. split; [right; exists enc, (p :: pass); auto|].
    destruct (shown_frame (lit "Error: ")
                (lit "Querying Gemini for suggestions" ++ [c_ellipsis])
                (c :: city) (f :: food) apiKey
                (set_sessionApiKey (Some apiKey)
                   (prompt (lit "Enter passphrase to decrypt your Gemini API key:")
                      (Some (p :: pass)) w)))
      as [Hs [Hg' [Hr Hp]]].
    repeat split; [exact Hs| |exact Hr|exact Hp].
    first [exact Hg' | exact (eq_trans Hg' Hg)]. }
  destruct (sessionApiKey w) as [[|k key]|] eqn:Hk.
  - apply Hstore. right. reflexivity.
  - right. exists (k :: key). split; [left; reflexivity|].
    destruct (shown_frame (lit "Error: ")
                (lit "Querying Gemini for suggestions" ++ [c_ellipsis])
                (c :: city) (f :: food) (k :: key) w) as [Hs [Hg [Hr Hp]]].
    repeat split; [exact (eq_trans Hs Hk)|exact Hg|exact Hr|exact Hp].
  - apply Hstore. left. reflexivity.
Qed.

(** A click on Retry does nothing when the raw view is not shown;
    otherwise it shows a failure without sending anything, or runs the
    pipeline with the key decrypted from the store. *)
Lemma retryBtn_click_cases (answer : option jsstring) (w : Page) :
  let w' := retry_click answer w in
  w' = w
  \/ (sessionApiKey w' = sessionApiKey w
      /\ gemini_encrypted w' = gemini_encrypted w
      /\ requests w' = requests w
      /\ spinner_shown w' = false)
  \/ exists apiKey enc pass,
       gemini_encrypted w = Some enc /\ answer = Some pass
       /\ decryptApiKey subtle enc pass = Ok apiKey
       /\ sessionApiKey w' = Some apiKey
       /\ gemini_encrypted w' = gemini_encrypted w
       /\ requests w'
          = snd (suggestions (trim (cityInput w)) (trim (foodInput w))
                   DEFAULT_MODEL apiKey (requests w))
       /\ spinner_shown w' = false.
Proof.
  cbv zeta. unfold retryBtn_click.
  destruct (raw_shown w) as [rawText|]; [|left; reflexivity]. right.
  set (w0 := setLoading ToString _ w).
  unfold retry_try, getEncryptedKey.
  change (gemini_encrypted w0) with (gemini_encrypted w).
  destruct (gemini_encrypted w) as [enc|] eqn:Hg.
  2:{ left. split; [reflexivity|]. split; [exact Hg|]. split; reflexivity. }
  destruct answer as [[|p pass]|].
  1,3: left; split; [reflexivity|]; split; [exact Hg|]; split; reflexivity.
  destruct (decryptApiKey subtle enc (p :: pass)) as [apiKey|err] eqn:Hd.
  2:{ left. split; [reflexivity|]. split; [exact Hg|]. split; reflexivity. }
  right. exists apiKey, enc, (p :: pass).
  split; [reflexivity|]. split; [reflexivity|]. split; [exact Hd|].
  cbv zeta.
  set (w2 := set_sessionApiKey (Some apiKey) _).
  change (trim (cityInput w2)) with (trim (cityInput w)).
  change (trim (foodInput w2)) with (trim (foodInput w)).
  destruct (fetch_and_render_frame (trim (cityInput w)) (trim (foodInput w)) apiKey w2)
    as [Hs [Hg' [Hr Hp]]].
  destruct (fetch_render (trim (cityInput w)) (trim (foodInput w)) apiKey w2) as [w' [err|]];
    cbn [fst snd] in *.
  - split; [exact Hs|]. split; [exact (eq_trans Hg' Hg)|]. split; [exact Hr|reflexivity].
  - split; [exact Hs|]. split; [exact (eq_trans Hg' Hg)|]. split; [exact Hr|].
    apply Hp. reflexivity.
Qed.

(** A click on Save either refuses, leaving all but the dialogs as it
    was, or stores the object encrypted from the trimmed input under the
    passphrase and caches that input. *)
Lemma saveKeyBtn_click_cases (answer1 answer2 : option jsstring) (w : Page) :
  let w' := save_click answer1 answer2 w in
  requests w' = requests w
  /\ resultsDiv w' = resultsDiv w
  /\ ((gemini_encrypted w' = gemini_encrypted w
       /\ sessionApiKey w' = sessionApiKey w
       /\ apiKeyInput w' = apiKeyInput w
       /\ random w' = random w)
      \/ exists pass obj,
           answer1 = Some pass /\ answer2 = Some pass /\ pass <> []
           /\ trim (apiKeyInput w) <> []
           /\ encryptApiKey subtle (trim (apiKeyInput w)) pass (random w)
              = (Ok obj, random w')
           /\ gemini_encrypted w' = Some obj
           /\ sessionApiKey w' = Some (trim (apiKeyInput w))
           /\ apiKeyInput w' = []).
Proof.
  cbv zeta. unfold saveKeyBtn_click.
  destruct (trim (apiKeyInput w)) as [|k key] eqn:Hkey;
    [split; [reflexivity|]; split; [reflexivity|]; left; repeat split|].
  destruct answer1 as [[|p pass]|];
    try (split; [reflexivity|]; split; [reflexivity|]; left; repeat split).
  cbv zeta.
  destruct answer2 as [pass2|];
    [|split; [reflexivity|]; split; [reflexivity|]; left; repeat split].
  destruct (str_eqb (p :: pass) pass2) eqn:Heq; cbn [negb];
    [|split; [reflexivity|]; split; [reflexivity|]; left; repeat split].
  apply str_eqb_spec in Heq. subst pass2.
  change (random (prompt _ _ (prompt _ _ w))) with (random w).
  destruct (encryptApiKey_result subtle (k :: key) (p :: pass) (random w))
    as [obj [Henc _]].
  destruct (encryptApiKey subtle (k :: key) (p :: pass) (random w)) as [out e] eqn:E.
  cbn [fst] in Henc. subst out.
  split; [reflexivity|]. split; [reflexivity|]. right.
  exists (p :: pass), obj.
  repeat split; try reflexivity; try discriminate. exact E.
Qed.

(** X23: a click on Save with nothing but white space in the input, with
    the first prompt cancelled or left empty, or with a second answer that
    differs from the first, changes neither the store, nor the cached key,
    nor the input, nor the random source. *)
Theorem saveKeyBtn_refusal_keeps_vault (answer1 answer2 : option jsstring) (w : Page) :
  forallb is_white_space (apiKeyInput w) = true
  \/ answer1 = None \/ answer1 = Some [] \/ answer2 <> answer1 ->
  gemini_encrypted (save_click answer1 answer2 w) = gemini_encrypted w
  /\ sessionApiKey (save_click answer1 answer2 w) = sessionApiKey w
  /\ apiKeyInput (save_click answer1 answer2 w) = apiKeyInput w
  /\ random (save_click answer1 answer2 w) = random w.
Proof.
  intros Hbad.
  destruct (saveKeyBtn_click_cases answer1 answer2 w)
    as [_ [_ [Hsame|[pass [obj [H1 [H2 [Hp [Hk _]]]]]]]]]; [exact Hsame|].
  exfalso. destruct Hbad as [Hw|[Hn|[He|Hd]]].
  - apply Hk, trim_white, Hw.
  - congruence.
  - congruence.
  - congruence.
Qed.

Lemma saveKeyBtn_click_accepts (pass : jsstring) (w : Page) :
  trim (apiKeyInput w) <> [] ->
  pass <> [] ->
  exists obj,
    fst (encryptApiKey subtle (trim (apiKeyInput w)) pass (random w)) = Ok obj
    /\ gemini_encrypted (save_click (Some pass) (Some pass) w) = Some obj
    /\ sessionApiKey (save_click (Some pass) (Some pass) w) = Some (trim (apiKeyInput w))
    /\ apiKeyInput (save_click (Some pass) (Some pass) w) = []
    /\ random (save_click (Some pass) (Some pass) w)
       = snd (encryptApiKey subtle (trim (apiKeyInput w)) pass (random w)).
Proof.
  intros Hkey Hpass. unfold saveKeyBtn_click.
  destruct (trim (apiKeyInput w)) as [|k key]; [congruence|].
  destruct pass as [|p pass]; [congruence|].
  cbv zeta. rewrite (proj2 (str_eqb_spec (p :: pass) (p :: pass)) eq_refl).
  cbn [negb].
  change (random (prompt _ _ (prompt _ _ w))) with (random w).
  destruct (encryptApiKey_result subtle (k :: key) (p :: pass) (random w))
    as [obj [Henc _]].
  destruct (encryptApiKey subtle (k :: key) (p :: pass) (random w)) as [out e].
  cbn [fst snd] in *. subst out. exists obj. repeat split.
Qed.

(** X24: a click on Save with a key that is a well-formed string and a
    passphrase given twice stores an object that the passphrase decrypts
    to the trimmed key, caches that key, empties the input and draws 28
    bytes from the random source. *)
Theorem saveKeyBtn_stores_recoverable_key (pass : jsstring) (w : Page) :
  decrypts_own subtle ->
  trim (apiKeyInput w) <> [] ->
  well_formed (trim (apiKeyInput w)) = true ->
  pass <> [] ->
  sessionApiKey (save_click (Some pass) (Some pass) w) = Some (trim (apiKeyInput w))
  /\ apiKeyInput (save_click (Some pass) (Some pass) w) = []
  /\ drawn (random (save_click (Some pass) (Some pass) w)) = (drawn (random w) + 28)%nat
  /\ exists obj,
       gemini_encrypted (save_click (Some pass) (Some pass) w) = Some obj
       /\ decryptApiKey subtle obj pass = Ok (trim (apiKeyInput w)).
Proof using subtle platform_message.
  intros Hown Hkey Hwf Hpass.
  destruct (saveKeyBtn_click_accepts w Hkey Hpass) as [obj [Henc [Hg [Hs [Hi Hr]]]]].
  split; [exact Hs|]. split; [exact Hi|]. split.
  - rewrite Hr. cbn [encryptApiKey getRandomValues snd pool drawn].
    rewrite <- Nat.add_assoc. reflexivity.
  - exists obj. split; [exact Hg|].
    destruct (@round_trip_of_well_formed subtle (trim (apiKeyInput w)) pass (random w)
                Hown Hwf (trim_no_bom _)) as [obj' [Henc' Hdec]].
    rewrite Henc in Henc'. injection Henc' as <-. exact Hdec.
Qed.

(** A click on Search with no key cached, a stored object and a
    passphrase that decrypts it runs the pipeline with the decrypted key. *)
Lemma searchBtn_click_decrypts (pass apiKey : jsstring) (enc : EncryptedObj) (w : Page) :
  sessionApiKey w = None ->
  gemini_encrypted w = Some enc ->
  pass <> [] ->
  decryptApiKey subtle enc pass = Ok apiKey ->
  trim (cityInput w) <> [] ->
  trim (foodInput w) <> [] ->
  sessionApiKey (search_click (Some pass) w) = Some apiKey
  /\ requests (search_click (Some pass) w)
     = snd (suggestions (trim (cityInput w)) (trim (foodInput w))
              DEFAULT_MODEL apiKey (requests w)).
Proof.
  intros Hs Hg Hp Hd Hc Hf. unfold searchBtn_click.
  destruct (trim (cityInput w)) as [|c city]; [congruence|].
  destruct (trim (foodInput w)) as [|f food]; [congruence|].
  cbv zeta. rewrite Hs. unfold getEncryptedKey. rewrite Hg.
  destruct pass as [|p pass]; [congruence|]. rewrite Hd.
  set (w1 := set_sessionApiKey _ _).
  destruct (shown_frame (lit "Error: ")
              (lit "Querying Gemini for suggestions" ++ [c_ellipsis])
              (c :: city) (f :: food) apiKey w1) as [Hs' [_ [Hr _]]].
  split; [exact Hs'|exact Hr].
Qed.

(** X25: a key saved under a passphrase is the key of the requests when
    the popup is opened again and Search is pressed with that passphrase:
    the pipeline runs with the trimmed key as it was typed. *)
Theorem saved_key_used_after_reopening
    (pass city food : jsstring) (w : Page) (e : Entropy) (sent : list Request) :
  decrypts_own subtle ->
  trim (apiKeyInput w) <> [] ->
  well_formed (trim (apiKeyInput w)) = true ->
  pass <> [] ->
  trim city <> [] ->
  trim food <> [] ->
  let stored := gemini_encrypted (save_click (Some pass) (Some pass) w) in
  let w' := events [TypeCity city; TypeFood food; PressSearch (Some pass)]
              (opened stored e sent) in
  sessionApiKey w' = Some (trim (apiKeyInput w))
  /\ requests w'
     = snd (suggestions (trim city) (trim food) DEFAULT_MODEL
              (trim (apiKeyInput w)) sent).
Proof.
  intros Hown Hkey Hwf Hpass Hc Hf. cbv zeta.
  destruct (saveKeyBtn_click_accepts w Hkey Hpass) as [obj [Henc [Hg _]]].
  destruct (@round_trip_of_well_formed subtle (trim (apiKeyInput w)) pass (random w)
              Hown Hwf (trim_no_bom _)) as [obj' [Henc' Hdec]].
  rewrite Henc in Henc'. injection Henc' as <-.
  rewrite Hg. unfold after. cbn [fold_left handle].
  set (w2 := set_foodInput food _).
  exact (@searchBtn_click_decrypts pass (trim (apiKeyInput w)) obj w2
           eq_refl eq_refl Hpass Hdec Hc Hf).
Qed.

Lemma suggestions_to_endpoint (city food apiKey : jsstring) (sent : list Request) :
  exists reqs,
    snd (suggestions city food DEFAULT_MODEL apiKey sent) = sent ++ reqs
    /\ Forall to_endpoint reqs.
Proof.
  destruct (suggestions city food DEFAULT_MODEL apiKey sent) as [out sent'] eqn:E.
  destruct (suggestions_run _ _ _ _ _ _ _ _ _ _ E) as [reqs [-> Hrun]].
  exists reqs. split; [reflexivity|].
  exact (run_requests_to_endpoint Hrun).
Qed.

(** X26: a listener that starts while a cached key has a stored object
    behind it, and runs to its end with no other listener in flight, ends
    so: Search and Retry cache a key only when they decrypted it from the
    stored object, Save stores before it caches, and Clear key empties the
    cache. *)
Theorem listener_keeps_cache_backed (ev : Event) (w : Page) :
  cache_backed w -> cache_backed (event ev w).
Proof.
  unfold cache_backed. intros Hw. destruct ev as [v|v|v|a1 a2| |a|a|g| ]; cbn [handle].
  - exact Hw.
  - exact Hw.
  - exact Hw.
  - destruct (saveKeyBtn_click_cases a1 a2 w)
      as [_ [_ [[Hg [Hs _]]|[pass [obj [_ [_ [_ [_ [_ [Hg _]]]]]]]]]]].
    + rewrite Hg, Hs. exact Hw.
    + rewrite Hg. discriminate.
  - intros H. exfalso. apply H. reflexivity.
  - destruct (searchBtn_click_cases a w)
      as [[Hs [Hg _]]|[key [Hfrom [_ [Hg _]]]]].
    + rewrite Hg, Hs. exact Hw.
    + rewrite Hg. intros _. destruct Hfrom as [Hk|[enc [pass [He _]]]].
      * apply Hw. rewrite Hk. discriminate.
      * rewrite He. discriminate.
  - destruct (retryBtn_click_cases a w)
      as [->|[[Hs [Hg _]]|[key [enc [pass [He [_ [_ [_ [Hg _]]]]]]]]]].
    + exact Hw.
    + rewrite Hg, Hs. exact Hw.
    + rewrite Hg, He. discriminate.
  - unfold copyRawBtn_click. destruct (raw_shown w); [destruct g|]; exact Hw.
  - exact Hw.
Qed.

(** X28: a listener that starts with no loading spinner in the results,
    and runs to its end with no other listener in flight, ends with none:
    Search and Retry replace the spinner they show by the suggestions, by
    the raw text or by the error. *)
Theorem listener_leaves_no_spinner (ev : Event) (w : Page) :
  spinner_shown w = false -> spinner_shown (event ev w) = false.
Proof.
  unfold spinner_shown. intros Hw.
  destruct ev as [v|v|v|a1 a2| |a|a|g| ]; cbn [handle].
  - exact Hw.
  - exact Hw.
  - exact Hw.
  - destruct (saveKeyBtn_click_cases a1 a2 w) as [_ [-> _]]. exact Hw.
  - exact Hw.
  - destruct (searchBtn_click_cases a w)
      as [[_ [_ [_ ->]]]|[key [_ [_ [_ [_ Hp]]]]]]; [exact Hw|exact Hp].
  - destruct (retryBtn_click_cases a w)
      as [->|[[_ [_ [_ Hp]]]|[key [enc [pass [_ [_ [_ [_ [_ [_ Hp]]]]]]]]]]];
      [exact Hw|exact Hp|exact Hp].
  - unfold copyRawBtn_click. destruct (raw_shown w); [destruct g|]; exact Hw.
  - reflexivity.
Qed.

Lemma handle_requests (ev : Event) (w : Page) :
  exists reqs,
    requests (event ev w) = requests w ++ reqs /\ Forall to_endpoint reqs.
Proof.
  assert (Hnone : forall w', requests w' = requests w ->
            exists reqs, requests w' = requests w ++ reqs /\ Forall to_endpoint reqs).
  { intros w' ->. exists []. split; [symmetry; apply app_nil_r|constructor]. }
  destruct ev as [v|v|v|a1 a2| |a|a|g| ]; cbn [handle];
    try (apply Hnone; reflexivity).
  - destruct (saveKeyBtn_click_cases a1 a2 w) as [Hr _]. apply Hnone, Hr.
  - destruct (searchBtn_click_cases a w)
      as [[_ [_ [Hr _]]]|[key [_ [_ [_ [Hr _]]]]]]; [apply Hnone, Hr|].
    rewrite Hr. apply suggestions_to_endpoint.
  - destruct (retryBtn_click_cases a w)
      as [->|[[_ [_ [Hr _]]]|[key [enc [pass [_ [_ [_ [_ [_ [Hr _]]]]]]]]]]].
    + apply Hnone. reflexivity.
    + apply Hnone, Hr.
    + rewrite Hr. apply suggestions_to_endpoint.
  - unfold copyRawBtn_click. destruct (raw_shown w); [destruct g|];
      apply Hnone; reflexivity.
Qed.

(** X27: whatever the user does, every request the popup sends is a POST
    to the generateContent address of the default model, and the requests
    sent before stay in the log. *)
Theorem requests_only_to_endpoint (evs : list Event) (w : Page) :
  exists reqs,
    requests (events evs w) = requests w ++ reqs /\ Forall to_endpoint reqs.
Proof.
  unfold after. revert w. induction evs as [|ev evs IH]; intros w.
  - exists []. split; [symmetry; apply app_nil_r|constructor].
  - cbn [fold_left]. destruct (handle_requests ev w) as [r1 [H1 F1]].
    destruct (IH (event ev w)) as [r2 [H2 F2]].
    exists (r1 ++ r2). rewrite H2, H1, app_assoc. split; [reflexivity|].
    apply Forall_app. split; assumption.
Qed.

Lemma handle_keyless (ev : Event) (w : Page) :
  is_save ev = false ->
  sessionApiKey w = None -> gemini_encrypted w = None ->
  sessionApiKey (event ev w) = None
  /\ gemini_encrypted (event ev w) = None
  /\ requests (event ev w) = requests w.
Proof.
  intros Hev Hs Hg.
  destruct ev as [v|v|v|a1 a2| |a|a|g| ]; cbn [handle]; try discriminate Hev;
    try (repeat split; assumption).
  - destruct (searchBtn_click_cases a w)
      as [[Hs' [Hg' [Hr _]]]|[key [[Hk|[enc [pass [He _]]]] _]]]; [|congruence..].
    rewrite Hs', Hg', Hr. auto.
  - destruct (retryBtn_click_cases a w)
      as [->|[[Hs' [Hg' [Hr _]]]|[key [enc [pass [He _]]]]]]; [auto| |congruence].
    rewrite Hs', Hg', Hr. auto.
  - unfold copyRawBtn_click. destruct (raw_shown w); [destruct g|]; auto.
Qed.

(** X29: once the listener of Clear key has run to its end with no other
    listener in flight, the next listener, unless it is that of Save,
    sends nothing, caches no key and stores none when it has run to its
    end. *)
Theorem nothing_sent_after_clearKey (ev : Event) (w : Page) :
  is_save ev = false ->
  requests (event ev (event PressClearKey w)) = requests w
  /\ sessionApiKey (event ev (event PressClearKey w)) = None
  /\ gemini_encrypted (event ev (event PressClearKey w)) = None.
Proof.
  intros Hev.
  destruct (handle_keyless ev (event PressClearKey w) Hev eq_refl eq_refl)
    as [Hs [Hg Hr]].
  split; [exact Hr|]. split; [exact Hs|exact Hg].
Qed.

(** X30: a click on Search while the city or the food holds nothing but
    white space shows one alert and does nothing else: no prompt, no
    spinner, no request. *)
Theorem searchBtn_needs_city_and_food (answer : option jsstring) (w : Page) :
  forallb is_white_space (cityInput w) = true
  \/ forallb is_white_space (foodInput w) = true ->
  search_click answer w = alert (lit "Please enter both city and food item.") w.
Proof.
  intros H. unfold searchBtn_click.
  destruct H as [H|H]; rewrite (trim_white _ H); [reflexivity|].
  destruct (trim (cityInput w)); reflexivity.
Qed.

End PageProperties.

(** A [null] second restaurant. *)
Lemma renderStructured_throws_on_null_entry_witness :
  renderStructured Scripted.ToString Scripted.number_truthy null_entry_data
    (lit "Hyderabad") (lit "Qubani ka Meetha") example_page
  = Thrown TypeError.
Proof.
  apply (@renderStructured_throws_on_null_entry
           Scripted.ToString Scripted.number_truthy null_entry_data
           (lit "Hyderabad") (lit "Qubani ka Meetha") example_page).
  reflexivity.
Defined.

(** One restaurant with a map link and six reasons: 26 tags. *)
Lemma renderStructured_markup_bounded_witness :
  exists w',
    renderStructured Scripted.ToString Scripted.number_truthy example_data
      (lit "Hyderabad") (lit "Qubani ka Meetha") example_page
    = Ok w'
    /\ tags (resultsDiv w') = 26%nat
    /\ (tags (resultsDiv w') <= 46)%nat.
Proof.
  eexists. split; [reflexivity|]. split; [vm_compute; reflexivity|].
  eapply (@renderStructured_markup_bounded
            Scripted.ToString Scripted.number_truthy example_data
            (lit "Hyderabad") (lit "Qubani ka Meetha") example_page).
  reflexivity.
Defined.

(** A blank key, and two different passphrases. *)
Lemma saveKeyBtn_refusal_keeps_vault_witness :
  gemini_encrypted
    (saveKeyBtn_click Mock.subtle example_message
       (Some example_passphrase) (Some example_passphrase) blank_key_page)
  = None
  /\ sessionApiKey
       (saveKeyBtn_click Mock.subtle example_message
          (Some example_passphrase) (Some other_passphrase) example_page)
     = None.
Proof.
  split.
  - apply (@saveKeyBtn_refusal_keeps_vault Mock.subtle example_message
             (Some example_passphrase) (Some example_passphrase) blank_key_page).
    left. reflexivity.
  - apply (@saveKeyBtn_refusal_keeps_vault Mock.subtle example_message
             (Some example_passphrase) (Some other_passphrase) example_page).
    right. right. right. discriminate.
Defined.

(** The example key saved under the example passphrase. *)
Lemma saveKeyBtn_stores_recoverable_key_witness :
  sessionApiKey
    (saveKeyBtn_click Mock.subtle example_message
       (Some example_passphrase) (Some example_passphrase) example_page)
  = Some example_key
  /\ apiKeyInput
       (saveKeyBtn_click Mock.subtle example_message
          (Some example_passphrase) (Some example_passphrase) example_page)
     = [].
Proof.
  destruct (@saveKeyBtn_stores_recoverable_key Mock.subtle example_message
              example_passphrase example_page Mock_decrypts_own)
    as [Hcached [Hinput _]].
  - vm_compute. discriminate.
  - vm_compute. reflexivity.
  - discriminate.
  - split; [exact Hcached|exact Hinput].
Defined.

(** Save, open again, fill in, search. *)
Lemma saved_key_used_after_reopening_witness :
  sessionApiKey
    (after Mock.subtle Scripted.JSON_stringify Scripted.ToString
       Scripted.number_truthy Scripted.exceeds
       (Scripted.endpoint [Scripted.reply (lit "Here: {}")]) example_message
       [TypeCity (lit " Hyderabad "); TypeFood (lit "Qubani ka Meetha");
        PressSearch (Some example_passphrase)]
       (opened
          (gemini_encrypted
             (saveKeyBtn_click Mock.subtle example_message
                (Some example_passphrase) (Some example_passphrase) example_page))
          Mock.entropy []))
  = Some example_key.
Proof.
  destruct (@saved_key_used_after_reopening Mock.subtle Scripted.JSON_stringify
              Scripted.ToString Scripted.number_truthy Scripted.exceeds
              (Scripted.endpoint [Scripted.reply (lit "Here: {}")]) example_message
              example_passphrase (lit " Hyderabad ") (lit "Qubani ka Meetha")
              example_page Mock.entropy [] Mock_decrypts_own)
    as [Hcached _].
  - vm_compute. discriminate.
  - vm_compute. reflexivity.
  - discriminate.
  - vm_compute. discriminate.
  - vm_compute. discriminate.
  - exact Hcached.
Defined.

(** Clear key on the page where the key was saved empties the cache,
    which had the stored object behind it. *)
Lemma listener_keeps_cache_backed_witness :
  sessionApiKey saved_page = Some example_key
  /\ cache_backed
       (handle Mock.subtle Scripted.JSON_stringify Scripted.ToString
          Scripted.number_truthy Scripted.exceeds
          (Scripted.endpoint [Scripted.reply (lit "Here: {}")]) example_message
          PressClearKey saved_page).
Proof.
  split; [vm_compute; reflexivity|].
  apply (@listener_keeps_cache_backed Mock.subtle Scripted.JSON_stringify
           Scripted.ToString Scripted.number_truthy Scripted.exceeds
           (Scripted.endpoint [Scripted.reply (lit "Here: {}")]) example_message
           PressClearKey saved_page).
  intros _. vm_compute. discriminate.
Defined.

(** A Search on the page where the key was saved ends with the
    suggestions in place of its spinner. *)
Lemma listener_leaves_no_spinner_witness :
  spinner_shown
    (handle Mock.subtle Scripted.JSON_stringify Scripted.ToString
       Scripted.number_truthy Scripted.exceeds
       (Scripted.endpoint [Scripted.reply (lit "Here: {}")]) example_message
       (PressSearch None) saved_page)
  = false
  /\ requests
       (handle Mock.subtle Scripted.JSON_stringify Scripted.ToString
          Scripted.number_truthy Scripted.exceeds
          (Scripted.endpoint [Scripted.reply (lit "Here: {}")]) example_message
          (PressSearch None) saved_page)
     <> [].
Proof.
  split; [|vm_compute; discriminate].
  apply (@listener_leaves_no_spinner Mock.subtle Scripted.JSON_stringify
           Scripted.ToString Scripted.number_truthy Scripted.exceeds
           (Scripted.endpoint [Scripted.reply (lit "Here: {}")]) example_message
           (PressSearch None) saved_page).
  reflexivity.
Defined.

(** On the page where the key was saved a Search sends a request; after
    Clear key the same Search, and a Retry, send none. *)
Lemma nothing_sent_after_clearKey_witness :
  requests
    (handle Mock.subtle Scripted.JSON_stringify Scripted.ToString
       Scripted.number_truthy Scripted.exceeds
       (Scripted.endpoint [Scripted.reply (lit "Here: {}")]) example_message
       (PressSearch (Some example_passphrase)) saved_page)
  <> requests saved_page
  /\ requests
       (handle Mock.subtle Scripted.JSON_stringify Scripted.ToString
          Scripted.number_truthy Scripted.exceeds
          (Scripted.endpoint [Scripted.reply (lit "Here: {}")]) example_message
          (PressSearch (Some example_passphrase))
          (handle Mock.subtle Scripted.JSON_stringify Scripted.ToString
             Scripted.number_truthy Scripted.exceeds
             (Scripted.endpoint [Scripted.reply (lit "Here: {}")]) example_message
             PressClearKey saved_page))
     = requests saved_page
  /\ requests
       (handle Mock.subtle Scripted.JSON_stringify Scripted.ToString
          Scripted.number_truthy Scripted.exceeds
          (Scripted.endpoint [Scripted.reply (lit "Here: {}")]) example_message
          (PressRetry (Some example_passphrase))
          (handle Mock.subtle Scripted.JSON_stringify Scripted.ToString
             Scripted.number_truthy Scripted.exceeds
             (Scripted.endpoint [Scripted.reply (lit "Here: {}")]) example_message
             PressClearKey saved_page))
     = requests saved_page.
Proof.
  split; [vm_compute; discriminate|]. split.
  - apply (proj1 (@nothing_sent_after_clearKey Mock.subtle Scripted.JSON_stringify
                    Scripted.ToString Scripted.number_truthy Scripted.exceeds
                    (Scripted.endpoint [Scripted.reply (lit "Here: {}")])
                    example_message (PressSearch (Some example_passphrase))
                    saved_page eq_refl)).
  - apply (proj1 (@nothing_sent_after_clearKey Mock.subtle Scripted.JSON_stringify
                    Scripted.ToString Scripted.number_truthy Scripted.exceeds
                    (Scripted.endpoint [Scripted.reply (lit "Here: {}")])
                    example_message (PressRetry (Some example_passphrase))
                    saved_page eq_refl)).
Defined.

(** A city of two spaces. *)
Lemma searchBtn_needs_city_and_food_witness :
  searchBtn_click Mock.subtle Scripted.JSON_stringify Scripted.ToString
    Scripted.number_truthy Scripted.exceeds
    (Scripted.endpoint [Scripted.reply (lit "Here: {}")]) example_message
    (Some example_passphrase) blank_city_page
  = alert (lit "Please enter both city and food item.") blank_city_page.
Proof.
  apply (@searchBtn_needs_city_and_food Mock.subtle Scripted.JSON_stringify
           Scripted.ToString Scripted.number_truthy Scripted.exceeds
           (Scripted.endpoint [Scripted.reply (lit "Here: {}")]) example_message
           (Some example_passphrase) blank_city_page).
  left. reflexivity.
Defined.
